(** * MNEE Fireblocks SDK: a shallow embedding of the transfer core

    The development follows the TypeScript sources of the SDK:
    - [utils/crypto.utils.ts]: [toDER], [encodeDER], [createDERSignature],
      [doubleHash];
    - [services/cosigner.service.ts], [services/fireblocks.service.ts]:
      the requests to the cosigner and to the remote signer,
      [signMultipleHashes] and the matching of its answer;
    - [services/transaction.service.ts]: [selectUtxos],
      [createSignatureHash], [getSignatures], [applySignatures],
      [prepareSignatureRequests];
    - [MNEEFireblocksSDK.ts]: [transferTokens], [transferTokensFromVault].

    Conventions.  Token amounts are the integer atomic units the cosigner
    reports ([data.bsv21.amt]) and are modelled as [Z]; BigInts are [Z];
    buffers are [list byte]; JavaScript strings are [string], read as code
    units below 256.  A function that can throw returns a [result]; code that
    talks to the cosigner or to the signer runs in the monad [M], which
    threads the cached configurations and the trace of the requests made.
    [await]s are sequential, logging is left out, and a [catch] that logs and
    rethrows is the identity.  The definitions come first, the properties
    after them. *)

From Stdlib Require Import ZArith List Bool Lia String Ascii Permutation Sorted.
From Stdlib Require Import Init.Byte.
Import ListNotations.

Local Open Scope string_scope.
Local Open Scope Z_scope.

Set Implicit Arguments.

(** ** Errors

    One constructor per [throw new Error(...)] site of the sources; the
    arguments are the values interpolated into the message. *)

Inductive Error : Type :=
  (* transaction.service.ts, selectUtxos *)
  | InsufficientMNEETokens (have need : Z)
  (* crypto.utils.ts, encodeDER *)
  | RLengthIsZero
  | SLengthIsZero
  | RLengthIsTooLong
  | SLengthIsTooLong
  | RValueIsNegative
  | SValueIsNegative
  | RValueExcessivelyPadded
  | SValueExcessivelyPadded
  (* crypto.utils.ts, BigInt('0x' + ...) on a malformed literal *)
  | SyntaxErrorBigInt (literal : string)
  (* fireblocks.service.ts, signMultipleHashes *)
  | VaultAccountIdRequiredForSigning
  | NoSignedMessagesReturned
  | CouldNotFindMatchingSignature (inputIndex : Z)
  (* MNEEFireblocksSDK.ts, transferTokens *)
  | VaultAccountIdRequiredForTransfers
  | InvalidAmount
  | FeeRangesInadequate
  | AmountAfterFeeTooSmall (tokenSatAmt minimum : Z)
  | InsufficientTokensToCoverFee (have fee : Z)
  | FailedToGetSignatures
  (* MNEEFireblocksSDK.ts, transferTokensFromVault *)
  | SourceVaultAccountIdRequired
  | NoBSVAddressesFound (vault : string)
  | FeeRangesInadequateForTotalBalance
  | InsufficientBalanceToCoverFee (have fee : Z)
  | InsufficientBalanceInVault (vault : string) (required available : Z)
  (* fireblocks.service.ts, getVaultAddressesWithIndexes *)
  | VaultAccountIdRequired
  (* transaction.service.ts, prepareSignatureRequests *)
  | SourceTransactionNotFound
  (* a failure raised by an external collaborator (cosigner, signer, SDK) *)
  | ExternalFailure (what : string)
  (* a property read on [undefined] *)
  | TypeErrorUndefined.

Inductive result (A : Type) : Type :=
  | Ok (a : A)
  | Throw (e : Error).

Arguments Ok {A} a.
Arguments Throw {A} e.

(** ** UTXOs (config/types.ts, interface UTXO) *)

Record UTXO : Type := mkUTXO {
  amt      : Z;       (* data.bsv21.amt *)
  owners   : string;  (* owners[0], the type is the one-element tuple [address] *)
  txid     : string;
  vout     : Z;
  satoshis : Z;
  script   : string
}.


(** ** Error-propagating sequencing ([throw] aborts the rest of the body) *)

Definition bind {A B : Type} (m : result A) (k : A -> result B) : result B :=
  match m with
  | Ok a => k a
  | Throw e => Throw e
  end.

Declare Scope result_scope.
Delimit Scope result_scope with result.
Notation "x <- m ;; k" := (bind m (fun x => k))
  (at level 100, m at next level, right associativity) : result_scope.

(** ** Buffers and hexadecimal strings (Node's [Buffer], [BigInt], [String]) *)

Module Buffer.

Definition byteZ (b : byte) : Z := Z.of_N (Byte.to_N b).

(** Storing a number into a [Uint8Array] cell keeps it modulo 256. *)
Definition byteOfZ (z : Z) : byte :=
  match Byte.of_N (Z.to_N (z mod 256)) with
  | Some b => b
  | None => x00
  end.

(** [Buffer.alloc(n)]: [n] zero bytes. *)
Definition alloc (n : nat) : list byte := repeat x00 n.

(** Lower-case digit of a nibble, as [toString(16)] and [toString('hex')]
    print it. *)
Definition hexDigit (d : Z) : ascii :=
  match d with
  | 0 => "0" | 1 => "1" | 2 => "2" | 3 => "3" | 4 => "4" | 5 => "5"
  | 6 => "6" | 7 => "7" | 8 => "8" | 9 => "9" | 10 => "a" | 11 => "b"
  | 12 => "c" | 13 => "d" | 14 => "e" | _ => "f"
  end%char.

(** Value of a hexadecimal digit, either case; [None] for any other
    character. *)
Definition hexValue (c : ascii) : option Z :=
  let n := Z.of_N (N_of_ascii c) in
  if (48 <=? n) && (n <=? 57) then Some (n - 48)
  else if (97 <=? n) && (n <=? 102) then Some (n - 87)
  else if (65 <=? n) && (n <=? 70) then Some (n - 55)
  else None.

(** [buf.toString('hex')] *)
Fixpoint toHex (buf : list byte) : string :=
  match buf with
  | [] => EmptyString
  | b :: t =>
      String (hexDigit (byteZ b / 16)) (String (hexDigit (byteZ b mod 16)) (toHex t))
  end.

(** [Buffer.from(str, 'hex')]: two digits per byte; decoding stops at the
    first pair that is not made of two hexadecimal digits, and a trailing
    single character is dropped. *)
Fixpoint fromHex (str : string) : list byte :=
  match str with
  | String c1 (String c2 rest) =>
      match hexValue c1, hexValue c2 with
      | Some hi, Some lo => byteOfZ (16 * hi + lo) :: fromHex rest
      | _, _ => []
      end
  | _ => []
  end.

(** [n] bytes holding [v], most significant first. *)
Fixpoint bytesBE (n : nat) (v : Z) : list byte :=
  match n with
  | O => []
  | S k => bytesBE k (v / 256) ++ [byteOfZ v]
  end.

(** The unsigned number a buffer holds, most significant byte first. *)
Definition beValue (buf : list byte) : Z :=
  fold_left (fun a b => 256 * a + byteZ b) buf 0.

(** [buf[i]], [undefined] out of range. *)
Definition at_ (buf : list byte) (i : nat) : option byte := nth_error buf i.

(** [x & mask] for [x] a byte or [undefined] ([undefined & mask] is 0). *)
Definition bitAnd (x : option byte) (mask : Z) : Z :=
  match x with
  | Some b => Z.land (byteZ b) mask
  | None => 0
  end.

(** [x === 0] for [x] a byte or [undefined]. *)
Definition isZero (x : option byte) : bool :=
  match x with
  | Some b => byteZ b =? 0
  | None => false
  end.

End Buffer.

Module JSString.

Fixpoint repeatChar (n : nat) (c : ascii) : string :=
  match n with
  | O => EmptyString
  | S k => String c (repeatChar k c)
  end.

(** [s.padStart(targetLength, c)] for a one-character filler. *)
Definition padStart (targetLength : nat) (c : ascii) (s : string) : string :=
  repeatChar (targetLength - String.length s) c ++ s.

(** White space and line terminators among the code units below 256. *)
Definition isWhiteSpace (c : ascii) : bool :=
  let n := N_of_ascii c in
  ((9 <=? n) && (n <=? 13) || (n =? 32) || (n =? 160))%N.

Fixpoint allWhiteSpace (s : string) : bool :=
  match s with
  | EmptyString => true
  | String c t => isWhiteSpace c && allWhiteSpace t
  end.

End JSString.

Module BigInt.

Import Buffer JSString.

(** Digits of a hexadecimal literal read left to right, [acc] being the value
    read so far; the literal may be followed by white space only. *)
Fixpoint hexLiteral (s : string) (acc : Z) : option Z :=
  match s with
  | EmptyString => Some acc
  | String c t =>
      match hexValue c with
      | Some d => hexLiteral t (16 * acc + d)
      | None => if allWhiteSpace s then Some acc else None
      end
  end.

(** [BigInt('0x' + digits)]: at least one digit is required after the prefix,
    anything else is a [SyntaxError]. *)
Definition ofHex (digits : string) : result Z :=
  match digits with
  | String c _ =>
      match hexValue c, hexLiteral digits 0 with
      | Some _, Some v => Ok v
      | _, _ => Throw (SyntaxErrorBigInt ("0x" ++ digits))
      end
  | EmptyString => Throw (SyntaxErrorBigInt "0x")
  end.

(** Digits of a non-negative number, most significant first, put in front of
    [rest].  One digit is produced per unit of [fuel]; the number of bits of
    the value is enough ([toString16] below). *)
Fixpoint digits16 (fuel : nat) (v : Z) (rest : string) : string :=
  match fuel with
  | O => rest
  | S fuel' =>
      let rest' := String (hexDigit (v mod 16)) rest in
      if v / 16 =? 0 then rest' else digits16 fuel' (v / 16) rest'
  end.

(** [v.toString(16)], for a BigInt and for an integral Number alike. *)
Definition toString16 (v : Z) : string :=
  if v <? 0
  then String "-" (digits16 (S (Z.to_nat (Z.log2 (- v)))) (- v) EmptyString)
  else digits16 (S (Z.to_nat (Z.log2 v))) v EmptyString.

End BigInt.

(** ** utils/crypto.utils.ts *)

Module FireblocksSignature.
Record t : Type := mk {
  r : string;
  s : string;
  v : Z;
  pubKey : string
}.
End FireblocksSignature.

Module SHA256.

(** Node's [createHash("sha256")], following FIPS 180-4 on 32-bit words. *)

Definition w32 (x : Z) : Z := x mod 4294967296.

Definition rotr (n x : Z) : Z :=
  Z.lor (Z.shiftr x n) (w32 (Z.shiftl x (32 - n))).

Definition Ch (x y z : Z) : Z :=
  Z.lxor (Z.land x y) (Z.land (Z.lxor x 4294967295) z).

Definition Maj (x y z : Z) : Z :=
  Z.lxor (Z.lxor (Z.land x y) (Z.land x z)) (Z.land y z).

Definition Sigma0 (x : Z) : Z := Z.lxor (Z.lxor (rotr 2 x) (rotr 13 x)) (rotr 22 x).
Definition Sigma1 (x : Z) : Z := Z.lxor (Z.lxor (rotr 6 x) (rotr 11 x)) (rotr 25 x).
Definition sigma0 (x : Z) : Z := Z.lxor (Z.lxor (rotr 7 x) (rotr 18 x)) (Z.shiftr x 3).
Definition sigma1 (x : Z) : Z := Z.lxor (Z.lxor (rotr 17 x) (rotr 19 x)) (Z.shiftr x 10).

(** The round constants are the first 32 bits of the fractional parts of the
    cube roots of the first 64 primes, the initial hash value those of the
    square roots of the first 8 primes. *)

Definition isPrime (p : Z) : bool :=
  (1 <? p) && forallb (fun d => negb (p mod d =? 0) || (p <=? d))
                      (map Z.of_nat (seq 2 16)).

(** The primes below 312: there are 64 of them. *)
Definition primes : list Z :=
  filter isPrime (map Z.of_nat (seq 2 310)).

(** Largest [x] below [2 ^ bits] with [x ^ 3 <= v], one bit at a time. *)
Fixpoint cbrtBits (bits : nat) (v x : Z) : Z :=
  match bits with
  | O => x
  | S b =>
      let y := x + 2 ^ Z.of_nat b in
      cbrtBits b v (if y * y * y <=? v then y else x)
  end.

Definition fracCbrt (p : Z) : Z := w32 (cbrtBits 36 (p * 2 ^ 96) 0).

Definition fracSqrt (p : Z) : Z := w32 (Z.sqrt (p * 2 ^ 64)).

Definition K : list Z := Eval vm_compute in map fracCbrt primes.

Definition H0 : list Z := Eval vm_compute in map fracSqrt (firstn 8 primes).

(** Padding: a one bit, zeros up to 56 modulo 64, the bit length on 8 bytes. *)
Definition pad (msg : list byte) : list byte :=
  let len := Z.of_nat (List.length msg) in
  let zeros := Z.to_nat ((55 - len) mod 64) in
  msg ++ [x80] ++ repeat x00 zeros ++ Buffer.bytesBE 8 (8 * len).

Definition word (b0 b1 b2 b3 : byte) : Z :=
  ((Buffer.byteZ b0 * 256 + Buffer.byteZ b1) * 256 + Buffer.byteZ b2) * 256
  + Buffer.byteZ b3.

Fixpoint words (bs : list byte) : list Z :=
  match bs with
  | b0 :: b1 :: b2 :: b3 :: rest => word b0 b1 b2 b3 :: words rest
  | _ => []
  end.

(** Message schedule, most recent word first: [recent] holds W[t-1], W[t-2],
    ... and [n] words are still to be produced. *)
Fixpoint schedule (n : nat) (recent : list Z) : list Z :=
  match n with
  | O => recent
  | S k =>
      let w := w32 (sigma1 (nth 1 recent 0) + nth 6 recent 0
                    + sigma0 (nth 14 recent 0) + nth 15 recent 0) in
      schedule k (w :: recent)
  end.

Definition round (st : list Z) (kw : Z * Z) : list Z :=
  match st with
  | [a; b; c; d; e; f; g; h] =>
      let T1 := h + Sigma1 e + Ch e f g + fst kw + snd kw in
      let T2 := Sigma0 a + Maj a b c in
      [w32 (T1 + T2); a; b; c; w32 (d + T1); e; f; g]
  | _ => st
  end.

Definition compress (hash : list Z) (block : list Z) : list Z :=
  let W := rev (schedule 48 (rev block)) in
  let st := fold_left round (combine K W) hash in
  map (fun p => w32 (fst p + snd p)) (combine hash st).

(** The words of the padded message, sixteen per block. *)
Fixpoint blocks (n : nat) (ws : list Z) (hash : list Z) : list Z :=
  match n with
  | O => hash
  | S k => blocks k (skipn 16 ws) (compress hash (firstn 16 ws))
  end.

Definition sha256 (msg : list byte) : list byte :=
  let ws := words (pad msg) in
  let hash := blocks (List.length ws / 16) ws H0 in
  flat_map (Buffer.bytesBE 4) hash.

End SHA256.

Module CryptoUtils.

Import Buffer JSString.

(** [while (buffer[i] === 0) ++i;] followed by [buffer.slice(i)]. *)
Fixpoint dropZeros (buffer : list byte) : list byte :=
  match buffer with
  | b :: t => if byteZ b =? 0 then dropZeros t else buffer
  | [] => []
  end.

Definition toDER (buffer : list byte) : list byte :=
  match dropZeros buffer with
  | [] => alloc 1                       (* i === buffer.length *)
  | b :: t =>
      if negb (Z.land (byteZ b) 128 =? 0)
      then (alloc 1 ++ b :: t)%list
      else b :: t
  end.

Definition encodeDER (r s : list byte) : result (list byte) :=
  let lenR := Z.of_nat (List.length r) in
  let lenS := Z.of_nat (List.length s) in
  if lenR =? 0 then Throw RLengthIsZero else
  if lenS =? 0 then Throw SLengthIsZero else
  if 33 <? lenR then Throw RLengthIsTooLong else
  if 33 <? lenS then Throw SLengthIsTooLong else
  if negb (bitAnd (at_ r 0) 128 =? 0) then Throw RValueIsNegative else
  if negb (bitAnd (at_ s 0) 128 =? 0) then Throw SValueIsNegative else
  if (1 <? lenR) && isZero (at_ r 0) && (bitAnd (at_ r 1) 128 =? 0)
  then Throw RValueExcessivelyPadded else
  if (1 <? lenS) && isZero (at_ s 0) && (bitAnd (at_ s 1) 128 =? 0)
  then Throw SValueExcessivelyPadded else
  Ok ([x30; byteOfZ (6 + lenR + lenS - 2); x02; byteOfZ lenR] ++ r
      ++ [x02; byteOfZ lenS] ++ s)%list.

(** Curve order N of secp256k1. *)
Definition n : Z :=
  0xFFFFFFFFFFFFFFFFFFFFFFFFFFFFFFFEBAAEDCE6AF48A03BBFD25E8CD0364141.

Definition halfN : Z := n / 2.

(** [let normalizedS = s; if (s > halfN) normalizedS = n - s;] *)
Definition normalizeS (s : Z) : Z :=
  if halfN <? s then n - s else s.

Definition createDERSignature (signature : FireblocksSignature.t)
  (sigHashType : Z) : result string :=
  (r <- BigInt.ofHex (FireblocksSignature.r signature) ;;
   s <- BigInt.ofHex (FireblocksSignature.s signature) ;;
   let normalizedS := normalizeS s in
   let rBuffer := fromHex (padStart 64 "0" (BigInt.toString16 r)) in
   let sBuffer := fromHex (padStart 64 "0" (BigInt.toString16 normalizedS)) in
   let processedR := toDER rBuffer in
   let processedS := toDER sBuffer in
   derSig <- encodeDER processedR processedS ;;
   let derHex := toHex derSig in
   let sigHashHex := padStart 2 "0" (BigInt.toString16 sigHashType) in
   Ok (derHex ++ sigHashHex))%result.

(** Despite its name, one SHA-256 over the buffer. *)
Definition doubleHash (buffer : list byte) : list byte :=
  SHA256.sha256 buffer.

End CryptoUtils.


(** ** config/types.ts and the transaction objects of the ledger SDK *)

Module FeeTier.
Record t : Type := mk { fee : Z; max : Z; min : Z }.
End FeeTier.

Module MNEEConfig.
Record t : Type := mk {
  approver    : string;
  burnAddress : string;
  decimals    : Z;
  feeAddress  : string;
  fees        : list FeeTier.t;
  mintAddress : string;
  tokenId     : string
}.
End MNEEConfig.

Module WalletObject.
Record t : Type := mk {
  ordAddress        : string;
  vaultAccountId    : string;
  bip44AddressIndex : option Z
}.
End WalletObject.

Module TransferOptions.
Record t : Type := mk { grossAmount : option bool }.
End TransferOptions.

Module SignatureRequest.
Record t : Type := mk {
  prevTxid          : string;
  outputIndex       : Z;
  inputIndex        : Z;
  address           : option string;
  bip44AddressIndex : option Z;
  script            : string;
  satoshis          : Z;
  sigHashType       : Z
}.
End SignatureRequest.

Module HashWithIndex.
Record t : Type := mk {
  hash              : list byte;
  inputIndex        : Z;
  sigHashType       : Z;
  bip44AddressIndex : option Z
}.
End HashWithIndex.

(** The payload [createInscriptionData] builds; its JSON text and base64
    coding are left to the encoders. *)
Module InscriptionData.
Record t : Type := mk {
  p   : string;
  op  : string;
  id  : string;
  amt : Z
}.
End InscriptionData.

(** Scripts, as far as this code builds them. *)
Inductive Script : Type :=
  | HexScript (hex : string)                               (* LockingScript.fromHex *)
  | CosignLock (address approver : string)                 (* new CosignTemplate().lock *)
  | Inscribed (inner : Script) (dataB64 : InscriptionData.t) (contentType : string)
  | UserUnlock (sig pubKey : string).                      (* CosignTemplate.userUnlock *)

Module TxOutput.
Record t : Type := mk {
  lockingScript : Script;
  satoshis      : Z
}.
End TxOutput.

(** The outputs of a fetched source transaction: script (hex) and value. *)
Module SourceOutput.
Record t : Type := mk {
  lockingScript : string;
  satoshis      : Z
}.
End SourceOutput.

Module TxInput.
Record t : Type := mk {
  sourceTXID        : string;
  sourceOutputIndex : Z;
  sourceTransaction : option (list SourceOutput.t);
  sequence          : option Z;
  unlockingScript   : option Script
}.
End TxInput.

Module Transaction.
Record t : Type := mk {
  version  : Z;
  inputs   : list TxInput.t;
  outputs  : list TxOutput.t;
  lockTime : Z
}.
End Transaction.

(** The argument of [TransactionSignature.format]. *)
Module SighashParams.
Record t : Type := mk {
  sourceTXID         : string;
  sourceOutputIndex  : Z;
  sourceSatoshis     : Z;
  transactionVersion : Z;
  otherInputs        : list TxInput.t;
  inputIndex         : Z;
  outputs            : list TxOutput.t;
  inputSequence      : Z;
  subscript          : Script;
  lockTime           : Z;
  scope              : Z
}.
End SighashParams.

(** ** The remote signer's request and response *)

Module RawMessage.
Record t : Type := mk {
  content           : string;
  bip44addressIndex : Z;
  bip44change       : Z
}.
End RawMessage.

(** The note: [`Sending ${amount.toFixed(5)} MNEE tokens to ${destination}`];
    the amount is kept in atomic units (five decimals). *)
Module SigningRequest.
Record t : Type := mk {
  vaultAccountId : string;
  noteAmount     : Z;
  noteTo         : string;
  messages       : list RawMessage.t
}.
End SigningRequest.

Module SignedMessage.
Record t : Type := mk {
  content   : string;
  signature : FireblocksSignature.t;   (* r, s, v; pubKey is not part of it *)
  publicKey : string
}.
End SignedMessage.

Module TransactionResponse.
Record t : Type := mk {
  signedMessages : option (list SignedMessage.t)
}.
End TransactionResponse.

Module AddressWithIndex.
Record t : Type := mk {
  address           : string;
  bip44AddressIndex : Z
}.
End AddressWithIndex.

(** ** External collaborators and effects

    Every request that leaves the process is recorded in a trace.  The
    answers are those of a [World]; a method that throws answers [Throw]. *)

Inductive Call : Type :=
  | GetConfig                                   (* GET  cosigner /config *)
  | PostUtxos (addresses : list string)         (* POST cosigner /utxos *)
  | GetTx (txid : string)                       (* GET  cosigner /tx/:txid *)
  | PostTransfer (tx : Transaction.t)           (* POST cosigner /transfer *)
  | CreateTransaction (request : SigningRequest.t)  (* signer: raw signing job *)
  | PollTransaction (id : string)               (* signer: job status, until terminal *)
  | GetVaultAddresses (vault : string).         (* signer: paginated addresses *)

Record World : Type := mkWorld {
  getConfig         : result MNEEConfig.t;
  postUtxos         : list string -> result (list UTXO);
  getTx             : string -> result (list SourceOutput.t);
  postTransfer      : Transaction.t -> result string;
  createTransaction : SigningRequest.t -> result string;
  (** the outcome of [waitForSignature] (utils/fireblocks.utils.ts) once the
      job is terminal; a poll sequence without end is not represented *)
  pollTransaction   : string -> result (option TransactionResponse.t);
  getVaultAddressesPaginated : string -> result (list AddressWithIndex.t);
  (** [TransactionSignature.format] of the ledger SDK *)
  format            : SighashParams.t -> list byte;
  (** the hash of the transaction the cosigner returns *)
  transactionHashOf : string -> string
}.

(** [this.tokenConfig] of the SDK object, [this.config] of the cosigner
    service, and the requests made so far. *)
Record State : Type := mkState {
  tokenConfig    : option MNEEConfig.t;
  cosignerConfig : option MNEEConfig.t;
  trace          : list Call
}.

Definition M (A : Type) : Type := State -> result A * State.

Definition ret {A : Type} (a : A) : M A := fun st => (Ok a, st).

Definition throw {A : Type} (e : Error) : M A := fun st => (Throw e, st).

Definition lift {A : Type} (r : result A) : M A := fun st => (r, st).

Definition mbind {A B : Type} (m : M A) (k : A -> M B) : M B :=
  fun st =>
    match m st with
    | (Ok a, st') => k a st'
    | (Throw e, st') => (Throw e, st')
    end.

(** A request: it is appended to the trace, then answered. *)
Definition request {A : Type} (c : Call) (answer : result A) : M A :=
  fun st =>
    (answer, mkState (tokenConfig st) (cosignerConfig st) (trace st ++ [c])).

Declare Scope effect_scope.
Delimit Scope effect_scope with effect.
Notation "x <- m ;; k" := (mbind m (fun x => k))
  (at level 100, m at next level, right associativity) : effect_scope.

Fixpoint mapM {A B : Type} (f : A -> M B) (l : list A) : M (list B) :=
  match l with
  | [] => ret []
  | a :: t => (b <- f a ;; bs <- mapM f t ;; ret (b :: bs))%effect
  end.

(** [if (!str)]: the empty string is falsy. *)
Definition isEmpty (s : string) : bool :=
  match s with EmptyString => true | _ => false end.

(** [x || d] on a number that may be [undefined]: zero is falsy too. *)
Definition orDefault (x : option Z) (d : Z) : Z :=
  match x with
  | Some v => if v =? 0 then d else v
  | None => d
  end.

Definition getState : M State := fun st => (Ok st, st).

Definition setTokenConfig (c : MNEEConfig.t) : M unit :=
  fun st => (Ok tt, mkState (Some c) (cosignerConfig st) (trace st)).

Definition setCosignerConfig (c : MNEEConfig.t) : M unit :=
  fun st => (Ok tt, mkState (tokenConfig st) (Some c) (trace st)).

Fixpoint mapResult {A B : Type} (f : A -> result B) (l : list A) : result (list B) :=
  match l with
  | [] => Ok []
  | a :: t => (b <- f a ;; bs <- mapResult f t ;; Ok (b :: bs))%result
  end.

(** [arr[i]] for a numeric index: [undefined] out of range. *)
Definition nthZ {A : Type} (l : list A) (i : Z) : option A :=
  if i <? 0 then None else nth_error l (Z.to_nat i).

(** ** services/cosigner.service.ts *)

Module CosignerService.

Section WithWorld.
Variable W : World.

Definition fetchConfig : M MNEEConfig.t :=
  (st <- getState ;;
   match cosignerConfig st with
   | Some config => ret config                    (* cached *)
   | None =>
       config <- request GetConfig (getConfig W) ;;
       _ <- setCosignerConfig config ;;
       ret config
   end)%effect.

Definition fetchUtxos (addresses : list string) : M (list UTXO) :=
  request (PostUtxos addresses) (postUtxos W addresses).

Definition fetchTransaction (txid : string) : M (list SourceOutput.t) :=
  request (GetTx txid) (getTx W txid).

Definition submitTransaction (tx : Transaction.t) : M string :=
  request (PostTransfer tx) (postTransfer W tx).

End WithWorld.

End CosignerService.

(** ** services/fireblocks.service.ts *)

Module FireblocksService.

Import Buffer.

Section WithWorld.
Variable W : World.

(** The message submitted for one hash: the content is the digest of the
    hash, printed in hexadecimal. *)
Definition message (h : HashWithIndex.t) : RawMessage.t :=
  let doubleHashValue := CryptoUtils.doubleHash (HashWithIndex.hash h) in
  let doubleHashHex := toHex doubleHashValue in
  RawMessage.mk doubleHashHex
    (match HashWithIndex.bip44AddressIndex h with Some i => i | None => 0 end)
    0.

(** The signature matched to one hash: the first signed message whose content
    is the digest of the hash. *)
Definition matchSignature (signedMessages : list SignedMessage.t)
  (h : HashWithIndex.t) : result (Z * FireblocksSignature.t) :=
  let doubleHashValue := CryptoUtils.doubleHash (HashWithIndex.hash h) in
  let doubleHashHex := toHex doubleHashValue in
  match find (fun signedMsg => String.eqb (SignedMessage.content signedMsg) doubleHashHex)
             signedMessages with
  | None => Throw (CouldNotFindMatchingSignature (HashWithIndex.inputIndex h))
  | Some matchingSignature =>
      let sg := SignedMessage.signature matchingSignature in
      Ok (HashWithIndex.inputIndex h,
          FireblocksSignature.mk (FireblocksSignature.r sg) (FireblocksSignature.s sg)
            (FireblocksSignature.v sg) (SignedMessage.publicKey matchingSignature))
  end.

Definition signMultipleHashes (sigHashesWithIndex : list HashWithIndex.t)
  (amount : Z) (destination vaultAccountId : string)
  : M (list (Z * FireblocksSignature.t)) :=
  if isEmpty vaultAccountId then throw VaultAccountIdRequiredForSigning else
  (let messages := map message sigHashesWithIndex in
   let req := SigningRequest.mk vaultAccountId amount destination messages in
   txResult <- request (CreateTransaction req) (createTransaction W req) ;;
   sigResponse <- request (PollTransaction txResult) (pollTransaction W txResult) ;;
   match sigResponse with
   | Some (TransactionResponse.mk (Some (m :: ms))) =>
       lift (mapResult (matchSignature (m :: ms)) sigHashesWithIndex)
   | _ => throw NoSignedMessagesReturned
   end)%effect.

Definition getVaultAddressesWithIndexes (vaultAccountId : string)
  : M (list AddressWithIndex.t) :=
  if isEmpty vaultAccountId then throw VaultAccountIdRequired else
  request (GetVaultAddresses vaultAccountId) (getVaultAddressesPaginated W vaultAccountId).

End WithWorld.

End FireblocksService.

(** ** services/transaction.service.ts *)

Module TransactionService.

(** *** [utxosCopy.sort((a, b) => b.data.bsv21.amt - a.data.bsv21.amt)]

    [Array.prototype.sort] is stable; with a consistent comparator its result
    is the unique stable arrangement in descending order, which insertion from
    the right computes: an element passes only the strictly larger ones. *)

Fixpoint insertDesc (u : UTXO) (l : list UTXO) : list UTXO :=
  match l with
  | [] => [u]
  | v :: t => if amt v <=? amt u then u :: v :: t else v :: insertDesc u t
  end.

Definition sortDesc (l : list UTXO) : list UTXO :=
  fold_right insertDesc [] l.

(** First loop of an iteration: the first index whose amount equals the gap. *)
Fixpoint findPerfect (gap : Z) (l : list UTXO) (i : nat) : option nat :=
  match l with
  | [] => None
  | u :: t => if amt u =? gap then Some i else findPerfect gap t (S i)
  end.

(** Second loop: scanning from the last index down, the first index whose
    amount is at least the gap, that is the last such index of the list. *)
Fixpoint findSmallestCover (gap : Z) (l : list UTXO) (i : nat) : option nat :=
  match l with
  | [] => None
  | u :: t =>
      match findSmallestCover gap t (S i) with
      | Some j => Some j
      | None => if gap <=? amt u then Some i else None
      end
  end.

Definition selectIndex (gap : Z) (pool : list UTXO) : nat :=
  match findPerfect gap pool 0 with
  | Some i => i
  | None =>
      match findSmallestCover gap pool 0 with
      | Some i => i
      | None => 0%nat
      end
  end.

(** [utxosCopy.splice(i, 1)]: the list without its element at index [i]. *)
Definition spliceOut (i : nat) (l : list UTXO) : list UTXO :=
  firstn i l ++ skipn (S i) l.

Record Selection : Type := mkSelection {
  selectedUtxos    : list UTXO;
  signingAddresses : list string;
  tokensIn         : Z
}.

(** The state of the [while] loop: the remaining pool and the accumulators. *)
Record LoopState : Type := mkLoop {
  pool : list UTXO;
  acc  : Selection
}.

Definition loopGuard (amountNeeded : Z) (st : LoopState) : bool :=
  (tokensIn (acc st) <? amountNeeded) && negb (List.length (pool st) =? 0)%nat.

Definition loopBody (amountNeeded : Z) (st : LoopState) : result LoopState :=
  let selectedIndex := selectIndex (amountNeeded - tokensIn (acc st)) (pool st) in
  match nth_error (pool st) selectedIndex with
  | None => Throw TypeErrorUndefined
  | Some utxo =>
      Ok (mkLoop (spliceOut selectedIndex (pool st))
            (mkSelection (selectedUtxos (acc st) ++ [utxo])
                         (signingAddresses (acc st) ++ [owners utxo])
                         (tokensIn (acc st) + amt utxo)))
  end.

(** The loop removes one element of the pool per iteration; [fuel] bounds the
    number of iterations and [selectLoop_exits] shows that the length of the
    pool is enough for the guard to be false on exit. *)
Fixpoint selectLoop (fuel : nat) (amountNeeded : Z) (st : LoopState)
  : result LoopState :=
  match fuel with
  | O => Ok st
  | S fuel' =>
      if loopGuard amountNeeded st then
        match loopBody amountNeeded st with
        | Ok st' => selectLoop fuel' amountNeeded st'
        | Throw e => Throw e
        end
      else Ok st
  end.

Definition selectUtxos (utxos : list UTXO) (amountNeeded : Z) : result Selection :=
  let utxosCopy := sortDesc utxos in
  match selectLoop (List.length utxosCopy) amountNeeded
          (mkLoop utxosCopy (mkSelection [] [] 0)) with
  | Throw e => Throw e
  | Ok st =>
      if tokensIn (acc st) <? amountNeeded
      then Throw (InsufficientMNEETokens (tokensIn (acc st)) amountNeeded)
      else Ok (acc st)
  end.

Definition sumAmt (l : list UTXO) : Z :=
  fold_right (fun u s => amt u + s) 0 l.


(** *** Signature hashes and signatures *)

Section WithWorld.
Variable W : World.

(** [arr.filter((_, idx) => idx !== i)] *)
Fixpoint filterIndexNot {A : Type} (i : Z) (idx : Z) (l : list A) : list A :=
  match l with
  | [] => []
  | a :: t =>
      if idx =? i then filterIndexNot i (idx + 1) t
      else a :: filterIndexNot i (idx + 1) t
  end.

(** The preimage handed to the digest for one input. *)
Definition preimageParams (tx : Transaction.t) (input : TxInput.t) (inputIndex : Z)
  (lockingScript : string) (satoshis sigHashType : Z) : SighashParams.t :=
  SighashParams.mk
    (TxInput.sourceTXID input)
    (TxInput.sourceOutputIndex input)
    satoshis
    (Transaction.version tx)
    (filterIndexNot inputIndex 0 (Transaction.inputs tx))
    inputIndex
    (Transaction.outputs tx)
    (orDefault (TxInput.sequence input) 0xffffffff)
    (HexScript lockingScript)
    (Transaction.lockTime tx)
    sigHashType.

Definition createSignatureHash (tx : Transaction.t) (inputIndex : Z)
  (lockingScript : string) (satoshis sigHashType : Z) : result string :=
  match nthZ (Transaction.inputs tx) inputIndex with
  | None => Throw TypeErrorUndefined            (* input.sourceTXID on undefined *)
  | Some input =>
      let preimage :=
        format W (preimageParams tx input inputIndex lockingScript satoshis sigHashType) in
      let hash := SHA256.sha256 preimage in
      let hashHex := Buffer.toHex hash in
      Ok hashHex
  end.

Definition createInscriptionData (tokenId : string) (amount : Z) : InscriptionData.t :=
  InscriptionData.mk "bsv-20" "transfer" tokenId amount.

Record SignatureResult : Type := mkSignatureResult {
  sr_inputIndex : Z;
  sr_sig        : string;
  sr_pubKey     : string
}.

Definition hashWithIndex (tx : Transaction.t) (request : SignatureRequest.t)
  : result HashWithIndex.t :=
  (sigHash <- createSignatureHash tx
                (SignatureRequest.inputIndex request)
                (SignatureRequest.script request)
                (SignatureRequest.satoshis request)
                (SignatureRequest.sigHashType request) ;;
   Ok (HashWithIndex.mk (Buffer.fromHex sigHash)
         (SignatureRequest.inputIndex request)
         (SignatureRequest.sigHashType request)
         (SignatureRequest.bip44AddressIndex request)))%result.

Definition derResult (sigRequests : list SignatureRequest.t)
  (signed : Z * FireblocksSignature.t) : result SignatureResult :=
  let (inputIndex, signature) := signed in
  match find (fun req => SignatureRequest.inputIndex req =? inputIndex) sigRequests with
  | None => Throw TypeErrorUndefined            (* request.sigHashType on undefined *)
  | Some request =>
      (sigWithHashType <- CryptoUtils.createDERSignature signature
                            (SignatureRequest.sigHashType request) ;;
       Ok (mkSignatureResult inputIndex sigWithHashType
             (FireblocksSignature.pubKey signature)))%result
  end.

(** [getSignatures]; the transaction is the one [rawtx] serialises. *)
Definition getSignatures (tx : Transaction.t) (sigRequests : list SignatureRequest.t)
  (destination vaultAccountId : string) (amount : option Z)
  : M (list SignatureResult) :=
  (hashesWithIndices <- lift (mapResult (hashWithIndex tx) sigRequests) ;;
   signedResults <- FireblocksService.signMultipleHashes W hashesWithIndices
                      (orDefault amount 0) destination vaultAccountId ;;
   lift (mapResult (derResult sigRequests) signedResults))%effect.

(** [tx.inputs[i].unlockingScript = s] *)
Fixpoint setUnlockingScript (i : nat) (s : Script) (inputs : list TxInput.t)
  : option (list TxInput.t) :=
  match inputs, i with
  | [], _ => None
  | input :: t, O =>
      Some (TxInput.mk (TxInput.sourceTXID input) (TxInput.sourceOutputIndex input)
              (TxInput.sourceTransaction input) (TxInput.sequence input) (Some s) :: t)
  | input :: t, S k =>
      match setUnlockingScript k s t with
      | Some t' => Some (input :: t')
      | None => None
      end
  end.

Fixpoint applySignatures (tx : Transaction.t) (signatures : list SignatureResult)
  : result Transaction.t :=
  match signatures with
  | [] => Ok tx
  | sigResponse :: rest =>
      let unlockingScript := UserUnlock (sr_sig sigResponse) (sr_pubKey sigResponse) in
      if sr_inputIndex sigResponse <? 0 then Throw TypeErrorUndefined else
      match setUnlockingScript (Z.to_nat (sr_inputIndex sigResponse)) unlockingScript
              (Transaction.inputs tx) with
      | None => Throw TypeErrorUndefined
      | Some inputs' =>
          applySignatures
            (Transaction.mk (Transaction.version tx) inputs' (Transaction.outputs tx)
               (Transaction.lockTime tx))
            rest
      end
  end.

(** [SIGHASH_ALL | SIGHASH_ANYONECANPAY | SIGHASH_FORKID] *)
Definition sigHashAllAnyoneCanPayForkId : Z := Z.lor (Z.lor 0x01 0x80) 0x40.

Fixpoint prepareRequestsFrom (index : nat) (inputs : list TxInput.t)
  (signingAddresses : list string) (bip44AddressIndexes : option (list Z))
  : result (list SignatureRequest.t) :=
  match inputs with
  | [] => Ok []
  | input :: rest =>
      match TxInput.sourceTransaction input with
      | None => Throw SourceTransactionNotFound
      | Some sourceTransaction =>
          if isEmpty (TxInput.sourceTXID input) then Throw SourceTransactionNotFound else
          let addressToUse := nth_error signingAddresses index in
          let bip44AddressIndex :=
            orDefault (match bip44AddressIndexes with
                       | Some l => nth_error l index
                       | None => None
                       end) 0 in
          match nthZ sourceTransaction (TxInput.sourceOutputIndex input) with
          | None => Throw TypeErrorUndefined
          | Some out =>
              (requests <- prepareRequestsFrom (S index) rest signingAddresses
                             bip44AddressIndexes ;;
               Ok (SignatureRequest.mk
                     (TxInput.sourceTXID input)
                     (TxInput.sourceOutputIndex input)
                     (Z.of_nat index)
                     addressToUse
                     (Some bip44AddressIndex)
                     (SourceOutput.lockingScript out)
                     (orDefault (Some (SourceOutput.satoshis out)) 1)
                     sigHashAllAnyoneCanPayForkId
                   :: requests))%result
          end
      end
  end.

Definition prepareSignatureRequests (tx : Transaction.t)
  (signingAddresses : list string) (bip44AddressIndexes : option (list Z))
  : result (list SignatureRequest.t) :=
  prepareRequestsFrom 0 (Transaction.inputs tx) signingAddresses bip44AddressIndexes.

End WithWorld.

End TransactionService.

(** ** MNEEFireblocksSDK.ts *)

Module MNEEFireblocksSDK.

Section WithWorld.
Variable W : World.

(** [if (!this.tokenConfig) this.tokenConfig = await fetchConfig()] *)
Definition ensureTokenConfig : M MNEEConfig.t :=
  (st <- getState ;;
   match tokenConfig st with
   | Some config => ret config
   | None =>
       config <- CosignerService.fetchConfig W ;;
       _ <- setTokenConfig config ;;
       ret config
   end)%effect.

(** [fees.find(fee => amount >= fee.min && amount <= fee.max)?.fee] *)
Definition findFee (fees : list FeeTier.t) (amount : Z) : option Z :=
  match find (fun fee => (FeeTier.min fee <=? amount) && (amount <=? FeeTier.max fee)) fees with
  | Some tier => Some (FeeTier.fee tier)
  | None => None
  end.

(** The output locked to [address] with the cosign template and carrying
    [amount] tokens of the configured token ([applyInscription] over
    [new CosignTemplate().lock]); the inscription encoder is taken as
    loaded. *)
Definition tokenOutput (config : MNEEConfig.t) (address : string) (amount : Z)
  : TxOutput.t :=
  TxOutput.mk
    (Inscribed (CosignLock address (MNEEConfig.approver config))
       (TransactionService.createInscriptionData (MNEEConfig.tokenId config) amount)
       "application/bsv-20")
    1.

Definition grossFlag (options : TransferOptions.t) : bool :=
  match TransferOptions.grossAmount options with
  | Some b => b
  | None => false
  end.

(** The amounts the transfer works with, in the order the code computes
    them. *)
Record Accounting : Type := mkAccounting {
  isEmptyingWallet : bool;
  useGrossAmount   : bool;
  fee              : Z;
  tokenSatAmt      : Z;
  amountNeeded     : Z
}.

Definition accounting (config : MNEEConfig.t) (options : TransferOptions.t)
  (amount totalAvailableTokens : Z) : result Accounting :=
  let isEmptyingWallet := Z.abs (totalAvailableTokens - amount) <? 1 in
  let useGrossAmount := grossFlag options || isEmptyingWallet in
  match findFee (MNEEConfig.fees config) amount with
  | None => Throw FeeRangesInadequate
  | Some fee =>
      (tokenSatAmt <-
         (if useGrossAmount then
            let tokenSatAmt := amount - fee in
            if tokenSatAmt <=? 0
            then Throw (AmountAfterFeeTooSmall tokenSatAmt (fee + 1))
            else Ok tokenSatAmt
          else Ok amount) ;;
       if isEmptyingWallet && (totalAvailableTokens <? fee)
       then Throw (InsufficientTokensToCoverFee totalAvailableTokens fee)
       else
         let amountNeeded := if useGrossAmount then amount else tokenSatAmt + fee in
         Ok (mkAccounting isEmptyingWallet useGrossAmount fee tokenSatAmt amountNeeded))%result
  end.

(** Recipient, fee and, when positive, change. *)
Definition buildOutputs (config : MNEEConfig.t) (recipient senderAddress : string)
  (a : Accounting) (tokensIn : Z) : list TxOutput.t :=
  let changeTokenSatAmt := tokensIn - amountNeeded a in
  [tokenOutput config recipient (tokenSatAmt a);
   tokenOutput config (MNEEConfig.feeAddress config) (fee a)]
  ++ (if 0 <? changeTokenSatAmt
      then [tokenOutput config senderAddress changeTokenSatAmt]
      else []).

Definition addInput (utxo : UTXO) : M TxInput.t :=
  (sourceTransaction <- CosignerService.fetchTransaction W (txid utxo) ;;
   ret (TxInput.mk (txid utxo) (vout utxo) (Some sourceTransaction) None None))%effect.

(** The draft transaction: version 1, one input per selected UTXO, the
    outputs of [buildOutputs]. *)
Definition buildTransaction (config : MNEEConfig.t) (recipient senderAddress : string)
  (a : Accounting) (utxos : list UTXO)
  : M (Transaction.t * TransactionService.Selection) :=
  (selection <- lift (TransactionService.selectUtxos utxos (amountNeeded a)) ;;
   inputs <- mapM addInput (TransactionService.selectedUtxos selection) ;;
   ret (Transaction.mk 1 inputs
          (buildOutputs config recipient senderAddress a
             (TransactionService.tokensIn selection))
          0,
        selection))%effect.

Definition transferTokens (recipient : string) (amount : Z)
  (walletObject : WalletObject.t) (options : TransferOptions.t) : M string :=
  if isEmpty (WalletObject.vaultAccountId walletObject)
  then throw VaultAccountIdRequiredForTransfers else
  (config <- ensureTokenConfig ;;
   if amount <=? 0 then throw InvalidAmount else
   let senderAddress := WalletObject.ordAddress walletObject in
   utxos <- CosignerService.fetchUtxos W [senderAddress] ;;
   let totalAvailableTokens := fold_left (fun sum utxo => sum + amt utxo) utxos 0 in
   a <- lift (accounting config options amount totalAvailableTokens) ;;
   built <- buildTransaction config recipient senderAddress a utxos ;;
   let (tx, selection) := built in
   let bip44AddressIndex := orDefault (WalletObject.bip44AddressIndex walletObject) 0 in
   let bip44AddressIndexes :=
     map (fun _ => bip44AddressIndex) (TransactionService.signingAddresses selection) in
   sigRequests <- lift (TransactionService.prepareSignatureRequests tx
                          (TransactionService.signingAddresses selection)
                          (Some bip44AddressIndexes)) ;;
   let tokenAmountForNote := tokenSatAmt a in
   signatures <- TransactionService.getSignatures W tx sigRequests recipient
                   (WalletObject.vaultAccountId walletObject)
                   (Some tokenAmountForNote) ;;
   match signatures with
   | [] => throw FailedToGetSignatures
   | _ =>
       signed <- lift (TransactionService.applySignatures tx signatures) ;;
       response <- CosignerService.submitTransaction W signed ;;
       ret (transactionHashOf W response)
   end)%effect.





End WithWorld.

End MNEEFireblocksSDK.

(** ** Reading a signature back

    The vocabulary in which the properties of [createDERSignature] are
    stated: the checks [encodeDER] makes on one component, and a reader of
    the final hexadecimal string (DER SEQUENCE of two INTEGERs followed by the
    one-byte scope). *)

Module DER.

Import Buffer.

(** The conditions under which [encodeDER] throws for neither position of a
    component: not empty, at most 33 bytes, leading bit clear, no needless
    zero in front. *)
Definition componentOk (x : list byte) : bool :=
  negb (List.length x =? 0)%nat
  && (List.length x <=? 33)%nat
  && (bitAnd (at_ x 0) 128 =? 0)
  && negb ((1 <? List.length x)%nat && isZero (at_ x 0)
           && (bitAnd (at_ x 1) 128 =? 0)).

Record Decoded : Type := mkDecoded {
  decR : Z;
  decS : Z;
  decScope : Z
}.

Definition readInteger (bs : list byte) : option (list byte * list byte) :=
  match bs with
  | tag :: len :: rest =>
      let k := Z.to_nat (byteZ len) in
      if (byteZ tag =? 2) && (k <=? List.length rest)%nat
      then Some (firstn k rest, skipn k rest)
      else None
  | _ => None
  end.

Definition readSignature (bs : list byte) : option Decoded :=
  match bs with
  | tag :: len :: body =>
      if (byteZ tag =? 48) && (byteZ len + 1 =? Z.of_nat (List.length body)) then
        match readInteger body with
        | Some (rBytes, afterR) =>
            match readInteger afterR with
            | Some (sBytes, [scope]) =>
                Some (mkDecoded (beValue rBytes) (beValue sBytes) (byteZ scope))
            | _ => None
            end
        | None => None
        end
      else None
  | _ => None
  end.

(** The whole string must be pairs of hexadecimal digits. *)
Definition decode (sig : string) : option Decoded :=
  let bs := fromHex sig in
  if (String.length sig =? 2 * List.length bs)%nat then readSignature bs else None.

Fixpoint isHexString (s : string) : bool :=
  match s with
  | EmptyString => true
  | String c t =>
      match hexValue c with
      | Some _ => isHexString t
      | None => false
      end
  end.

(** The bytes [encodeDER] returns for two components that pass its checks. *)
Definition encoded (r s : list byte) : list byte :=
  ([x30; byteOfZ (4 + Z.of_nat (List.length r) + Z.of_nat (List.length s));
    x02; byteOfZ (Z.of_nat (List.length r))] ++ r
   ++ [x02; byteOfZ (Z.of_nat (List.length s))] ++ s)%list.

(** The buffer a BigInt goes through in [createDERSignature]: printed on 64
    digits, read back as bytes, put in DER form ([processedR], [processedS]). *)
Definition component (v : Z) : list byte :=
  CryptoUtils.toDER (fromHex (JSString.padStart 64 "0" (BigInt.toString16 v))).

(** A string of [1] to [maxDigits] hexadecimal digits. *)
Definition isHexNumeral (maxDigits : nat) (s : string) : bool :=
  isHexString s && (1 <=? String.length s)%nat && (String.length s <=? maxDigits)%nat.

(** [k] hexadecimal digits holding [v], most significant first. *)
Fixpoint hexFixed (k : nat) (v : Z) : string :=
  match k with
  | O => EmptyString
  | S j => hexFixed j (v / 16) ++ String (hexDigit (v mod 16)) EmptyString
  end.

End DER.

(** ** Vocabulary of the properties *)

Module Vocabulary.

(** Descending order of amounts. *)
Definition geAmt (a b : UTXO) : Prop := amt b <= amt a.

(** What the accumulators of [selectUtxos] hold with respect to the list of
    all UTXOs. *)
Definition selInv (all : list UTXO) (st : TransactionService.LoopState) : Prop :=
  Permutation (TransactionService.selectedUtxos (TransactionService.acc st)
               ++ TransactionService.pool st) all /\
  TransactionService.tokensIn (TransactionService.acc st)
  = TransactionService.sumAmt (TransactionService.selectedUtxos (TransactionService.acc st)) /\
  TransactionService.signingAddresses (TransactionService.acc st)
  = map owners (TransactionService.selectedUtxos (TransactionService.acc st)).

(** The token amount an output carries in its inscription. *)
Definition outputAmt (o : TxOutput.t) : option Z :=
  match TxOutput.lockingScript o with
  | Inscribed _ d _ => Some (InscriptionData.amt d)
  | _ => None
  end.

(** The address an output is locked to. *)
Definition outputAddress (o : TxOutput.t) : option string :=
  match TxOutput.lockingScript o with
  | Inscribed (CosignLock a _) _ _ => Some a
  | _ => None
  end.

(** The config [ensureTokenConfig] ends with: the SDK's cache, else the
    cosigner service's cache, else the answer of the cosigner. *)
Definition resolvedConfig (W : World) (st : State) : result MNEEConfig.t :=
  match tokenConfig st with
  | Some c => Ok c
  | None =>
      match cosignerConfig st with
      | Some c => Ok c
      | None => getConfig W
      end
  end.

(** The preimage of the signature hash of a request, when its input exists. *)
Definition basePreimage (W : World) (tx : Transaction.t) (req : SignatureRequest.t)
  : option (list byte) :=
  match nthZ (Transaction.inputs tx) (SignatureRequest.inputIndex req) with
  | Some input =>
      Some (format W
              (TransactionService.preimageParams tx input
                 (SignatureRequest.inputIndex req) (SignatureRequest.script req)
                 (SignatureRequest.satoshis req) (SignatureRequest.sigHashType req)))
  | None => None
  end.

(** The hash handed to the signer for a request of preimage [pre]. *)
Definition hashOf (req : SignatureRequest.t) (pre : list byte) : HashWithIndex.t :=
  HashWithIndex.mk (SHA256.sha256 pre)
    (SignatureRequest.inputIndex req) (SignatureRequest.sigHashType req)
    (SignatureRequest.bip44AddressIndex req).

(** The content under which a hash is submitted and looked up. *)
Definition contentOf (h : HashWithIndex.t) : string :=
  Buffer.toHex (SHA256.sha256 (HashWithIndex.hash h)).




(** Requests other than the fetch of the cosigner's configuration. *)
Definition isGetConfig (c : Call) : bool :=
  match c with
  | GetConfig => true
  | _ => false
  end.

End Vocabulary.

(** ** Sample data *)

Module Samples.

Definition lowS_sample : FireblocksSignature.t :=
  FireblocksSignature.mk
    "80"
    "7FFFFFFFFFFFFFFFFFFFFFFFFFFFFFFF5D576E7357A4501DDFE92F46681B20A1"
    0 "".

Definition zero_sample : FireblocksSignature.t :=
  FireblocksSignature.mk "0" "00" 0 "".

Definition utxo (a : Z) (owner : string) : UTXO :=
  mkUTXO a owner "tx" 0 1 "".

Definition config : MNEEConfig.t :=
  MNEEConfig.mk "approver" "burn" 5 "feeAddress"
    [FeeTier.mk 1 100 0; FeeTier.mk 5 100000 101] "mint" "token".

(** A world in which every collaborator answers, with nothing to spend. *)
Definition world : World :=
  mkWorld (Ok config) (fun _ => Ok []) (fun _ => Ok [])
    (fun _ => Ok "") (fun _ => Ok "job") (fun _ => Ok None)
    (fun _ => Ok [AddressWithIndex.mk "addr" 0])
    (fun _ => []) (fun s => s).

(** The same world with a signer that returns the given signed messages. *)
Definition worldSigning (signed : list SignedMessage.t)
  (sources : list SourceOutput.t) : World :=
  mkWorld (Ok config) (fun _ => Ok []) (fun _ => Ok sources)
    (fun _ => Ok "") (fun _ => Ok "job")
    (fun _ => Ok (Some (TransactionResponse.mk (Some signed))))
    (fun _ => Ok [AddressWithIndex.mk "addr" 0])
    (fun _ => []) (fun s => s).

Definition fresh : State := mkState None None [].

Definition utxos : list UTXO := [utxo 700 "a"; utxo 200 "b"; utxo 150 "c"].

(** A 32-byte hash to sign (the SHA-256 of "abc") and a signed message
    carrying its content, the SHA-256 of that hash. *)
Definition abc : HashWithIndex.t :=
  HashWithIndex.mk
    (Buffer.fromHex "ba7816bf8f01cfea414140de5dae2223b00361a396177a9cb410ff61f20015ad")
    0 193 None.

Definition signedBy (r s : string) : SignedMessage.t :=
  SignedMessage.mk
    "4f8b42c22dd3729b519ba6f68d2da7cc5b2d606d05daed5ad5128cc03e6c6358"
    (FireblocksSignature.mk r s 0 "") "pk".

(** A draft transaction with one input and the request to sign it. *)
Definition draft : Transaction.t :=
  Transaction.mk 1 [TxInput.mk "tx" 0 (Some [SourceOutput.mk "51" 1]) None None] [] 0.

Definition draftRequest : SignatureRequest.t :=
  SignatureRequest.mk "tx" 0 0 (Some "a") (Some 0) "51" 1 193.

(** Another hash, which no sample message answers. *)
Definition other : HashWithIndex.t :=
  HashWithIndex.mk (SHA256.sha256 []) 1 193 None.

Definition wallet : WalletObject.t := WalletObject.mk "addr" "vault" None.

Definition noOptions : TransferOptions.t := TransferOptions.mk None.

End Samples.

(** ** Further vocabulary *)

Module VocabularyMore.


(** The signature handed back for a signed message. *)
Definition signatureOf (m : SignedMessage.t) : FireblocksSignature.t :=
  FireblocksSignature.mk
    (FireblocksSignature.r (SignedMessage.signature m))
    (FireblocksSignature.s (SignedMessage.signature m))
    (FireblocksSignature.v (SignedMessage.signature m))
    (SignedMessage.publicKey m).

(** An input for which [prepareSignatureRequests] can build a request: it
    has a source transaction and a transaction id, and the source transaction
    has the output the input spends. *)
Definition signable (input : TxInput.t) : bool :=
  match TxInput.sourceTransaction input with
  | Some sourceTransaction =>
      negb (isEmpty (TxInput.sourceTXID input)) &&
      match nthZ sourceTransaction (TxInput.sourceOutputIndex input) with
      | Some _ => true
      | None => false
      end
  | None => false
  end.

(** The output an input spends. *)
Definition spentOutput (input : TxInput.t) : option SourceOutput.t :=
  match TxInput.sourceTransaction input with
  | Some sourceTransaction => nthZ sourceTransaction (TxInput.sourceOutputIndex input)
  | None => None
  end.

(** An input with its unlocking script replaced. *)
Definition unlockedBy (input : TxInput.t) (s : Script) : TxInput.t :=
  TxInput.mk (TxInput.sourceTXID input) (TxInput.sourceOutputIndex input)
    (TxInput.sourceTransaction input) (TxInput.sequence input) (Some s).




(** *** The order of the requests of a transfer *)

Definition isGetTx (c : Call) : bool :=
  match c with
  | GetTx _ => true
  | _ => false
  end.

Fixpoint skipGetTx (calls : list Call) : list Call :=
  match calls with
  | c :: rest => if isGetTx c then skipGetTx rest else calls
  | [] => []
  end.

(** The signing job, the wait for it and the submission: each at most once
    and only after the one before. *)
Definition signThenSubmit (calls : list Call) : bool :=
  match calls with
  | [] => true
  | [CreateTransaction _] => true
  | [CreateTransaction _; PollTransaction _] => true
  | [CreateTransaction _; PollTransaction _; PostTransfer _] => true
  | _ => false
  end.

(** The UTXOs of the sender alone, then source transactions, then signing
    and submission. *)
Definition utxosThenInputs (sender : string) (calls : list Call) : bool :=
  match calls with
  | [] => true
  | PostUtxos [a] :: rest => String.eqb a sender && signThenSubmit (skipGetTx rest)
  | _ => false
  end.

(** The requests of one [transferTokens], in order: the configuration at
    most once and first. *)
Definition transferOrder (sender : string) (calls : list Call) : bool :=
  match calls with
  | GetConfig :: rest => utxosThenInputs sender rest
  | _ => utxosThenInputs sender calls
  end.

(** *** Runs *)

(** The state after some more requests. *)
Definition after (st : State) (calls : list Call) : State :=
  mkState (tokenConfig st) (cosignerConfig st) (trace st ++ calls)%list.

(** The part of [transferTokens] that follows the fetch of the UTXOs. *)
Definition spend (W : World) (config : MNEEConfig.t) (recipient : string)
  (amount : Z) (walletObject : WalletObject.t) (options : TransferOptions.t)
  (utxos : list UTXO) : M string :=
  let senderAddress := WalletObject.ordAddress walletObject in
  let totalAvailableTokens := fold_left (fun sum utxo => sum + amt utxo) utxos 0 in
  (a <- lift (MNEEFireblocksSDK.accounting config options amount totalAvailableTokens) ;;
   built <- MNEEFireblocksSDK.buildTransaction W config recipient senderAddress a utxos ;;
   let (tx, selection) := built in
   let bip44AddressIndex := orDefault (WalletObject.bip44AddressIndex walletObject) 0 in
   let bip44AddressIndexes :=
     map (fun _ => bip44AddressIndex) (TransactionService.signingAddresses selection) in
   sigRequests <- lift (TransactionService.prepareSignatureRequests tx
                          (TransactionService.signingAddresses selection)
                          (Some bip44AddressIndexes)) ;;
   let tokenAmountForNote := MNEEFireblocksSDK.tokenSatAmt a in
   signatures <- TransactionService.getSignatures W tx sigRequests recipient
                   (WalletObject.vaultAccountId walletObject)
                   (Some tokenAmountForNote) ;;
   match signatures with
   | [] => throw FailedToGetSignatures
   | _ =>
       signed <- lift (TransactionService.applySignatures tx signatures) ;;
       response <- CosignerService.submitTransaction W signed ;;
       ret (transactionHashOf W response)
   end)%effect.

End VocabularyMore.

Module SamplesMore.

(** A signed message for the hash the sample worlds produce (their preimage
    is empty). *)
Definition signedOther : SignedMessage.t :=
  SignedMessage.mk (Vocabulary.contentOf Samples.other)
    (FireblocksSignature.mk "01" "02" 0 "") "pk".

(** A world in which the sender holds one UTXO of 700 tokens and every
    collaborator answers. *)
Definition worldSpending : World :=
  mkWorld (Ok Samples.config) (fun _ => Ok [Samples.utxo 700 "addr"])
    (fun _ => Ok [SourceOutput.mk "51" 1])
    (fun _ => Ok "") (fun _ => Ok "job")
    (fun _ => Ok (Some (TransactionResponse.mk (Some [signedOther]))))
    (fun _ => Ok [AddressWithIndex.mk "addr" 0])
    (fun _ => []) (fun s => s).


End SamplesMore.

(** ** utils/fireblocks.utils.ts *)

Module FireblocksUtils.

(** The members of [TransactionStateEnum] the code names; every other status
    is [OtherState]. *)
Inductive TransactionStateEnum : Type :=
  | Completed
  | Broadcasting
  | Blocked
  | Cancelled
  | Failed
  | Rejected
  | OtherState (name : string).

(** [txResponse.data], as far as it is read. *)
Record TransactionData : Type := mkTransactionData {
  id             : string;
  status         : TransactionStateEnum;
  subStatus      : string;
  signedMessages : option (list SignedMessage.t)
}.

(** How a call ends: with the data returned, with the error the loop throws,
    or with the error of a [getTransaction] that failed. *)
Inductive Outcome : Type :=
  | Returned (data : TransactionData)
  | SigningRequestFailed (id : string) (status : TransactionStateEnum) (subStatus : string)
  | Raised (e : Error).

(** The condition that ends the [while] loop. *)
Definition isFinal (s : TransactionStateEnum) : bool :=
  match s with
  | Completed | Broadcasting => true
  | _ => false
  end.

(** The cases of the [switch] that throw. *)
Definition isRefused (s : TransactionStateEnum) : bool :=
  match s with
  | Blocked | Cancelled | Failed | Rejected => true
  | _ => false
  end.

Section WithAnswers.

(** The answer to the [k]-th [getTransaction] of the call, counted from 0;
    the pause between two requests is not represented. *)
Variable getTransaction : nat -> result TransactionData.

(** The [while] loop, entered with the last answer and the number of
    requests made so far; [None] when the fuel runs out.  The result carries
    the number of requests made. *)
Fixpoint pollLoop (fuel : nat) (requests : nat) (txResponse : TransactionData)
  : option (Outcome * nat) :=
  if isFinal (status txResponse) then Some (Returned txResponse, requests)
  else
    match fuel with
    | O => None
    | S fuel' =>
        match getTransaction requests with
        | Throw e => Some (Raised e, S requests)
        | Ok next =>
            if isRefused (status next)
            then Some (SigningRequestFailed (id next) (status next) (subStatus next),
                       S requests)
            else pollLoop fuel' (S requests) next
        end
    end.

Definition waitForSignature (fuel : nat) : option (Outcome * nat) :=
  match getTransaction 0 with
  | Throw e => Some (Raised e, 1%nat)
  | Ok txResponse => pollLoop fuel 1 txResponse
  end.

End WithAnswers.

End FireblocksUtils.

Module WaitVocabulary.

Import FireblocksUtils.

(** What the [k]-th answer decides, if anything: an error of the request is
    raised; a refused status throws, except in the first answer, which the
    [switch] never sees; a final status returns the data. *)
Definition decisive (k : nat) (answer : result TransactionData) : option Outcome :=
  match answer with
  | Throw e => Some (Raised e)
  | Ok r =>
      if (1 <=? k)%nat && isRefused (status r)
      then Some (SigningRequestFailed (id r) (status r) (subStatus r))
      else if isFinal (status r) then Some (Returned r)
      else None
  end.

(** The first decisive answer among those numbered [k] to [k + fuel], with
    the number of requests it takes to reach it. *)
Fixpoint firstDecisive (answers : nat -> result TransactionData) (fuel k : nat)
  : option (Outcome * nat) :=
  match decisive k (answers k) with
  | Some o => Some (o, S k)
  | None =>
      match fuel with
      | O => None
      | S fuel' => firstDecisive answers fuel' (S k)
      end
  end.

End WaitVocabulary.

(** ** services/fireblocks.service.ts, the pages of addresses *)

Module VaultAddresses.

(** An address object of the signer; the index may be missing. *)
Record AddressEntry : Type := mkAddressEntry {
  address           : string;
  bip44AddressIndex : option Z
}.

(** [response.data], as far as it is read: [addresses] and [paging?.after]. *)
Record Page : Type := mkPage {
  addresses : option (list AddressEntry);
  after     : option string
}.

(** [{ address: addr.address, bip44AddressIndex: addr.bip44AddressIndex || 0 }] *)
Definition withIndex (addr : AddressEntry) : AddressWithIndex.t :=
  AddressWithIndex.mk (address addr) (orDefault (bip44AddressIndex addr) 0).

Definition pageAddressesWithIndexes (response : Page) : list AddressWithIndex.t :=
  match addresses response with
  | Some l => map withIndex l
  | None => []
  end.

(** [if (response.data?.paging?.after)]: the cursor of the next page, when
    there is one and it is not the empty string. *)
Definition nextCursor (response : Page) : option string :=
  match after response with
  | Some next => if isEmpty next then None else Some next
  | None => None
  end.

Section WithPages.

(** The answer of [getVaultAccountAssetAddressesPaginated] for the vault and
    the BSV asset, by the cursor given as [after]. *)
Variable getPage : option string -> result Page.

(** The [while (hasMore)] loop; [None] when the fuel runs out.  The result
    carries the cursors requested, in order. *)
Fixpoint fetchPages (fuel : nat) (cursor : option string)
  (allAddressesWithIndexes : list AddressWithIndex.t) (requested : list (option string))
  : option (result (list AddressWithIndex.t) * list (option string)) :=
  match fuel with
  | O => None
  | S fuel' =>
      match getPage cursor with
      | Throw e => Some (Throw e, (requested ++ [cursor])%list)
      | Ok response =>
          let all := (allAddressesWithIndexes ++ pageAddressesWithIndexes response)%list in
          match nextCursor response with
          | Some next => fetchPages fuel' (Some next) all (requested ++ [cursor])%list
          | None => Some (Ok all, (requested ++ [cursor])%list)
          end
      end
  end.

Definition getVaultAddressesWithIndexes (fuel : nat) (vaultAccountId : string)
  : option (result (list AddressWithIndex.t) * list (option string)) :=
  if isEmpty vaultAccountId then Some (Throw VaultAccountIdRequired, [])
  else fetchPages fuel None [] [].

End WithPages.

(** The pages reached from a cursor by following [after] to a page that has
    no next cursor. *)
Inductive Chain (getPage : option string -> result Page)
  : option string -> list Page -> Prop :=
  | chain_last (cursor : option string) (page : Page) :
      getPage cursor = Ok page ->
      nextCursor page = None ->
      Chain getPage cursor [page]
  | chain_next (cursor : option string) (page : Page) (next : string)
      (pages : list Page) :
      getPage cursor = Ok page ->
      nextCursor page = Some next ->
      Chain getPage (Some next) pages ->
      Chain getPage cursor (page :: pages).

(** The cursors requested to read a chain of pages. *)
Definition cursorsOf (cursor : option string) (pages : list Page) : list (option string) :=
  cursor :: map nextCursor (removelast pages).

End VaultAddresses.

(** ** services/cosigner.service.ts, the errors of [submitTransaction] *)

Module CosignerSubmit.

(** [s.includes(sub)] *)
Fixpoint includes (s sub : string) : bool :=
  if String.prefix sub s then true
  else
    match s with
    | EmptyString => false
    | String _ rest => includes rest sub
    end.

(** What the POST threw: an axios error, with [response?.status] and the
    [message] of [response?.data], or something else. *)
Inductive Thrown : Type :=
  | AxiosError (status : option Z) (message : option string)
  | NotAxios (e : Error).

(** What [submitTransaction] throws: a [new Error] with a message, or the
    error it caught. *)
Inductive Rethrown : Type :=
  | NewError (message : string)
  | Same (e : Error).

(** [errorData.message?.includes(sub)] *)
Definition messageIncludes (message : option string) (sub : string) : bool :=
  match message with
  | Some m => includes m sub
  | None => false
  end.

(** The [catch] block. *)
Definition submitError (error : Thrown) : Rethrown :=
  match error with
  | AxiosError status message =>
      match status with
      | Some 423 =>
          if messageIncludes message "frozen"
          then NewError "Your address is currently frozen and cannot send tokens"
          else if messageIncludes message "blacklisted"
          then NewError "The recipient address is blacklisted and cannot receive tokens"
          else NewError "Transaction blocked by cosigner"
      | Some 503 =>
          if messageIncludes message "cosigner is paused"
          then NewError "Token transfers are currently paused by the administrator"
          else NewError "Cosigning service temporarily unavailable"
      | _ =>
          NewError (match message with
                    | Some m => if isEmpty m then "Transaction rejected by cosigner" else m
                    | None => "Transaction rejected by cosigner"
                    end)
      end
  | NotAxios e => Same e
  end.

(** [sub] occurs in [s]. *)
Definition occursIn (sub s : string) : Prop :=
  exists before rest, s = (before ++ sub ++ rest)%string.

End CosignerSubmit.

(** * Properties *)

(** ** The digest on the standard vectors *)

Module DigestVectors.

Import Buffer.

Example constants :
  List.length SHA256.primes = 64%nat /\
  nth 0 SHA256.K 0 = 0x428a2f98 /\ nth 63 SHA256.K 0 = 0xc67178f2 /\
  nth 0 SHA256.H0 0 = 0x6a09e667 /\ nth 7 SHA256.H0 0 = 0x5be0cd19.
Proof. vm_compute. repeat split; reflexivity. Qed.

Example sha256_empty :
  toHex (SHA256.sha256 [])
  = "e3b0c44298fc1c149afbf4c8996fb92427ae41e4649b934ca495991b7852b855".
Proof. vm_compute. reflexivity. Qed.

Example sha256_abc :
  toHex (SHA256.sha256 (fromHex "616263"))
  = "ba7816bf8f01cfea414140de5dae2223b00361a396177a9cb410ff61f20015ad".
Proof. vm_compute. reflexivity. Qed.

(** A message of 56 bytes, whose padding spills into a second block. *)
Example sha256_two_blocks :
  toHex (SHA256.sha256
           (list_byte_of_string
              "abcdbcdecdefdefgefghfghighijhijkijkljklmklmnlmnomnopnopq"))
  = "248d6a61d20638b8e5c026930c3e6039a33ce45964ff2167f6ecedd419db06c1".
Proof. vm_compute. reflexivity. Qed.

Example doubleHash_is_one_digest :
  toHex (CryptoUtils.doubleHash (fromHex "616263"))
  = "ba7816bf8f01cfea414140de5dae2223b00361a396177a9cb410ff61f20015ad".
Proof. vm_compute. reflexivity. Qed.

End DigestVectors.



(** ** Strings *)

Module StringFacts.

Import JSString.

Lemma append_nil_r (s : string) : s ++ EmptyString = s.
Proof. induction s; simpl; congruence. Qed.

Lemma append_assoc (a b c : string) : (a ++ b) ++ c = a ++ (b ++ c).
Proof. induction a; simpl; congruence. Qed.

Lemma length_append (a b : string) :
  String.length (a ++ b) = (String.length a + String.length b)%nat.
Proof. induction a; simpl; congruence. Qed.

Lemma repeatChar_length (k : nat) (c : ascii) : String.length (repeatChar k c) = k.
Proof. induction k; simpl; congruence. Qed.

Lemma repeatChar_snoc (k : nat) (c : ascii) :
  repeatChar k c ++ String c EmptyString = String c (repeatChar k c).
Proof. induction k; simpl; congruence. Qed.

Lemma repeatChar_add (a b : nat) (c : ascii) :
  repeatChar (a + b) c = repeatChar a c ++ repeatChar b c.
Proof. induction a; simpl; congruence. Qed.

End StringFacts.

(** ** Bytes and hexadecimal digits *)

Module BufferFacts.

Import Buffer JSString DER StringFacts.

Lemma byteZ_range (b : byte) : 0 <= byteZ b < 256.
Proof.
  unfold byteZ. pose proof (Byte.to_N_bounded b). lia.
Qed.

Lemma byteZ_byteOfZ (z : Z) : byteZ (byteOfZ z) = z mod 256.
Proof.
  unfold byteOfZ, byteZ.
  pose proof (Z.mod_pos_bound z 256 ltac:(lia)) as Hb.
  destruct (Byte.of_N (Z.to_N (z mod 256))) as [b|] eqn:E.
  - apply Byte.to_of_N in E. rewrite E. lia.
  - apply Byte.of_N_None_iff in E. lia.
Qed.

Lemma byteOfZ_byteZ (b : byte) : byteOfZ (byteZ b) = b.
Proof.
  unfold byteOfZ, byteZ.
  pose proof (Byte.to_N_bounded b).
  rewrite Z.mod_small by lia.
  rewrite N2Z.id, Byte.of_to_N. reflexivity.
Qed.

Lemma byteOfZ_mod (z : Z) : byteOfZ (z mod 256) = byteOfZ z.
Proof. unfold byteOfZ. rewrite Z.mod_mod by lia. reflexivity. Qed.

Lemma byteZ_inj (a b : byte) : byteZ a = byteZ b -> a = b.
Proof.
  intros H. rewrite <- (byteOfZ_byteZ a), <- (byteOfZ_byteZ b). congruence.
Qed.

(** The sixteen digits, checked one by one. *)
Lemma hexValue_hexDigit (d : Z) : 0 <= d < 16 -> hexValue (hexDigit d) = Some d.
Proof.
  intros H.
  assert (d = 0 \/ d = 1 \/ d = 2 \/ d = 3 \/ d = 4 \/ d = 5 \/ d = 6 \/ d = 7 \/
          d = 8 \/ d = 9 \/ d = 10 \/ d = 11 \/ d = 12 \/ d = 13 \/ d = 14 \/ d = 15)
    as Hd by lia.
  repeat (destruct Hd as [-> | Hd]; [reflexivity|]). subst. reflexivity.
Qed.

Lemma hexValue_range (c : ascii) (d : Z) : hexValue c = Some d -> 0 <= d < 16.
Proof.
  unfold hexValue.
  repeat match goal with
         | |- context [if ?b then _ else _] => destruct b eqn:?
         end; intros [= <-]; lia.
Qed.

Lemma hexValue_minus : hexValue "-" = None.
Proof. reflexivity. Qed.

Lemma hexValue_zero : hexValue "0" = Some 0.
Proof. reflexivity. Qed.

(** *** [toHex] and [fromHex] *)

Lemma toHex_app (a b : list byte) : toHex (a ++ b)%list = toHex a ++ toHex b.
Proof. induction a; simpl; congruence. Qed.

Lemma toHex_length (a : list byte) : String.length (toHex a) = (2 * List.length a)%nat.
Proof. induction a; simpl; try rewrite IHa; lia. Qed.

Lemma nibbles (z : Z) :
  0 <= z < 256 ->
  0 <= z / 16 < 16 /\ 0 <= z mod 16 < 16 /\ 16 * (z / 16) + z mod 16 = z.
Proof.
  intros H.
  pose proof (Z.div_mod z 16 ltac:(lia)).
  pose proof (Z.mod_pos_bound z 16 ltac:(lia)).
  lia.
Qed.

Lemma fromHex_byte (b : byte) (rest : string) :
  fromHex (String (hexDigit (byteZ b / 16)) (String (hexDigit (byteZ b mod 16)) rest))
  = b :: fromHex rest.
Proof.
  destruct (nibbles (byteZ_range b)) as (Hhi & Hlo & Heq).
  cbn [fromHex].
  rewrite (hexValue_hexDigit Hhi), (hexValue_hexDigit Hlo), Heq, byteOfZ_byteZ.
  reflexivity.
Qed.

Lemma fromHex_toHex_app (a : list byte) (rest : string) :
  fromHex (toHex a ++ rest) = (a ++ fromHex rest)%list.
Proof.
  induction a as [|b t IH]; simpl toHex; simpl app; [reflexivity|].
  cbn [append]. rewrite fromHex_byte, IH. reflexivity.
Qed.

(** Reading back what [toString('hex')] printed gives the buffer. *)
Lemma fromHex_toHex (a : list byte) : fromHex (toHex a) = a.
Proof.
  rewrite <- (append_nil_r (toHex a)), fromHex_toHex_app. simpl.
  apply app_nil_r.
Qed.

(** *** Fixed-width printing *)

Lemma hexFixed_length (k : nat) (v : Z) : String.length (hexFixed k v) = k.
Proof.
  revert v; induction k; intros v; simpl; [reflexivity|].
  rewrite length_append, IHk. simpl. lia.
Qed.

Lemma hexFixed_zero (k : nat) : hexFixed k 0 = repeatChar k "0".
Proof.
  induction k; simpl; [reflexivity|].
  change (0 / 16) with 0. rewrite IHk. change (hexDigit (0 mod 16)) with "0"%char.
  apply repeatChar_snoc.
Qed.

Lemma hexFixed_pad (a j : nat) (v : Z) :
  0 <= v < 16 ^ Z.of_nat j ->
  hexFixed (a + j) v = repeatChar a "0" ++ hexFixed j v.
Proof.
  revert v; induction j as [|j IH]; intros v Hv.
  - simpl in Hv. assert (v = 0) by lia. subst.
    rewrite Nat.add_0_r, hexFixed_zero. simpl. now rewrite append_nil_r.
  - rewrite Nat.add_succ_r. simpl hexFixed.
    rewrite IH, append_assoc; [reflexivity|].
    rewrite Nat2Z.inj_succ, Z.pow_succ_r in Hv by lia.
    split; [apply Z.div_pos; lia | apply Z.div_lt_upper_bound; lia].
Qed.

Lemma toHex_bytesBE (m : nat) (v : Z) : toHex (bytesBE m v) = hexFixed (2 * m) v.
Proof.
  revert v; induction m as [|m IH]; intros v; [reflexivity|].
  replace (2 * S m)%nat with (S (S (2 * m))) by lia.
  simpl bytesBE. rewrite toHex_app, IH. simpl hexFixed. simpl toHex.
  rewrite byteZ_byteOfZ, append_assoc. simpl.
  rewrite Z.div_div by lia. change (16 * 16) with 256.
  assert (v mod 256 / 16 = (v / 16) mod 16 /\ (v mod 256) mod 16 = v mod 16)
    as [-> ->]; [|reflexivity].
  pose proof (Z.div_mod v 256 ltac:(lia)).
  pose proof (Z.mod_pos_bound v 256 ltac:(lia)).
  pose proof (Z.div_mod (v mod 256) 16 ltac:(lia)).
  pose proof (Z.mod_pos_bound (v mod 256) 16 ltac:(lia)).
  pose proof (Z.div_mod v 16 ltac:(lia)).
  pose proof (Z.mod_pos_bound v 16 ltac:(lia)).
  assert (v mod 256 / 16 < 16) by (apply Z.div_lt_upper_bound; lia).
  assert (0 <= v mod 256 / 16) by (apply Z.div_pos; lia).
  assert (v mod 16 = (v mod 256) mod 16) as E1.
  { apply Z.mod_unique_pos with (q := v / 16 - 16 * (v / 256)); lia. }
  split; [|lia].
  apply Z.mod_unique_pos with (q := v / 256); [lia|].
  assert (v mod 256 / 16 + 16 * (v / 256) = v / 16); [|lia].
  apply Z.div_unique_pos with (r := v mod 16); lia.
Qed.

End BufferFacts.
Module HexFacts.

Import Buffer JSString DER StringFacts BufferFacts BigInt.

Lemma fromHex_hexFixed (m : nat) (v : Z) : fromHex (hexFixed (2 * m) v) = bytesBE m v.
Proof. rewrite <- toHex_bytesBE. apply fromHex_toHex. Qed.

Lemma bytesBE_length (m : nat) (v : Z) : List.length (bytesBE m v) = m.
Proof.
  revert v; induction m; intros v; simpl; [reflexivity|].
  rewrite length_app, IHm. simpl. lia.
Qed.

Lemma beValue_snoc (a : list byte) (b : byte) :
  beValue (a ++ [b]) = 256 * beValue a + byteZ b.
Proof. unfold beValue. rewrite fold_left_app. reflexivity. Qed.

Lemma beValue_bytesBE (m : nat) (v : Z) :
  beValue (bytesBE m v) = v mod 256 ^ Z.of_nat m.
Proof.
  revert v; induction m as [|m IH]; intros v.
  - simpl. now rewrite Z.mod_1_r.
  - simpl bytesBE. rewrite beValue_snoc, IH, byteZ_byteOfZ.
    rewrite Nat2Z.inj_succ, Z.pow_succ_r by lia.
    rewrite Z.rem_mul_r by lia. lia.
Qed.

Lemma beValue_bytesBE_small (m : nat) (v : Z) :
  0 <= v < 256 ^ Z.of_nat m -> beValue (bytesBE m v) = v.
Proof. intros H. rewrite beValue_bytesBE. now apply Z.mod_small. Qed.

(** *** [toString(16)] *)

(** With enough fuel the digits are the shortest fixed-width print. *)
Lemma digits16_fixed (fuel : nat) :
  forall (v : Z) (rest : string),
    (1 <= fuel)%nat -> 0 <= v < 2 ^ Z.of_nat fuel ->
    exists j : nat,
      (1 <= j)%nat /\ digits16 fuel v rest = hexFixed j v ++ rest /\
      (j = 1%nat \/ 16 ^ (Z.of_nat j - 1) <= v) /\ v < 16 ^ Z.of_nat j.
Proof.
  induction fuel as [|f IH]; intros v rest Hf Hv; [lia|].
  cbn [digits16].
  assert (0 <= v / 16) as Hq by (apply Z.div_pos; lia).
  pose proof (Z.div_mod v 16 ltac:(lia)) as Hdm.
  pose proof (Z.mod_pos_bound v 16 ltac:(lia)) as Hm.
  destruct (v / 16 =? 0) eqn:E.
  - apply Z.eqb_eq in E. exists 1%nat.
    cbn [hexFixed]. simpl append. repeat split; lia.
  - apply Z.eqb_neq in E.
    rewrite Nat2Z.inj_succ, Z.pow_succ_r in Hv by lia.
    assert (v / 16 < 2 ^ Z.of_nat f) as Hlt.
    { apply Z.div_lt_upper_bound; [lia|].
      pose proof (Z.pow_pos_nonneg 2 (Z.of_nat f) ltac:(lia) ltac:(lia)). lia. }
    assert (1 <= f)%nat as Hf'.
    { destruct f; [simpl in Hlt; lia | lia]. }
    destruct (IH (v / 16) (String (hexDigit (v mod 16)) rest) Hf' (conj Hq Hlt))
      as (j & Hj & Heq & Hmin & Hmax).
    exists (S j). split; [lia|]. split.
    + rewrite Heq. cbn [hexFixed]. rewrite append_assoc. reflexivity.
    + rewrite Nat2Z.inj_succ, Z.pow_succ_r by lia.
      replace (Z.succ (Z.of_nat j) - 1) with (Z.succ (Z.of_nat j - 1)) by lia.
      rewrite Z.pow_succ_r by lia.
      split; [right|lia].
      destruct Hmin as [->|Hmin]; [change (16 ^ (Z.of_nat 1 - 1)) with 1|]; lia.
Qed.

Lemma log2_fuel (v : Z) : 0 <= v -> v < 2 ^ Z.of_nat (S (Z.to_nat (Z.log2 v))).
Proof.
  intros H. rewrite Nat2Z.inj_succ, Z2Nat.id by apply Z.log2_nonneg.
  destruct (Z.eq_dec v 0) as [->|]; [reflexivity|].
  apply Z.log2_spec. lia.
Qed.

Lemma toString16_nonneg (v : Z) :
  0 <= v ->
  exists j : nat,
    (1 <= j)%nat /\ toString16 v = hexFixed j v /\
    (j = 1%nat \/ 16 ^ (Z.of_nat j - 1) <= v) /\ v < 16 ^ Z.of_nat j.
Proof.
  intros H. unfold toString16.
  destruct (v <? 0) eqn:E; [apply Z.ltb_lt in E; lia|].
  destruct (@digits16_fixed (S (Z.to_nat (Z.log2 v))) v EmptyString)
    as (j & Hj & Heq & Hrest); [lia | split; [lia | now apply log2_fuel] |].
  exists j. rewrite Heq, append_nil_r. auto.
Qed.

(** Padding the print of a number that fits gives the fixed-width print. *)
Lemma padStart_toString16 (k : nat) (v : Z) :
  (1 <= k)%nat -> 0 <= v < 16 ^ Z.of_nat k ->
  padStart k "0" (toString16 v) = hexFixed k v.
Proof.
  intros Hk1 [H0 Hk].
  destruct (toString16_nonneg H0) as (j & Hj & -> & Hmin & Hmax).
  assert (j <= k)%nat as Hjk.
  { destruct Hmin as [->|Hmin].
    - assumption.
    - destruct (le_lt_dec j k) as [|Hlt]; [assumption|exfalso].
      assert (16 ^ Z.of_nat k <= 16 ^ (Z.of_nat j - 1))
        by (apply Z.pow_le_mono_r; lia).
      lia. }
  unfold padStart. rewrite hexFixed_length.
  replace k with ((k - j) + j)%nat at 2 by lia.
  symmetry. apply hexFixed_pad. lia.
Qed.

(** The print of a negative number starts with the sign. *)
Lemma toString16_neg (v : Z) :
  v < 0 -> exists rest, toString16 v = String "-" rest.
Proof.
  intros H. unfold toString16.
  apply Z.ltb_lt in H. rewrite H. eauto.
Qed.

(** Zeros followed by a sign decode to zero bytes only. *)
Lemma fromHex_zeros_sign (a : nat) (rest : string) :
  exists k, fromHex (repeatChar a "0" ++ String "-" rest) = repeat x00 k.
Proof.
  induction a as [a IH] using (well_founded_induction lt_wf).
  destruct a as [|[|a]].
  - exists 0%nat. simpl. destruct rest; reflexivity.
  - exists 0%nat. reflexivity.
  - destruct (IH a ltac:(lia)) as (k & Hk).
    exists (S k). cbn [repeatChar append fromHex].
    rewrite hexValue_zero. cbn [repeatChar append] in Hk. rewrite Hk. reflexivity.
Qed.

Lemma fromHex_padStart_neg (k : nat) (v : Z) :
  v < 0 -> exists m, fromHex (padStart k "0" (toString16 v)) = repeat x00 m.
Proof.
  intros H. destruct (toString16_neg H) as (rest & ->).
  unfold padStart. apply fromHex_zeros_sign.
Qed.

End HexFacts.
(** ** [toDER] and [encodeDER] *)

Module DERFacts.

Import Buffer JSString DER StringFacts BufferFacts HexFacts CryptoUtils.

Lemma beValue_zero_cons (b : byte) (t : list byte) :
  byteZ b = 0 -> beValue (b :: t) = beValue t.
Proof. unfold beValue. simpl. intros ->. reflexivity. Qed.

Lemma dropZeros_value (b : list byte) : beValue (dropZeros b) = beValue b.
Proof.
  induction b as [|x t IH]; [reflexivity|].
  simpl. destruct (byteZ x =? 0) eqn:E; [|reflexivity].
  apply Z.eqb_eq in E. now rewrite beValue_zero_cons.
Qed.

Lemma dropZeros_length (b : list byte) :
  (List.length (dropZeros b) <= List.length b)%nat.
Proof.
  induction b as [|x t IH]; simpl; [lia|].
  destruct (byteZ x =? 0); simpl; lia.
Qed.

Lemma dropZeros_head (b : list byte) (x : byte) (t : list byte) :
  dropZeros b = x :: t -> byteZ x <> 0.
Proof.
  induction b as [|y u IH]; simpl; [discriminate|].
  destruct (byteZ y =? 0) eqn:E; [exact IH|].
  intros [= -> ->]. now apply Z.eqb_neq.
Qed.

Lemma dropZeros_repeat (k : nat) : dropZeros (repeat x00 k) = [].
Proof. induction k; simpl; auto. Qed.

(** An all-zero buffer, of any length, becomes the single zero byte. *)
Lemma toDER_zeros (k : nat) : toDER (repeat x00 k) = [x00].
Proof. unfold toDER. now rewrite dropZeros_repeat. Qed.

Lemma toDER_value (b : list byte) : beValue (toDER b) = beValue b.
Proof.
  unfold toDER. rewrite <- (dropZeros_value b).
  destruct (dropZeros b) as [|x t]; [reflexivity|].
  destruct (negb (Z.land (byteZ x) 128 =? 0)); [|reflexivity].
  simpl app. now rewrite beValue_zero_cons.
Qed.

Lemma toDER_length (b : list byte) :
  (1 <= List.length (toDER b) <= S (List.length b))%nat.
Proof.
  unfold toDER. pose proof (dropZeros_length b).
  destruct (dropZeros b) as [|x t]; [simpl; lia|].
  destruct (negb (Z.land (byteZ x) 128 =? 0)); simpl in *; lia.
Qed.

(** What [toDER] returns passes every check of [encodeDER] but, for long
   buffers, the one on the length. *)
Lemma toDER_canonical (b : list byte) :
  (List.length b <= 32)%nat -> componentOk (toDER b) = true.
Proof.
  intros Hlen. pose proof (toDER_length b) as Hl.
  unfold componentOk.
  replace (List.length (toDER b) =? 0)%nat with false
    by (symmetry; apply Nat.eqb_neq; lia).
  replace (List.length (toDER b) <=? 33)%nat with true
    by (symmetry; apply Nat.leb_le; lia).
  clear Hl Hlen. unfold toDER.
  destruct (dropZeros b) as [|x t] eqn:E; [reflexivity|].
  apply dropZeros_head in E.
  destruct (Z.land (byteZ x) 128 =? 0) eqn:Hbit; simpl negb; cbv iota.
  - cbn [at_ nth_error bitAnd isZero andb negb]. rewrite Hbit.
    apply Z.eqb_neq in E. rewrite E, andb_false_r, andb_false_l. reflexivity.
  - cbn [alloc repeat app at_ nth_error bitAnd isZero List.length].
    rewrite Hbit. reflexivity.
Qed.

(** [encodeDER] returns exactly when both components pass the checks. *)
Lemma encodeDER_ok (r s : list byte) :
  componentOk r = true -> componentOk s = true ->
  encodeDER r s = Ok (encoded r s).
Proof.
  unfold componentOk, encodeDER, encoded.
  intros Hr Hs.
  repeat (apply andb_true_iff in Hr; destruct Hr as [Hr ?]).
  repeat (apply andb_true_iff in Hs; destruct Hs as [Hs ?]).
  repeat match goal with
         | H : negb _ = true |- _ => apply negb_true_iff in H
         end.
  repeat match goal with
         | H : (_ =? _)%nat = false |- _ => apply Nat.eqb_neq in H
         | H : (_ <=? _)%nat = true |- _ => apply Nat.leb_le in H
         end.
  replace (Z.of_nat (List.length r) =? 0) with false by (symmetry; apply Z.eqb_neq; lia).
  replace (Z.of_nat (List.length s) =? 0) with false by (symmetry; apply Z.eqb_neq; lia).
  replace (33 <? Z.of_nat (List.length r)) with false by (symmetry; apply Z.ltb_ge; lia).
  replace (33 <? Z.of_nat (List.length s)) with false by (symmetry; apply Z.ltb_ge; lia).
  repeat match goal with
         | H : (bitAnd (at_ _ 0) 128 =? 0) = true |- _ => rewrite H; clear H
         end.
  cbn [negb].
  replace (1 <? Z.of_nat (List.length r)) with (1 <? List.length r)%nat.
  2:{ destruct (1 <? List.length r)%nat eqn:E; symmetry;
      [apply Nat.ltb_lt in E; apply Z.ltb_lt | apply Nat.ltb_ge in E; apply Z.ltb_ge]; lia. }
  replace (1 <? Z.of_nat (List.length s)) with (1 <? List.length s)%nat.
  2:{ destruct (1 <? List.length s)%nat eqn:E; symmetry;
      [apply Nat.ltb_lt in E; apply Z.ltb_lt | apply Nat.ltb_ge in E; apply Z.ltb_ge]; lia. }
  repeat match goal with
         | H : _ = false |- _ => rewrite H; clear H
         end.
  replace (6 + Z.of_nat (List.length r) + Z.of_nat (List.length s) - 2)
    with (4 + Z.of_nat (List.length r) + Z.of_nat (List.length s)) by lia.
  reflexivity.
Qed.

Lemma encodeDER_throws (r s : list byte) :
  componentOk r && componentOk s = false -> exists e, encodeDER r s = Throw e.
Proof.
  unfold componentOk, encodeDER. intros H.
  destruct (Z.of_nat (List.length r) =? 0) eqn:E1; [eauto|].
  destruct (Z.of_nat (List.length s) =? 0) eqn:E2; [eauto|].
  destruct (33 <? Z.of_nat (List.length r)) eqn:E3; [eauto|].
  destruct (33 <? Z.of_nat (List.length s)) eqn:E4; [eauto|].
  destruct (bitAnd (at_ r 0) 128 =? 0) eqn:E5; [|simpl; eauto].
  destruct (bitAnd (at_ s 0) 128 =? 0) eqn:E6; [|simpl; eauto].
  cbn [negb].
  destruct ((1 <? Z.of_nat (List.length r)) && isZero (at_ r 0) &&
            (bitAnd (at_ r 1) 128 =? 0)) eqn:E7; [eauto|].
  destruct ((1 <? Z.of_nat (List.length s)) && isZero (at_ s 0) &&
            (bitAnd (at_ s 1) 128 =? 0)) eqn:E8; [eauto|].
  exfalso.
  apply Z.eqb_neq in E1, E2. apply Z.ltb_ge in E3, E4.
  replace (List.length r =? 0)%nat with false in H by (symmetry; apply Nat.eqb_neq; lia).
  replace (List.length s =? 0)%nat with false in H by (symmetry; apply Nat.eqb_neq; lia).
  replace (List.length r <=? 33)%nat with true in H by (symmetry; apply Nat.leb_le; lia).
  replace (List.length s <=? 33)%nat with true in H by (symmetry; apply Nat.leb_le; lia).
  replace (1 <? List.length r)%nat with (1 <? Z.of_nat (List.length r)) in H.
  2:{ destruct (1 <? List.length r)%nat eqn:E;
      [apply Nat.ltb_lt in E; apply Z.ltb_lt | apply Nat.ltb_ge in E; apply Z.ltb_ge]; lia. }
  replace (1 <? List.length s)%nat with (1 <? Z.of_nat (List.length s)) in H.
  2:{ destruct (1 <? List.length s)%nat eqn:E;
      [apply Nat.ltb_lt in E; apply Z.ltb_lt | apply Nat.ltb_ge in E; apply Z.ltb_ge]; lia. }
  rewrite E7, E8 in H. discriminate H.
Qed.

(** *** Reading an encoded signature back *)

Lemma readInteger_encoded (x rest : list byte) :
  (List.length x <= 33)%nat ->
  readInteger (x02 :: byteOfZ (Z.of_nat (List.length x)) :: x ++ rest) = Some (x, rest).
Proof.
  intros H. unfold readInteger.
  rewrite byteZ_byteOfZ, Z.mod_small by lia.
  rewrite Nat2Z.id. change (byteZ x02 =? 2) with true. cbn [andb].
  rewrite length_app.
  replace (List.length x <=? List.length x + List.length rest)%nat with true
    by (symmetry; apply Nat.leb_le; lia).
  rewrite firstn_app, Nat.sub_diag, firstn_all, firstn_0, app_nil_r.
  rewrite skipn_app, Nat.sub_diag, skipn_all. reflexivity.
Qed.

Lemma readSignature_encoded (r s : list byte) (scope : byte) :
  (List.length r <= 33)%nat -> (List.length s <= 33)%nat ->
  readSignature (encoded r s ++ [scope])
  = Some (mkDecoded (beValue r) (beValue s) (byteZ scope)).
Proof.
  intros Hr Hs. unfold encoded, readSignature.
  cbn [app].
  rewrite byteZ_byteOfZ, Z.mod_small by lia.
  change (byteZ x30 =? 48) with true. cbn [andb].
  replace (_ =? _) with true.
  2:{ symmetry. apply Z.eqb_eq.
      repeat (rewrite length_app || cbn [List.length]). lia. }
  rewrite <- !app_assoc. cbn [app].
  rewrite readInteger_encoded by assumption.
  rewrite readInteger_encoded by assumption.
  reflexivity.
Qed.

End DERFacts.
(** ** [BigInt('0x' + digits)] *)

Module BigIntFacts.

Import Buffer JSString DER StringFacts BufferFacts BigInt.

Lemma hexLiteral_nonneg (s : string) :
  forall acc v, 0 <= acc -> hexLiteral s acc = Some v -> 0 <= v.
Proof.
  induction s as [|c t IH]; intros acc v Hacc; cbn [hexLiteral].
  - intros [= <-]. assumption.
  - destruct (hexValue c) as [d|] eqn:E.
    + apply hexValue_range in E. apply IH. lia.
    + destruct (allWhiteSpace (String c t)); [|discriminate].
      intros [= <-]. assumption.
Qed.

Lemma ofHex_nonneg (digits : string) (v : Z) : ofHex digits = Ok v -> 0 <= v.
Proof.
  unfold ofHex. destruct digits as [|c t]; [discriminate|].
  destruct (hexValue c); [|discriminate].
  destruct (hexLiteral (String c t) 0) eqn:E; [|discriminate].
  intros [= <-]. revert E. apply hexLiteral_nonneg. lia.
Qed.

Lemma hexLiteral_digits (s : string) :
  forall acc, isHexString s = true -> 0 <= acc ->
    exists v, hexLiteral s acc = Some v /\
              16 ^ Z.of_nat (String.length s) * acc <= v
              < 16 ^ Z.of_nat (String.length s) * (acc + 1).
Proof.
  induction s as [|c t IH]; intros acc Hs Hacc.
  - exists acc. cbn [hexLiteral String.length].
    change (16 ^ Z.of_nat 0) with 1. split; [reflexivity|lia].
  - cbn [hexLiteral isHexString String.length] in Hs |- *. destruct (hexValue c) as [d|] eqn:E; [|discriminate].
    apply hexValue_range in E.
    destruct (IH (16 * acc + d) Hs ltac:(lia)) as (v & Hv & Hlo & Hhi).
    exists v. split; [assumption|].
    rewrite Nat2Z.inj_succ, Z.pow_succ_r by lia.
    pose proof (Z.pow_pos_nonneg 16 (Z.of_nat (String.length t)) ltac:(lia) ltac:(lia)).
    nia.
Qed.

(** A non-empty string of hexadecimal digits is a literal, and its value
    fits in as many digits. *)
Lemma ofHex_digits (digits : string) :
  isHexString digits = true -> digits <> EmptyString ->
  exists v, ofHex digits = Ok v /\ 0 <= v < 16 ^ Z.of_nat (String.length digits).
Proof.
  intros Hs Hne. destruct (@hexLiteral_digits digits 0 Hs ltac:(lia)) as (v & Hv & Hb).
  exists v. unfold ofHex. destruct digits as [|c t]; [congruence|].
  rewrite Hv. simpl in Hs. destruct (hexValue c); [|discriminate].
  split; [reflexivity|lia].
Qed.

Lemma ofHex_empty : ofHex EmptyString = Throw (SyntaxErrorBigInt "0x").
Proof. reflexivity. Qed.

End BigIntFacts.

(** ** [createDERSignature] *)

Module SignatureFacts.

Import Buffer JSString DER StringFacts BufferFacts HexFacts DERFacts BigIntFacts.
Import CryptoUtils.

Lemma halfN_spec : n = 2 * halfN + 1.
Proof. reflexivity. Qed.

Lemma n_bound : 0 < halfN /\ n < 16 ^ 64.
Proof. split; reflexivity. Qed.

Lemma normalizeS_low (s : Z) : normalizeS s <= halfN.
Proof.
  unfold normalizeS. pose proof halfN_spec.
  destruct (halfN <? s) eqn:E; [apply Z.ltb_lt in E | apply Z.ltb_ge in E]; lia.
Qed.

Lemma component_nonneg (v : Z) :
  0 <= v < 16 ^ 64 ->
  component v = toDER (bytesBE 32 v) /\
  componentOk (component v) = true /\ beValue (component v) = v.
Proof.
  intros Hv. unfold component.
  rewrite padStart_toString16 by (change (Z.of_nat 64) with 64; lia).
  change 64%nat with (2 * 32)%nat. rewrite fromHex_hexFixed.
  split; [reflexivity|]. split.
  - apply toDER_canonical. rewrite bytesBE_length. lia.
  - rewrite toDER_value. apply beValue_bytesBE_small.
    change (256 ^ Z.of_nat 32) with (16 ^ 64). assumption.
Qed.

Lemma component_neg (v : Z) : v < 0 -> component v = [x00].
Proof.
  intros Hv. unfold component.
  destruct (@fromHex_padStart_neg 64 v Hv) as (m & ->).
  apply toDER_zeros.
Qed.

Lemma component_zero : component 0 = [x00].
Proof. reflexivity. Qed.

Lemma component_ok (v : Z) :
  v < 16 ^ 64 ->
  componentOk (component v) = true /\ beValue (component v) = Z.max v 0.
Proof.
  intros Hv. destruct (Z.lt_ge_cases v 0) as [Hneg|Hpos].
  - rewrite (component_neg Hneg). split; [reflexivity|].
    rewrite Z.max_r by lia. reflexivity.
  - destruct (@component_nonneg v ltac:(lia)) as (_ & Hok & Hval).
    rewrite Z.max_l by lia. auto.
Qed.

(** The scope is printed on two digits when it is a byte. *)
Lemma scope_hex (t : Z) :
  0 <= t < 256 -> padStart 2 "0" (BigInt.toString16 t) = toHex [byteOfZ t].
Proof.
  intros Ht. rewrite padStart_toString16 by (change (16 ^ Z.of_nat 2) with 256; lia).
  change [byteOfZ t] with (bytesBE 1 t). now rewrite toHex_bytesBE.
Qed.

(** The body of [createDERSignature] once both literals are read. *)
Lemma createDERSignature_unfold (sig : FireblocksSignature.t) (t rv sv : Z) :
  BigInt.ofHex (FireblocksSignature.r sig) = Ok rv ->
  BigInt.ofHex (FireblocksSignature.s sig) = Ok sv ->
  createDERSignature sig t =
  bind (encodeDER (component rv) (component (normalizeS sv)))
       (fun derSig => Ok (toHex derSig ++ padStart 2 "0" (BigInt.toString16 t))).
Proof.
  intros Hr Hs. unfold createDERSignature. rewrite Hr, Hs. reflexivity.
Qed.

Lemma decode_encoded (R S : list byte) (t : Z) :
  componentOk R = true -> componentOk S = true -> 0 <= t < 256 ->
  decode (toHex (encoded R S) ++ padStart 2 "0" (BigInt.toString16 t))
  = Some (mkDecoded (beValue R) (beValue S) t).
Proof.
  intros HR HS Ht.
  assert (forall x, componentOk x = true -> (List.length x <= 33)%nat) as Hlen.
  { intros x Hx. unfold componentOk in Hx.
    repeat (apply andb_true_iff in Hx; destruct Hx as [Hx ?]).
    now apply Nat.leb_le. }
  rewrite (scope_hex Ht), <- toHex_app. unfold decode.
  rewrite fromHex_toHex, toHex_length, Nat.eqb_refl.
  rewrite readSignature_encoded by auto.
  rewrite byteZ_byteOfZ, Z.mod_small by assumption. reflexivity.
Qed.

End SignatureFacts.
Module SignatureTheorems.

Import Buffer JSString DER StringFacts BufferFacts HexFacts DERFacts BigIntFacts.
Import SignatureFacts CryptoUtils Samples.

Lemma isHexNumeral_ofHex (k : nat) (digits : string) :
  isHexNumeral k digits = true ->
  exists v, BigInt.ofHex digits = Ok v /\ 0 <= v < 16 ^ Z.of_nat k.
Proof.
  unfold isHexNumeral. intros H.
  apply andb_true_iff in H. destruct H as [H Hmax].
  apply andb_true_iff in H. destruct H as [Hhex Hmin].
  apply Nat.leb_le in Hmax, Hmin.
  destruct (@ofHex_digits digits Hhex) as (v & Hv & Hb).
  { intros ->. simpl in Hmin. lia. }
  exists v. split; [assumption|]. split; [lia|].
  apply Z.lt_le_trans with (1 := proj2 Hb).
  apply Z.pow_le_mono_r; lia.
Qed.

Lemma Ok_inj {A : Type} (a b : A) : Ok a = Ok b -> a = b.
Proof. intros [= H]. exact H. Qed.

(** Both components of a signature that is returned passed the checks, and
    the string is the print of the encoding followed by the scope. *)
Lemma createDERSignature_inv (sig : FireblocksSignature.t) (t : Z) (out : string) :
  createDERSignature sig t = Ok out ->
  exists rv sv,
    BigInt.ofHex (FireblocksSignature.r sig) = Ok rv /\
    BigInt.ofHex (FireblocksSignature.s sig) = Ok sv /\
    componentOk (component rv) = true /\
    componentOk (component (normalizeS sv)) = true /\
    out = toHex (encoded (component rv) (component (normalizeS sv)))
          ++ padStart 2 "0" (BigInt.toString16 t).
Proof.
  intros H.
  destruct (BigInt.ofHex (FireblocksSignature.r sig)) as [rv|e] eqn:Hr.
  2:{ unfold createDERSignature in H. rewrite Hr in H. discriminate H. }
  destruct (BigInt.ofHex (FireblocksSignature.s sig)) as [sv|e] eqn:Hs.
  2:{ unfold createDERSignature in H. rewrite Hr, Hs in H. discriminate H. }
  rewrite (createDERSignature_unfold sig t Hr Hs) in H.
  exists rv, sv. do 2 (split; [reflexivity|]).
  destruct (componentOk (component rv) && componentOk (component (normalizeS sv)))
    eqn:Hok.
  - apply andb_true_iff in Hok. destruct Hok as [Hok1 Hok2].
    rewrite (encodeDER_ok _ _ Hok1 Hok2) in H. cbn [bind] in H.
    apply Ok_inj in H. subst out. auto.
  - destruct (encodeDER_throws _ _ Hok) as (e & He).
    rewrite He in H. discriminate H.
Qed.

Lemma createDERSignature_returns (sig : FireblocksSignature.t) (t rv sv : Z) :
  BigInt.ofHex (FireblocksSignature.r sig) = Ok rv -> rv < 16 ^ 64 ->
  BigInt.ofHex (FireblocksSignature.s sig) = Ok sv ->
  componentOk (component rv) = true /\
  componentOk (component (normalizeS sv)) = true /\
  encodeDER (component rv) (component (normalizeS sv))
  = Ok (encoded (component rv) (component (normalizeS sv))) /\
  createDERSignature sig t
  = Ok (toHex (encoded (component rv) (component (normalizeS sv)))
        ++ padStart 2 "0" (BigInt.toString16 t)).
Proof.
  intros Hr Hrv Hs.
  destruct (component_ok Hrv) as [HokR _].
  assert (normalizeS sv < 16 ^ 64) as Hn.
  { pose proof (normalizeS_low sv). pose proof halfN_spec.
    destruct n_bound. lia. }
  destruct (component_ok Hn) as [HokS _].
  pose proof (encodeDER_ok _ _ HokR HokS) as Henc.
  repeat split; try assumption.
  rewrite (createDERSignature_unfold sig t Hr Hs), Henc. reflexivity.
Qed.

(** C2. Low-S form: whenever [createDERSignature] returns a signature for a
    sighash byte, the INTEGER it carries for s is at most n/2, n the order
    of secp256k1.  The input s is kept when it is at most n/2 and replaced by
    n - s when it exceeds n/2 ([normalizeS]); what is encoded is that value
    (zero when n - s is negative, that is for s above n).  A signature is
    returned for every r of 1 to 64 hexadecimal digits and every s made of
    hexadecimal digits. *)
Theorem createDERSignature_low_s (sig : FireblocksSignature.t) (t : Z) :
  0 <= t < 256 ->
  (isHexNumeral 64 (FireblocksSignature.r sig) = true ->
   isHexString (FireblocksSignature.s sig) = true ->
   FireblocksSignature.s sig <> EmptyString ->
   exists out, createDERSignature sig t = Ok out) /\
  (forall out, createDERSignature sig t = Ok out ->
   exists sv d,
     BigInt.ofHex (FireblocksSignature.s sig) = Ok sv /\
     decode out = Some d /\
     0 <= decS d <= halfN /\
     decScope d = t /\
     (sv <= halfN -> normalizeS sv = sv /\ decS d = sv) /\
     (halfN < sv -> normalizeS sv = n - sv /\ decS d = Z.max (n - sv) 0)).
Proof.
  intros Ht. split.
  - intros Hr Hs Hne.
    destruct (isHexNumeral_ofHex _ _ Hr) as (rv & Hrv & Hb).
    destruct (@ofHex_digits _ Hs Hne) as (sv & Hsv & _).
    destruct (@createDERSignature_returns sig t rv sv Hrv (proj2 Hb) Hsv)
      as (_ & _ & _ & Hout).
    eauto.
  - intros out Hout.
    destruct (createDERSignature_inv _ _ Hout) as (rv & sv & Hr & Hs & HokR & HokS & ->).
    exists sv. eexists. split; [assumption|].
    rewrite (decode_encoded _ _ HokR HokS Ht). split; [reflexivity|].
    cbn [decS decScope].
    assert (normalizeS sv < 16 ^ 64) as Hn.
    { pose proof (normalizeS_low sv). pose proof halfN_spec.
      destruct n_bound. lia. }
    destruct (component_ok Hn) as [_ ->].
    pose proof (normalizeS_low sv) as Hlow.
    destruct n_bound as [Hh _].
    split; [lia|]. split; [reflexivity|].
    pose proof (ofHex_nonneg _ Hs) as Hsv.
    unfold normalizeS in *.
    destruct (halfN <? sv) eqn:E; [apply Z.ltb_lt in E | apply Z.ltb_ge in E];
      split; intros; try lia; split; lia.
Qed.

Lemma createDERSignature_low_s_witness :
  0 <= 65 < 256 /\
  exists d,
    decode "30260202008002207fffffffffffffffffffffffffffffff5d576e7357a4501ddfe92f46681b20a041"
    = Some d /\ decS d <= halfN.
Proof.
  split; [lia|].
  destruct (@createDERSignature_low_s lowS_sample 65 ltac:(lia)) as [_ H].
  assert (createDERSignature lowS_sample 65
          = Ok "30260202008002207fffffffffffffffffffffffffffffff5d576e7357a4501ddfe92f46681b20a041")
    as Hout by (vm_compute; reflexivity).
  destruct (H _ Hout) as (sv & d & _ & Hd & Hlow & _).
  exists d. split; [exact Hd | exact (proj2 Hlow)].
Defined.

(** C10, amended. For r and s of 1 to 64 hexadecimal digits and any sighash
    type, [createDERSignature] returns: what [toDER] hands to [encodeDER] passes
    every check of it (not empty, at most 33 bytes, leading bit clear, not
    needlessly padded), so none of its [throw] is taken, and a zero component
    is the single zero byte. *)
Theorem createDERSignature_returns_on_numerals (sig : FireblocksSignature.t) (t : Z) :
  isHexNumeral 64 (FireblocksSignature.r sig) = true ->
  isHexNumeral 64 (FireblocksSignature.s sig) = true ->
  exists rv sv out,
    BigInt.ofHex (FireblocksSignature.r sig) = Ok rv /\
    BigInt.ofHex (FireblocksSignature.s sig) = Ok sv /\
    componentOk (component rv) = true /\
    componentOk (component (normalizeS sv)) = true /\
    encodeDER (component rv) (component (normalizeS sv))
    = Ok (encoded (component rv) (component (normalizeS sv))) /\
    createDERSignature sig t = Ok out /\
    (rv = 0 -> component rv = [x00]) /\
    (normalizeS sv = 0 -> component (normalizeS sv) = [x00]).
Proof.
  intros Hr Hs.
  destruct (isHexNumeral_ofHex _ _ Hr) as (rv & Hrv & Hb).
  destruct (isHexNumeral_ofHex _ _ Hs) as (sv & Hsv & _).
  destruct (@createDERSignature_returns sig t rv sv Hrv (proj2 Hb) Hsv)
    as (HokR & HokS & Henc & Hout).
  exists rv, sv. eexists. repeat (split; [eassumption|]).
  split; intros ->; apply component_zero.
Qed.

Lemma createDERSignature_returns_on_numerals_witness :
  isHexNumeral 64 "0" = true /\ isHexNumeral 64 "00" = true /\
  exists out, createDERSignature zero_sample 65 = Ok out.
Proof.
  assert (isHexNumeral 64 "0" = true) as H0 by (vm_compute; reflexivity).
  assert (isHexNumeral 64 "00" = true) as H00 by (vm_compute; reflexivity).
  split; [exact H0|]. split; [exact H00|].
  destruct (@createDERSignature_returns_on_numerals zero_sample 65 H0 H00)
    as (rv & sv & out & _ & _ & _ & _ & _ & Hout & _).
  exists out. exact Hout.
Defined.

(** C10, as stated, fails for a string of no digit: [BigInt('0x')] is a
    [SyntaxError]. *)
Lemma createDERSignature_throws_on_empty :
  isHexString "" = true /\ (String.length "" <= 64)%nat /\
  isHexNumeral 64 "1" = true /\
  createDERSignature (FireblocksSignature.mk "" "1" 0 "") 65
  = Throw (SyntaxErrorBigInt "0x").
Proof. repeat split; try (vm_compute; reflexivity). simpl. lia. Qed.

(** *** Examples *)

Example der_small :
  createDERSignature (FireblocksSignature.mk "01" "02" 0 "") 65
  = Ok "300602010102010241".
Proof. vm_compute. reflexivity. Qed.

(** A leading bit set calls for a zero byte in front. *)
Example der_high_bit :
  createDERSignature (FireblocksSignature.mk "80" "01" 0 "") 65
  = Ok "30070202008002010141".
Proof. vm_compute. reflexivity. Qed.

(** [s = n - 1] is replaced by [n - s = 1]. *)
Example der_high_s :
  createDERSignature
    (FireblocksSignature.mk "01"
       "FFFFFFFFFFFFFFFFFFFFFFFFFFFFFFFEBAAEDCE6AF48A03BBFD25E8CD0364140" 0 "") 65
  = Ok "300602010102010141".
Proof. vm_compute. reflexivity. Qed.

(** Above [n] the difference is negative and what is encoded is zero. *)
Example der_s_above_n :
  createDERSignature
    (FireblocksSignature.mk "01"
       "ffffffffffffffffffffffffffffffffffffffffffffffffffffffffffffffff" 0 "") 65
  = Ok "300602010102010041".
Proof. vm_compute. reflexivity. Qed.

(** Sixty-six digits of r make 33 bytes with the leading bit set. *)
Example der_r_too_long :
  createDERSignature
    (FireblocksSignature.mk
       "ffffffffffffffffffffffffffffffffffffffffffffffffffffffffffffffffff" "01" 0 "") 65
  = Throw RLengthIsTooLong.
Proof. vm_compute. reflexivity. Qed.

End SignatureTheorems.
(** ** UTXO selection *)

Module SelectionFacts.

Import TransactionService Vocabulary.

(** *** The sort *)

Lemma insertDesc_perm (u : UTXO) (l : list UTXO) :
  Permutation (u :: l) (insertDesc u l).
Proof.
  induction l as [|v t IH]; simpl; [apply Permutation_refl|].
  destruct (amt v <=? amt u); [apply Permutation_refl|].
  eapply perm_trans; [apply perm_swap|]. now apply perm_skip.
Qed.

Lemma sortDesc_perm (l : list UTXO) : Permutation l (sortDesc l).
Proof.
  induction l as [|u t IH]; simpl; [apply perm_nil|].
  eapply perm_trans; [apply perm_skip, IH | apply insertDesc_perm].
Qed.

Lemma insertDesc_sorted (u : UTXO) (l : list UTXO) :
  Sorted geAmt l -> Sorted geAmt (insertDesc u l).
Proof.
  induction l as [|v t IH]; intros Hs; simpl.
  - repeat constructor.
  - destruct (amt v <=? amt u) eqn:E.
    + apply Z.leb_le in E. constructor; [assumption|]. constructor. exact E.
    + apply Z.leb_gt in E. inversion Hs as [|? ? Ht Hhd]; subst.
      constructor; [auto|].
      destruct t as [|w t']; simpl.
      * constructor. unfold geAmt. lia.
      * inversion Hhd; subst.
        destruct (amt w <=? amt u); constructor; unfold geAmt in *; lia.
Qed.

Lemma sortDesc_sorted (l : list UTXO) : Sorted geAmt (sortDesc l).
Proof.
  induction l; simpl; [constructor | now apply insertDesc_sorted].
Qed.

(** Stability: elements of a given amount keep their relative order. *)
Lemma insertDesc_filter (a : Z) (u : UTXO) (l : list UTXO) :
  Sorted geAmt l ->
  filter (fun x => amt x =? a) (insertDesc u l)
  = filter (fun x => amt x =? a) (u :: l).
Proof.
  induction l as [|v t IH]; intros Hs; [reflexivity|].
  cbn [insertDesc]. destruct (amt v <=? amt u) eqn:E; [reflexivity|].
  apply Z.leb_gt in E. inversion Hs; subst.
  cbn [filter]. rewrite IH by assumption. cbn [filter].
  destruct (amt u =? a) eqn:Eu; [|reflexivity].
  destruct (amt v =? a) eqn:Ev; [|reflexivity].
  apply Z.eqb_eq in Eu, Ev. lia.
Qed.

Lemma sortDesc_stable (a : Z) (l : list UTXO) :
  filter (fun x => amt x =? a) (sortDesc l) = filter (fun x => amt x =? a) l.
Proof.
  induction l as [|u t IH]; [reflexivity|].
  cbn [sortDesc fold_right]. fold (sortDesc t).
  rewrite insertDesc_filter by apply sortDesc_sorted.
  cbn [filter]. now rewrite IH.
Qed.

(** *** The index chosen in an iteration *)

Lemma findPerfect_bound (gap : Z) (l : list UTXO) :
  forall i j, findPerfect gap l i = Some j -> (i <= j < i + List.length l)%nat.
Proof.
  induction l as [|u t IH]; intros i j; simpl; [discriminate|].
  destruct (amt u =? gap).
  - intros [= <-]. lia.
  - intros H. apply IH in H. lia.
Qed.

Lemma findSmallestCover_bound (gap : Z) (l : list UTXO) :
  forall i j, findSmallestCover gap l i = Some j -> (i <= j < i + List.length l)%nat.
Proof.
  induction l as [|u t IH]; intros i j; simpl; [discriminate|].
  destruct (findSmallestCover gap t (S i)) as [k|] eqn:E.
  - intros [= <-]. apply IH in E. lia.
  - destruct (gap <=? amt u); [|discriminate]. intros [= <-]. lia.
Qed.

Lemma selectIndex_bound (gap : Z) (l : list UTXO) :
  l <> [] -> (selectIndex gap l < List.length l)%nat.
Proof.
  intros Hne. unfold selectIndex.
  destruct (findPerfect gap l 0) as [i|] eqn:E1.
  - apply findPerfect_bound in E1. lia.
  - destruct (findSmallestCover gap l 0) as [i|] eqn:E2.
    + apply findSmallestCover_bound in E2. lia.
    + destruct l; [congruence | simpl; lia].
Qed.

(** *** The loop *)

Lemma sumAmt_app (a b : list UTXO) : sumAmt (a ++ b) = sumAmt a + sumAmt b.
Proof. induction a; simpl; lia. Qed.

Lemma sumAmt_perm (a b : list UTXO) : Permutation a b -> sumAmt a = sumAmt b.
Proof. induction 1; simpl; lia. Qed.

Lemma spliceOut_perm (i : nat) (l : list UTXO) (u : UTXO) :
  nth_error l i = Some u -> Permutation (u :: spliceOut i l) l.
Proof.
  intros H. unfold spliceOut.
  destruct (nth_error_split l i H) as (l1 & l2 & -> & <-).
  rewrite firstn_app, Nat.sub_diag, firstn_all, firstn_O, app_nil_r.
  replace (S (List.length l1)) with (List.length l1 + 1)%nat by lia.
  rewrite skipn_app, skipn_all2 by lia.
  replace (List.length l1 + 1 - List.length l1)%nat with 1%nat by lia.
  simpl. apply Permutation_middle.
Qed.

Lemma spliceOut_length (i : nat) (l : list UTXO) (u : UTXO) :
  nth_error l i = Some u -> List.length l = S (List.length (spliceOut i l)).
Proof.
  intros H. apply spliceOut_perm in H. apply Permutation_length in H.
  simpl in H. lia.
Qed.

Lemma loopBody_ok (need : Z) (st : LoopState) :
  pool st <> [] ->
  exists st', loopBody need st = Ok st' /\
              List.length (pool st) = S (List.length (pool st')) /\
              forall all, selInv all st -> selInv all st'.
Proof.
  intros Hne. unfold loopBody.
  pose proof (selectIndex_bound (need - tokensIn (acc st)) Hne) as Hb.
  destruct (nth_error (pool st) (selectIndex (need - tokensIn (acc st)) (pool st)))
    as [u|] eqn:E.
  2:{ apply nth_error_None in E. lia. }
  eexists. split; [reflexivity|]. cbn [pool acc]. split.
  - now apply spliceOut_length with (u := u).
  - intros all (Hp & Ht & Ha). unfold selInv. cbn.
    repeat split.
    + rewrite <- app_assoc. cbn [app].
      eapply perm_trans; [|exact Hp].
      apply Permutation_app_head. now apply spliceOut_perm.
    + rewrite sumAmt_app, Ht. simpl. lia.
    + rewrite map_app, Ha. reflexivity.
Qed.

(** With as much fuel as the pool is long the loop ends by its own guard. *)
Lemma selectLoop_exits (fuel : nat) :
  forall (need : Z) (st : LoopState),
    (List.length (pool st) <= fuel)%nat ->
    exists st', selectLoop fuel need st = Ok st' /\
                loopGuard need st' = false /\
                forall all, selInv all st -> selInv all st'.
Proof.
  induction fuel as [|f IH]; intros need st Hlen.
  - exists st. cbn [selectLoop]. split; [reflexivity|]. split; [|auto].
    unfold loopGuard.
    replace (List.length (pool st)) with 0%nat by lia.
    now rewrite andb_false_r.
  - cbn [selectLoop]. destruct (loopGuard need st) eqn:G.
    + assert (pool st <> []) as Hne.
      { unfold loopGuard in G. apply andb_true_iff in G. destruct G as [_ G].
        intros E. rewrite E in G. discriminate G. }
      destruct (@loopBody_ok need st Hne) as (st1 & -> & Hl & Hinv).
      destruct (IH need st1 ltac:(lia)) as (st' & Hrun & Hg & Hinv').
      exists st'. split; [exact Hrun|]. split; [exact Hg|]. auto.
    + exists st. split; [reflexivity|]. split; [exact G|]. auto.
Qed.

End SelectionFacts.

Module SelectionTheorems.

Import TransactionService Vocabulary SelectionFacts.

Lemma selectUtxos_cases (utxos : list UTXO) (amountNeeded : Z) :
  (exists sel,
     selectUtxos utxos amountNeeded = Ok sel /\
     tokensIn sel = sumAmt (selectedUtxos sel) /\
     amountNeeded <= sumAmt (selectedUtxos sel) /\
     signingAddresses sel = map owners (selectedUtxos sel) /\
     exists rest, Permutation (selectedUtxos sel ++ rest) utxos)
  \/
  (exists have,
     selectUtxos utxos amountNeeded = Throw (InsufficientMNEETokens have amountNeeded) /\
     have < amountNeeded /\ have = sumAmt utxos).
Proof.
  unfold selectUtxos.
  set (st0 := mkLoop (sortDesc utxos) (mkSelection [] [] 0)).
  destruct (@selectLoop_exits (List.length (sortDesc utxos)) amountNeeded st0
              (le_n _)) as (st & -> & Hg & Hinv).
  assert (selInv utxos st0) as H0.
  { unfold selInv, st0. cbn. repeat split; auto.
    apply Permutation_sym, sortDesc_perm. }
  destruct (Hinv utxos H0) as (Hp & Ht & Ha).
  destruct (tokensIn (acc st) <? amountNeeded) eqn:E.
  - right. apply Z.ltb_lt in E. eexists. split; [reflexivity|]. split; [exact E|].
    unfold loopGuard in Hg. apply Z.ltb_lt in E. rewrite E in Hg. cbn in Hg.
    apply negb_false_iff, Nat.eqb_eq in Hg.
    destruct (pool st) as [|? ?] eqn:Hpool; [|discriminate Hg].
    rewrite app_nil_r in Hp. rewrite Ht. now apply sumAmt_perm.
  - left. apply Z.ltb_ge in E. exists (acc st).
    repeat split; auto; [lia|]. exists (pool st). exact Hp.
Qed.


End SelectionTheorems.
Module SelectionScenario.

Import TransactionService Vocabulary SelectionFacts SelectionTheorems Samples.


(** C7. With available amounts 700, 200 and 150 and 850 needed,
    [selectUtxos] picks the UTXO of 700 (no single UTXO covers 850, so the
    largest is taken) and then the UTXO of 150 (the exact match of the gap),
    in that order; [tokensIn] is 850 and the transaction built from it has no
    change output. *)
Theorem selectUtxos_700_200_150 (u1 u2 u3 : UTXO) :
  amt u1 = 700 -> amt u2 = 200 -> amt u3 = 150 ->
  selectUtxos [u1; u2; u3] 850
  = Ok (mkSelection [u1; u3] [owners u1; owners u3] 850) /\
  forall config recipient sender a,
    MNEEFireblocksSDK.amountNeeded a = 850 ->
    MNEEFireblocksSDK.buildOutputs config recipient sender a 850
    = [MNEEFireblocksSDK.tokenOutput config recipient (MNEEFireblocksSDK.tokenSatAmt a);
       MNEEFireblocksSDK.tokenOutput config (MNEEConfig.feeAddress config)
         (MNEEFireblocksSDK.fee a)].
Proof.
  intros H1 H2 H3. split.
  - destruct u1, u2, u3. cbn [amt] in H1, H2, H3. subst. reflexivity.
  - intros config recipient sender a Ha.
    unfold MNEEFireblocksSDK.buildOutputs. rewrite Ha. reflexivity.
Qed.

Lemma selectUtxos_700_200_150_witness :
  amt (utxo 700 "a") = 700 /\ amt (utxo 200 "b") = 200 /\ amt (utxo 150 "c") = 150 /\
  selectUtxos [utxo 700 "a"; utxo 200 "b"; utxo 150 "c"] 850
  = Ok (mkSelection [utxo 700 "a"; utxo 150 "c"] ["a"; "c"] 850).
Proof.
  repeat (split; [reflexivity|]).
  exact (proj1 (@selectUtxos_700_200_150 (utxo 700 "a") (utxo 200 "b") (utxo 150 "c")
                  eq_refl eq_refl eq_refl)).
Defined.

(** *** Examples *)

(** The smallest UTXO that covers the gap is preferred to a larger one. *)
Example select_smallest_cover :
  selectUtxos utxos 180
  = Ok (mkSelection [utxo 200 "b"] ["b"] 200).
Proof. vm_compute. reflexivity. Qed.

(** Equal amounts keep the order in which they were listed. *)
Example select_stable :
  selectUtxos [utxo 100 "first"; utxo 300 "x"; utxo 100 "second"] 100
  = Ok (mkSelection [utxo 100 "first"] ["first"] 100).
Proof. vm_compute. reflexivity. Qed.

Example select_insufficient :
  selectUtxos utxos 2000 = Throw (InsufficientMNEETokens 1050 2000).
Proof. vm_compute. reflexivity. Qed.

End SelectionScenario.
(** ** Effects *)

Module EffectFacts.

Lemma mbind_ok_inv {A B : Type} (m : M A) (k : A -> M B) (st st' : State) (b : B) :
  mbind m k st = (Ok b, st') ->
  exists a st1, m st = (Ok a, st1) /\ k a st1 = (Ok b, st').
Proof.
  unfold mbind. destruct (m st) as [[a|e] st1]; [eauto | discriminate].
Qed.

Lemma lift_ok_inv {A : Type} (r : result A) (st st' : State) (a : A) :
  lift r st = (Ok a, st') -> r = Ok a /\ st' = st.
Proof. unfold lift. intros [= -> ->]. auto. Qed.

Lemma ret_inv {A : Type} (a b : A) (st st' : State) :
  ret a st = (Ok b, st') -> a = b /\ st' = st.
Proof. unfold ret. intros [= -> ->]. auto. Qed.

End EffectFacts.

(** ** Gross and net accounting, outputs *)

Module AccountingFacts.

Import MNEEFireblocksSDK Vocabulary EffectFacts.




End AccountingFacts.

Module AccountingTheorems.

Import MNEEFireblocksSDK Vocabulary EffectFacts AccountingFacts Samples.





End AccountingTheorems.
(** ** Signing: what is submitted and how the answer is matched *)

Module SigningFacts.

Import Buffer Vocabulary EffectFacts BufferFacts.
Import FireblocksService TransactionService.

Lemma mapResult_ok {A B : Type} (f : A -> result B) (g : A -> B) (l : list A) :
  Forall (fun a => f a = Ok (g a)) l -> mapResult f l = Ok (map g l).
Proof.
  induction 1 as [|a t Ha _ IH]; [reflexivity|].
  cbn [mapResult map]. rewrite Ha, IH. reflexivity.
Qed.

Lemma mapResult_Forall2 {A B : Type} (f : A -> result B) (l : list A) (bs : list B) :
  Forall2 (fun a b => f a = Ok b) l bs -> mapResult f l = Ok bs.
Proof.
  induction 1 as [|a b t bs' Ha _ IH]; [reflexivity|].
  cbn [mapResult]. rewrite Ha, IH. reflexivity.
Qed.


Lemma message_content (h : HashWithIndex.t) :
  RawMessage.content (message h) = contentOf h.
Proof. reflexivity. Qed.

(** One SHA-256 over the preimage gives the signature hash. *)
Lemma createSignatureHash_base (W : World) (tx : Transaction.t)
  (req : SignatureRequest.t) (pre : list byte) :
  basePreimage W tx req = Some pre ->
  createSignatureHash W tx (SignatureRequest.inputIndex req)
    (SignatureRequest.script req) (SignatureRequest.satoshis req)
    (SignatureRequest.sigHashType req)
  = Ok (toHex (SHA256.sha256 pre)).
Proof.
  unfold basePreimage, createSignatureHash.
  destruct (nthZ (Transaction.inputs tx) (SignatureRequest.inputIndex req));
    [|discriminate].
  intros [= <-]. reflexivity.
Qed.

Lemma hashWithIndex_base (W : World) (tx : Transaction.t)
  (req : SignatureRequest.t) (pre : list byte) :
  basePreimage W tx req = Some pre ->
  hashWithIndex W tx req = Ok (hashOf req pre).
Proof.
  intros H. unfold hashWithIndex.
  rewrite (createSignatureHash_base _ _ _ H). cbn [bind].
  rewrite fromHex_toHex. reflexivity.
Qed.

Lemma hashes_of_preimages (W : World) (tx : Transaction.t)
  (reqs : list SignatureRequest.t) :
  forall preimages,
    map (basePreimage W tx) reqs = map Some preimages ->
    exists hashes,
      mapResult (hashWithIndex W tx) reqs = Ok hashes /\
      Forall2 (fun req pre =>
                 createSignatureHash W tx (SignatureRequest.inputIndex req)
                   (SignatureRequest.script req) (SignatureRequest.satoshis req)
                   (SignatureRequest.sigHashType req)
                 = Ok (toHex (SHA256.sha256 pre))) reqs preimages /\
      map HashWithIndex.hash hashes = map SHA256.sha256 preimages /\
      map (fun h => RawMessage.content (message h)) hashes
      = map (fun pre => toHex (SHA256.sha256 (SHA256.sha256 pre))) preimages.
Proof.
  induction reqs as [|req t IH]; intros [|pre ps] Hmap; try discriminate Hmap.
  - exists []. repeat split; constructor.
  - cbn [map] in Hmap. injection Hmap as Hpre Hrest.
    destruct (IH ps Hrest) as (hs & Hm & Hf & Hh & Hc).
    exists (hashOf req pre :: hs). cbn [mapResult map].
    rewrite (hashWithIndex_base _ _ _ Hpre), Hm. cbn [bind].
    split; [reflexivity|]. split.
    + constructor; [now apply createSignatureHash_base | assumption].
    + cbn [hashOf HashWithIndex.hash]. rewrite Hh, Hc. split; reflexivity.
Qed.

(** The first request of [signMultipleHashes] is the signing job, whatever
    the signer answers. *)
Lemma signMultipleHashes_submits (W : World) (hashes : list HashWithIndex.t)
  (amount : Z) (destination vault : string) (st : State) :
  isEmpty vault = false ->
  exists rest,
    trace (snd (signMultipleHashes W hashes amount destination vault st))
    = (trace st
       ++ CreateTransaction
            (SigningRequest.mk vault amount destination (map message hashes))
          :: rest)%list.
Proof.
  intros Hv. unfold signMultipleHashes. rewrite Hv.
  unfold mbind, request. cbn [trace tokenConfig cosignerConfig].
  set (req := SigningRequest.mk vault amount destination (map message hashes)).
  destruct (createTransaction W req) as [id|e].
  2:{ exists []. reflexivity. }
  destruct (pollTransaction W id) as [resp|e].
  2:{ exists [PollTransaction id]. cbn [snd trace]. now rewrite <- app_assoc. }
  exists [PollTransaction id].
  destruct resp as [[[[|m ms]|]]|]; cbn [snd trace lift throw];
    now rewrite <- app_assoc.
Qed.

(** *** Matching *)

Lemma matchSignature_found (resp : list SignedMessage.t) (h : HashWithIndex.t)
  (i : Z) (sg : FireblocksSignature.t) :
  matchSignature resp h = Ok (i, sg) ->
  i = HashWithIndex.inputIndex h /\
  exists m, In m resp /\ SignedMessage.content m = contentOf h /\
            find (fun x => String.eqb (SignedMessage.content x) (contentOf h)) resp = Some m /\
            sg = FireblocksSignature.mk
                   (FireblocksSignature.r (SignedMessage.signature m))
                   (FireblocksSignature.s (SignedMessage.signature m))
                   (FireblocksSignature.v (SignedMessage.signature m))
                   (SignedMessage.publicKey m).
Proof.
  unfold matchSignature. fold (contentOf h).
  destruct (find _ resp) as [m|] eqn:E; [|discriminate].
  intros [= <- <-]. split; [reflexivity|]. exists m.
  apply find_some in E. destruct E as [Hin Heq].
  apply String.eqb_eq in Heq. auto.
Qed.





(** What [signMultipleHashes] returns once the signer has answered with a
    list of signed messages that is not empty. *)
Lemma signMultipleHashes_answered (W : World) (hashes : list HashWithIndex.t)
  (amount : Z) (destination vault id : string) (st : State)
  (resp : list SignedMessage.t) :
  isEmpty vault = false ->
  createTransaction W (SigningRequest.mk vault amount destination (map message hashes))
  = Ok id ->
  pollTransaction W id = Ok (Some (TransactionResponse.mk (Some resp))) ->
  resp <> [] ->
  fst (signMultipleHashes W hashes amount destination vault st)
  = mapResult (matchSignature resp) hashes.
Proof.
  intros Hv Hc Hp Hne. unfold signMultipleHashes. rewrite Hv.
  unfold mbind, request. rewrite Hc, Hp.
  destruct resp as [|m ms]; [congruence|]. reflexivity.
Qed.

End SigningFacts.
Module SigningTheorems.

Import Buffer Vocabulary EffectFacts BufferFacts SigningFacts Samples.
Import FireblocksService TransactionService.

Lemma getSignatures_trace (W : World) (tx : Transaction.t)
  (reqs : list SignatureRequest.t) (destination vault : string)
  (amount : option Z) (st : State) (hashes : list HashWithIndex.t) :
  mapResult (hashWithIndex W tx) reqs = Ok hashes ->
  trace (snd (getSignatures W tx reqs destination vault amount st))
  = trace (snd (signMultipleHashes W hashes (orDefault amount 0) destination vault st)).
Proof.
  intros H. unfold getSignatures, mbind at 1, lift at 1. rewrite H.
  unfold mbind.
  destruct (signMultipleHashes W hashes (orDefault amount 0) destination vault st)
    as [[signed|e] st']; reflexivity.
Qed.

(** C3. For every input whose preimage is [pre], [createSignatureHash]
    returns one SHA-256 over [pre] (the base hash), and the content submitted
    to the signer for that input by [getSignatures] through
    [signMultipleHashes] is the SHA-256 of the base hash, printed in
    hexadecimal: SHA-256(SHA-256(pre)).  The same string is the one a signed
    message must carry to be matched to the input. *)
Theorem submitted_content_is_second_hash (W : World) (tx : Transaction.t)
  (reqs : list SignatureRequest.t) (destination vault : string)
  (amount : option Z) (st : State) (preimages : list (list byte)) :
  isEmpty vault = false ->
  map (basePreimage W tx) reqs = map Some preimages ->
  Forall2 (fun req pre =>
             createSignatureHash W tx (SignatureRequest.inputIndex req)
               (SignatureRequest.script req) (SignatureRequest.satoshis req)
               (SignatureRequest.sigHashType req)
             = Ok (toHex (SHA256.sha256 pre))) reqs preimages /\
  (exists messages rest,
     trace (snd (getSignatures W tx reqs destination vault amount st))
     = (trace st
        ++ CreateTransaction
             (SigningRequest.mk vault (orDefault amount 0) destination messages)
           :: rest)%list /\
     map RawMessage.content messages
     = map (fun pre => toHex (SHA256.sha256 (SHA256.sha256 pre))) preimages) /\
  (exists hashes,
     mapResult (hashWithIndex W tx) reqs = Ok hashes /\
     map HashWithIndex.hash hashes = map SHA256.sha256 preimages /\
     forall resp h i sg,
       In h hashes -> matchSignature resp h = Ok (i, sg) ->
       exists m, In m resp /\
                 SignedMessage.content m = RawMessage.content (message h) /\
                 SignedMessage.content m
                 = toHex (SHA256.sha256 (HashWithIndex.hash h))).
Proof.
  intros Hv Hpre.
  destruct (@hashes_of_preimages W tx reqs preimages Hpre)
    as (hashes & Hm & Hf & Hh & Hc).
  split; [exact Hf|]. split.
  - destruct (@signMultipleHashes_submits W hashes (orDefault amount 0) destination vault st Hv)
      as (rest & Ht).
    exists (map message hashes), rest.
    rewrite (@getSignatures_trace W tx reqs destination vault amount st hashes Hm), Ht.
    split; [reflexivity|]. rewrite map_map. exact Hc.
  - exists hashes. split; [exact Hm|]. split; [exact Hh|].
    intros resp h i sg _ Hmatch.
    destruct (@matchSignature_found resp h i sg Hmatch) as (_ & m & Hin & Hcont & _).
    exists m. auto.
Qed.

Lemma submitted_content_is_second_hash_witness :
  isEmpty "vault" = false /\
  map (basePreimage world draft) [draftRequest] = map Some [[]] /\
  exists messages rest,
    trace (snd (getSignatures world draft [draftRequest] "dest" "vault" (Some 50) fresh))
    = (CreateTransaction (SigningRequest.mk "vault" 50 "dest" messages) :: rest)%list /\
    map RawMessage.content messages
    = ["5df6e0e2761359d30a8275058e299fcc0381534545f55cf43e41983f5d4c9456"].
Proof.
  assert (map (basePreimage world draft) [draftRequest] = map Some [[]]) as Hpre
    by (vm_compute; reflexivity).
  split; [reflexivity|]. split; [exact Hpre|].
  destruct (@submitted_content_is_second_hash world draft [draftRequest]
              "dest" "vault" (Some 50) fresh [[]] eq_refl Hpre)
    as (_ & (messages & rest & Ht & Hc) & _).
  exists messages, rest. split; [exact Ht|].
  rewrite Hc. vm_compute. reflexivity.
Defined.





End SigningTheorems.
(** ** Transfers: failures before the transaction is built *)

Module TransferFacts.

Import Vocabulary EffectFacts MNEEFireblocksSDK.

Lemma resolvedConfig_trace (W : World) (c1 c2 : option MNEEConfig.t) (t1 t2 : list Call) :
  resolvedConfig W (mkState c1 c2 t1) = resolvedConfig W (mkState c1 c2 t2).
Proof. reflexivity. Qed.

(** [ensureTokenConfig] asks the cosigner only when neither cache holds the
    configuration. *)
Lemma ensureTokenConfig_spec (W : World) (st : State) :
  fst (ensureTokenConfig W st) = resolvedConfig W st /\
  (tokenConfig st <> None \/ cosignerConfig st <> None ->
   trace (snd (ensureTokenConfig W st)) = trace st) /\
  (tokenConfig st = None -> cosignerConfig st = None ->
   trace (snd (ensureTokenConfig W st)) = (trace st ++ [GetConfig])%list) /\
  (forall config, resolvedConfig W st = Ok config ->
   tokenConfig (snd (ensureTokenConfig W st)) = Some config).
Proof.
  destruct st as [tc cc tr].
  unfold ensureTokenConfig, resolvedConfig, CosignerService.fetchConfig, mbind,
    getState, request, setTokenConfig, setCosignerConfig, ret.
  cbn [tokenConfig cosignerConfig trace].
  destruct tc as [c|]; [|destruct cc as [c|]; [|destruct (getConfig W) as [c|e]]];
    cbn [fst snd trace tokenConfig cosignerConfig];
    repeat split; auto; try congruence;
    try (intros [H|H]; congruence);
    try (intros config [= <-]; reflexivity).
Qed.

Lemma ensureTokenConfig_cases (W : World) (st : State) :
  exists st',
    ensureTokenConfig W st = (resolvedConfig W st, st') /\
    (trace st' = trace st \/ trace st' = (trace st ++ [GetConfig])%list).
Proof.
  pose proof (ensureTokenConfig_spec W st) as (Hfst & Hcached & Hfresh & _).
  exists (snd (ensureTokenConfig W st)). split.
  - rewrite <- Hfst. now destruct (ensureTokenConfig W st).
  - destruct (tokenConfig st) eqn:E1.
    + left. apply Hcached. left. discriminate.
    + destruct (cosignerConfig st) eqn:E2.
      * left. apply Hcached. right. discriminate.
      * right. now apply Hfresh.
Qed.

End TransferFacts.

Module TransferTheorems.

Import Vocabulary EffectFacts MNEEFireblocksSDK TransferFacts Samples.






End TransferTheorems.

(** * Further properties *)

(** ** More on the selection of UTXOs *)

Module SelectionMore.

Import TransactionService Vocabulary SelectionFacts SelectionTheorems.




Lemma selectLoop_idle (fuel : nat) (need : Z) (st : LoopState) :
  loopGuard need st = false -> selectLoop fuel need st = Ok st.
Proof. intros H. destruct fuel; cbn [selectLoop]; [|rewrite H]; reflexivity. Qed.

(** X2. When nothing is needed (an amount that is zero or negative) no UTXO is
    selected, whatever is available. *)
Theorem selectUtxos_nothing_needed (utxos : list UTXO) (amountNeeded : Z) :
  amountNeeded <= 0 ->
  selectUtxos utxos amountNeeded = Ok (mkSelection [] [] 0).
Proof.
  intros H. unfold selectUtxos. rewrite selectLoop_idle.
  - cbn [acc tokensIn].
    replace (0 <? amountNeeded) with false by (symmetry; apply Z.ltb_ge; lia).
    reflexivity.
  - unfold loopGuard. cbn [acc tokensIn].
    replace (0 <? amountNeeded) with false by (symmetry; apply Z.ltb_ge; lia).
    reflexivity.
Qed.

Lemma selectUtxos_nothing_needed_witness :
  0 <= 0 /\ selectUtxos Samples.utxos 0 = Ok (mkSelection [] [] 0).
Proof.
  split; [lia|]. apply selectUtxos_nothing_needed. lia.
Defined.

(** *** The pick of one iteration *)

Lemma findPerfect_some (gap : Z) (l : list UTXO) :
  forall i j, findPerfect gap l i = Some j ->
    exists u, nth_error l (j - i) = Some u /\ amt u = gap.
Proof.
  induction l as [|u t IH]; intros i j; cbn [findPerfect]; [discriminate|].
  destruct (amt u =? gap) eqn:E.
  - intros [= <-]. rewrite Nat.sub_diag. exists u. split; [reflexivity|].
    now apply Z.eqb_eq.
  - intros H. pose proof (findPerfect_bound _ _ _ H) as Hb.
    destruct (IH _ _ H) as (v & Hv & Ha). exists v. split; [|exact Ha].
    replace (j - i)%nat with (S (j - S i)) by lia. exact Hv.
Qed.

Lemma findPerfect_none (gap : Z) (l : list UTXO) :
  forall i, findPerfect gap l i = None -> forall u, In u l -> amt u <> gap.
Proof.
  induction l as [|u t IH]; intros i H v Hin; [destruct Hin|].
  cbn [findPerfect] in H. destruct (amt u =? gap) eqn:E; [discriminate|].
  destruct Hin as [<-|Hin]; [now apply Z.eqb_neq | eauto].
Qed.

Lemma findSmallestCover_some (gap : Z) (l : list UTXO) :
  forall i j, findSmallestCover gap l i = Some j ->
    exists u, nth_error l (j - i) = Some u /\ gap <= amt u /\
              forall v, In v (skipn (S (j - i)) l) -> amt v < gap.
Proof.
  induction l as [|u t IH]; intros i j; cbn [findSmallestCover]; [discriminate|].
  destruct (findSmallestCover gap t (S i)) as [k|] eqn:E.
  - intros [= <-]. pose proof (findSmallestCover_bound _ _ _ E) as Hb.
    destruct (IH _ _ E) as (v & Hv & Hc & Hafter). exists v.
    replace (k - i)%nat with (S (k - S i)) by lia. auto.
  - destruct (gap <=? amt u) eqn:G; [|discriminate].
    intros [= <-]. rewrite Nat.sub_diag. exists u.
    split; [reflexivity|]. split; [now apply Z.leb_le|].
    cbn [skipn]. clear IH G. revert i E.
    induction t as [|w t' IHt]; intros i E v Hin; [destruct Hin|].
    cbn [findSmallestCover] in E.
    destruct (findSmallestCover gap t' (S (S i))) eqn:E'; [discriminate|].
    destruct (gap <=? amt w) eqn:G; [discriminate|].
    destruct Hin as [<-|Hin]; [now apply Z.leb_gt | eauto].
Qed.

Lemma findSmallestCover_none (gap : Z) (l : list UTXO) :
  forall i, findSmallestCover gap l i = None -> forall u, In u l -> amt u < gap.
Proof.
  induction l as [|u t IH]; intros i H v Hin; [destruct Hin|].
  cbn [findSmallestCover] in H.
  destruct (findSmallestCover gap t (S i)) eqn:E; [discriminate|].
  destruct (gap <=? amt u) eqn:G; [discriminate|].
  destruct Hin as [<-|Hin]; [now apply Z.leb_gt | eauto].
Qed.

Lemma sorted_before (l : list UTXO) (k : nat) (u v : UTXO) :
  Sorted geAmt l -> nth_error l k = Some u -> In v (firstn k l) -> amt u <= amt v.
Proof.
  intros Hs. apply Sorted_StronglySorted in Hs.
  2:{ intros a b c. unfold geAmt. lia. }
  revert k. induction Hs as [|a t Ht IH Hall]; intros k Hk Hin.
  - destruct k; discriminate Hk.
  - destruct k as [|k]; [destruct Hin|]. cbn in Hk, Hin.
    destruct Hin as [<-|Hin]; [|eauto].
    apply nth_error_In in Hk. rewrite Forall_forall in Hall.
    exact (Hall _ Hk).
Qed.

Lemma firstn_succ_nth {A : Type} (l : list A) (k : nat) (a : A) :
  nth_error l k = Some a -> firstn (S k) l = (firstn k l ++ [a])%list.
Proof.
  revert k. induction l as [|x t IH]; intros [|k] H; try discriminate H.
  - injection H as ->. reflexivity.
  - cbn [firstn app]. f_equal. apply IH. exact H.
Qed.

(** When some element covers the gap, the element picked covers it and no
    covering element is smaller. *)
Lemma selectIndex_cover (gap : Z) (l : list UTXO) :
  Sorted geAmt l -> (exists w, In w l /\ gap <= amt w) ->
  exists u, nth_error l (selectIndex gap l) = Some u /\ gap <= amt u /\
            forall v, In v l -> gap <= amt v -> amt u <= amt v.
Proof.
  intros Hs (w & Hw & Hcov). unfold selectIndex.
  destruct (findPerfect gap l 0) as [i|] eqn:E1.
  - destruct (findPerfect_some _ _ _ E1) as (u & Hu & Ha).
    rewrite Nat.sub_0_r in Hu. exists u. split; [exact Hu|]. split; lia.
  - destruct (findSmallestCover gap l 0) as [j|] eqn:E2.
    + destruct (findSmallestCover_some _ _ _ E2) as (u & Hu & Hc & Hafter).
      rewrite Nat.sub_0_r in Hu, Hafter. exists u.
      split; [exact Hu|]. split; [exact Hc|].
      intros v Hv Hvc.
      rewrite <- (firstn_skipn (S j) l) in Hv. apply in_app_or in Hv.
      destruct Hv as [Hv|Hv]; [|apply Hafter in Hv; lia].
      rewrite (firstn_succ_nth _ _ Hu) in Hv.
      apply in_app_or in Hv. destruct Hv as [Hv|[<-|[]]]; [|lia].
      now apply sorted_before with (l := l) (k := j).
    + pose proof (findSmallestCover_none _ _ _ E2 _ Hw). lia.
Qed.

(** X3. When one UTXO alone covers a positive amount needed, exactly one UTXO
    is selected: a covering UTXO of least amount, hence an exact match
    whenever there is one. *)
Theorem selectUtxos_single_cover (utxos : list UTXO) (amountNeeded : Z) :
  0 < amountNeeded ->
  (exists w, In w utxos /\ amountNeeded <= amt w) ->
  exists u,
    In u utxos /\
    selectUtxos utxos amountNeeded = Ok (mkSelection [u] [owners u] (amt u)) /\
    amountNeeded <= amt u /\
    forall v, In v utxos -> amountNeeded <= amt v -> amt u <= amt v.
Proof.
  intros Hpos (w & Hw & Hcov).
  pose proof (sortDesc_perm utxos) as Hperm.
  destruct (@selectIndex_cover amountNeeded (sortDesc utxos) (sortDesc_sorted utxos))
    as (u & Hu & Hc & Hmin).
  { exists w. split; [|exact Hcov]. eapply Permutation_in; eauto. }
  exists u. split.
  { eapply Permutation_in; [apply Permutation_sym, Hperm|].
    eapply nth_error_In; eauto. }
  split; [|split; [exact Hc|]].
  - unfold selectUtxos.
    destruct (sortDesc utxos) as [|x t] eqn:Es.
    { destruct (selectIndex amountNeeded []); discriminate Hu. }
    cbn [List.length selectLoop].
    unfold loopGuard at 1. cbn [acc tokensIn pool List.length].
    replace (0 <? amountNeeded) with true by (symmetry; apply Z.ltb_lt; lia).
    cbn [Nat.eqb negb andb].
    unfold loopBody. cbn [acc tokensIn pool selectedUtxos signingAddresses].
    rewrite Z.sub_0_r, Hu. cbn [app Z.add].
    rewrite selectLoop_idle.
    + cbn [acc tokensIn].
      replace (amt u <? amountNeeded) with false by (symmetry; apply Z.ltb_ge; lia).
      reflexivity.
    + unfold loopGuard. cbn [acc tokensIn].
      replace (amt u <? amountNeeded) with false by (symmetry; apply Z.ltb_ge; lia).
      reflexivity.
  - intros v Hv. apply Hmin. eapply Permutation_in; eauto.
Qed.

Lemma selectUtxos_single_cover_witness :
  0 < 180 /\
  exists u, selectUtxos Samples.utxos 180 = Ok (mkSelection [u] [owners u] (amt u)) /\
            amt u = 200.
Proof.
  split; [lia|].
  destruct (@selectUtxos_single_cover Samples.utxos 180 ltac:(lia))
    as (u & _ & Hsel & _).
  { exists (Samples.utxo 200 "b"). split; [right; left; reflexivity|].
    vm_compute. discriminate. }
  exists u. split; [exact Hsel|].
  assert (selectUtxos Samples.utxos 180
          = Ok (mkSelection [Samples.utxo 200 "b"] ["b"] 200)) as E
    by (vm_compute; reflexivity).
  rewrite E in Hsel. injection Hsel as <- _ _. reflexivity.
Defined.

(** *** Invariants of the loop *)





End SelectionMore.

(** ** More on the DER form *)

Module DERMore.

Import Buffer JSString DER StringFacts BufferFacts HexFacts DERFacts CryptoUtils.

Lemma fold_value_acc (t : list byte) (a : Z) :
  fold_left (fun a b => 256 * a + byteZ b) t a
  = a * 256 ^ Z.of_nat (List.length t) + beValue t.
Proof.
  unfold beValue. revert a. induction t as [|x t IH]; intros a.
  - cbn. lia.
  - cbn [fold_left List.length]. rewrite IH, (IH (256 * 0 + byteZ x)).
    rewrite Nat2Z.inj_succ, Z.pow_succ_r by lia. ring.
Qed.

Lemma beValue_cons (x : byte) (t : list byte) :
  beValue (x :: t) = byteZ x * 256 ^ Z.of_nat (List.length t) + beValue t.
Proof.
  unfold beValue at 1. cbn [fold_left]. rewrite fold_value_acc. ring.
Qed.

Lemma beValue_bound (t : list byte) : 0 <= beValue t < 256 ^ Z.of_nat (List.length t).
Proof.
  induction t as [|x t IH].
  - cbn. lia.
  - rewrite beValue_cons. cbn [List.length].
    rewrite Nat2Z.inj_succ, Z.pow_succ_r by lia.
    pose proof (byteZ_range x). nia.
Qed.

Lemma beValue_inj_length (a b : list byte) :
  List.length a = List.length b -> beValue a = beValue b -> a = b.
Proof.
  revert b. induction a as [|x a IH]; intros [|y b] Hlen Hval; try discriminate Hlen.
  - reflexivity.
  - injection Hlen as Hlen. rewrite !beValue_cons, Hlen in Hval.
    pose proof (beValue_bound a) as Ha. pose proof (beValue_bound b) as Hb.
    rewrite Hlen in Ha.
    pose proof (byteZ_range x). pose proof (byteZ_range y).
    assert (byteZ x = byteZ y) as Hxy by nia.
    rewrite Hxy in Hval. apply byteZ_inj in Hxy. subst y.
    f_equal. apply IH; [exact Hlen | lia].
Qed.

(** A buffer without a leading zero byte. *)
Lemma dropZeros_fixed (b : list byte) :
  dropZeros (dropZeros b) = dropZeros b.
Proof.
  induction b as [|x t IH]; [reflexivity|].
  cbn [dropZeros]. destruct (byteZ x =? 0) eqn:E; [exact IH|].
  cbn [dropZeros]. now rewrite E.
Qed.

Lemma dropZeros_low (b : list byte) :
  dropZeros b <> [] ->
  256 ^ (Z.of_nat (List.length (dropZeros b)) - 1) <= beValue (dropZeros b).
Proof.
  destruct (dropZeros b) as [|x t] eqn:E; [congruence|]. intros _.
  pose proof (dropZeros_head _ E). pose proof (byteZ_range x).
  rewrite beValue_cons. cbn [List.length].
  replace (Z.of_nat (S (List.length t)) - 1) with (Z.of_nat (List.length t)) by lia.
  pose proof (beValue_bound t).
  pose proof (Z.pow_pos_nonneg 256 (Z.of_nat (List.length t)) ltac:(lia) ltac:(lia)).
  nia.
Qed.

(** Two buffers of the same value differ by leading zeros only. *)
Lemma dropZeros_value_inj (a b : list byte) :
  beValue a = beValue b -> dropZeros a = dropZeros b.
Proof.
  intros H. rewrite <- (dropZeros_value a), <- (dropZeros_value b) in H.
  apply beValue_inj_length; [|exact H].
  pose proof (beValue_bound (dropZeros a)) as Ba.
  pose proof (beValue_bound (dropZeros b)) as Bb.
  destruct (dropZeros a) as [|x s] eqn:Ea; destruct (dropZeros b) as [|y t] eqn:Eb.
  - reflexivity.
  - exfalso. pose proof (@dropZeros_low b) as L. rewrite Eb in L.
    specialize (L ltac:(discriminate)).
    pose proof (Z.pow_pos_nonneg 256 (Z.of_nat (List.length (y :: t)) - 1)
                  ltac:(lia) ltac:(cbn [List.length]; lia)).
    change (beValue []) with 0 in H. lia.
  - exfalso. pose proof (@dropZeros_low a) as L. rewrite Ea in L.
    specialize (L ltac:(discriminate)).
    pose proof (Z.pow_pos_nonneg 256 (Z.of_nat (List.length (x :: s)) - 1)
                  ltac:(lia) ltac:(cbn [List.length]; lia)).
    change (beValue []) with 0 in H. lia.
  - pose proof (@dropZeros_low a) as La. rewrite Ea in La.
    specialize (La ltac:(discriminate)).
    pose proof (@dropZeros_low b) as Lb. rewrite Eb in Lb.
    specialize (Lb ltac:(discriminate)).
    destruct (Nat.lt_trichotomy (List.length (x :: s)) (List.length (y :: t)))
      as [Hlt|[Heq|Hgt]]; [exfalso|exact Heq|exfalso].
    + assert (256 ^ Z.of_nat (List.length (x :: s))
              <= 256 ^ (Z.of_nat (List.length (y :: t)) - 1))
        by (apply Z.pow_le_mono_r; lia).
      lia.
    + assert (256 ^ Z.of_nat (List.length (y :: t))
              <= 256 ^ (Z.of_nat (List.length (x :: s)) - 1))
        by (apply Z.pow_le_mono_r; lia).
      lia.
Qed.

Lemma toDER_idempotent (b : list byte) : toDER (toDER b) = toDER b.
Proof.
  assert (forall c, dropZeros c = [] -> toDER c = alloc 1) as Hnil
    by (intros c Hc; unfold toDER; now rewrite Hc).
  assert (forall c x t, dropZeros c = x :: t ->
            toDER c = if negb (Z.land (byteZ x) 128 =? 0)
                      then (alloc 1 ++ x :: t)%list else x :: t) as Hcons
    by (intros c x t Hc; unfold toDER; now rewrite Hc).
  destruct (dropZeros b) as [|x t] eqn:E.
  - rewrite (Hnil b E). now apply Hnil.
  - rewrite (Hcons b x t E).
    pose proof (dropZeros_head _ E) as Hx. apply Z.eqb_neq in Hx.
    destruct (Z.land (byteZ x) 128 =? 0) eqn:Hbit; cbn [negb].
    + rewrite (Hcons (x :: t) x t); [now rewrite Hbit|].
      cbn [dropZeros]. now rewrite Hx.
    + rewrite (Hcons (alloc 1 ++ x :: t)%list x t); [now rewrite Hbit|].
      cbn [alloc repeat app dropZeros].
      change (byteZ x00 =? 0) with true. cbv iota. now rewrite Hx.
Qed.

(** X5. [toDER] gives the canonical form of a number: it keeps the unsigned
    value of the buffer, it is idempotent, and two buffers are given the same
    form exactly when they hold the same value; the form is never empty and at
    most one byte longer than the buffer. *)
Theorem toDER_canonical_form (a b : list byte) :
  beValue (toDER a) = beValue a /\
  toDER (toDER a) = toDER a /\
  (toDER a = toDER b <-> beValue a = beValue b) /\
  (1 <= List.length (toDER a) <= S (List.length a))%nat.
Proof.
  split; [apply toDER_value|]. split; [apply toDER_idempotent|].
  split; [|apply toDER_length].
  split.
  - intros H. rewrite <- (toDER_value a), <- (toDER_value b). now rewrite H.
  - intros H. unfold toDER. now rewrite (dropZeros_value_inj _ _ H).
Qed.

Lemma toDER_fixed_iff (x : list byte) :
  toDER x = x <->
  x <> [] /\ bitAnd (at_ x 0) 128 = 0 /\
  ~ ((1 < List.length x)%nat /\ isZero (at_ x 0) = true /\ bitAnd (at_ x 1) 128 = 0).
Proof.
  assert (forall v, v = 0 -> Z.land v 128 = 0) as Hz by (intros v ->; reflexivity).
  assert (forall a, byteZ a = 0 -> a = x00) as Hx00
    by (intros a Ha; apply byteZ_inj; rewrite Ha; reflexivity).
  unfold toDER. destruct x as [|a t].
  - cbn. split; [discriminate | intros [H _]; congruence].
  - cbn [at_ nth_error bitAnd isZero dropZeros List.length].
    destruct (byteZ a =? 0) eqn:Ez;
      [apply Z.eqb_eq in Ez | apply Z.eqb_neq in Ez].
    + pose proof (Hz _ Ez) as Hl. pose proof (Hx00 _ Ez) as ->.
      destruct t as [|c u].
      * cbn. split; [intros _|reflexivity].
        split; [discriminate|]. split; [reflexivity|]. intros [H _]. lia.
      * cbn [dropZeros nth_error bitAnd List.length].
        destruct (byteZ c =? 0) eqn:Ec;
          [apply Z.eqb_eq in Ec | apply Z.eqb_neq in Ec].
        -- split.
           ++ intros H. exfalso.
              pose proof (dropZeros_length u) as Hlen.
              destruct (dropZeros u) as [|d v] eqn:Eu; [discriminate H|].
              destruct (negb (Z.land (byteZ d) 128 =? 0));
                apply (f_equal (@List.length byte)) in H;
                cbn [alloc repeat app List.length] in H, Hlen; lia.
           ++ intros (_ & _ & H). exfalso. apply H.
              split; [lia|]. split; [reflexivity|]. now apply Hz.
        -- destruct (Z.land (byteZ c) 128 =? 0) eqn:Hc; cbn [negb];
             [apply Z.eqb_eq in Hc | apply Z.eqb_neq in Hc].
           ++ split.
              ** intros H. apply (f_equal (@List.length byte)) in H.
                 cbn [List.length] in H. lia.
              ** intros (_ & _ & H). exfalso. apply H.
                 split; [lia|]. split; [reflexivity|]. exact Hc.
           ++ cbn [alloc repeat app]. split; [intros _|reflexivity].
              split; [discriminate|]. split; [reflexivity|].
              intros (_ & _ & H). contradiction.
    + replace (byteZ a =? 0) with false by (symmetry; now apply Z.eqb_neq).
      destruct (Z.land (byteZ a) 128 =? 0) eqn:Hbit; cbn [negb];
        [apply Z.eqb_eq in Hbit | apply Z.eqb_neq in Hbit].
      * split; [intros _|reflexivity].
        split; [discriminate|]. split; [exact Hbit|].
        intros (_ & H & _). discriminate H.
      * split.
        -- intros H. apply (f_equal (@List.length byte)) in H.
           cbn [alloc repeat app List.length] in H. lia.
        -- intros (_ & H & _). contradiction.
Qed.

(** The components [encodeDER] accepts are the fixed points of [toDER] of at
    most 33 bytes. *)
Lemma componentOk_fixed (x : list byte) :
  componentOk x = true <-> toDER x = x /\ (List.length x <= 33)%nat.
Proof.
  rewrite toDER_fixed_iff. unfold componentOk.
  rewrite !andb_true_iff, !negb_true_iff, Nat.leb_le, Z.eqb_eq, Nat.eqb_neq.
  rewrite !andb_false_iff, Nat.ltb_ge, Z.eqb_neq.
  assert (x <> [] <-> List.length x <> 0%nat) as Hne.
  { destruct x; cbn; split; congruence. }
  rewrite Hne. split.
  - intros (((H1 & H2) & H3) & H4). repeat split; auto.
    intros (Ha & Hb & Hc). destruct H4 as [[H4|H4]|H4]; [lia|congruence|contradiction].
  - intros ((H1 & H3 & H4) & H2). repeat split; auto.
    destruct (le_lt_dec (List.length x) 1) as [|Hlt]; [left; left; lia|].
    destruct (isZero (at_ x 0)) eqn:Ez; [|left; now right].
    right. intros Hc. apply H4. auto.
Qed.

(** X6. [encodeDER] returns exactly for the pairs of components that are
    fixed points of [toDER] of at most 33 bytes (it throws for every other
    pair), and then the encoding has [6 + lenR + lenS] bytes and reads back
    as the two values. *)
Theorem encodeDER_accepts_canonical (r s : list byte) :
  ((exists der, encodeDER r s = Ok der) <->
   (toDER r = r /\ (List.length r <= 33)%nat) /\
   (toDER s = s /\ (List.length s <= 33)%nat)) /\
  (forall der scope,
     encodeDER r s = Ok der ->
     List.length der = (6 + List.length r + List.length s)%nat /\
     readSignature (der ++ [scope])
     = Some (mkDecoded (beValue r) (beValue s) (byteZ scope))).
Proof.
  split.
  - rewrite <- !componentOk_fixed. split.
    + intros (der & H).
      destruct (componentOk r && componentOk s) eqn:E.
      * now apply andb_true_iff in E.
      * destruct (encodeDER_throws _ _ E) as (e & He). congruence.
    + intros [Hr Hs]. eexists. now apply encodeDER_ok.
  - intros der scope H.
    destruct (componentOk r && componentOk s) eqn:E.
    2:{ destruct (encodeDER_throws _ _ E) as (e & He). congruence. }
    apply andb_true_iff in E. destruct E as [Hr Hs].
    rewrite (encodeDER_ok _ _ Hr Hs) in H. injection H as <-.
    apply componentOk_fixed in Hr, Hs.
    split.
    + unfold encoded. repeat (rewrite length_app || cbn [List.length]). lia.
    + apply readSignature_encoded; tauto.
Qed.

End DERMore.

(** ** More on [createDERSignature] *)

Module SignatureMore.

Import Buffer JSString DER StringFacts BufferFacts HexFacts DERFacts BigIntFacts.
Import SignatureFacts SignatureTheorems CryptoUtils.

(** *** Printing and reading a BigInt *)




(** *** Symmetry in s *)

Lemma normalizeS_mirror (s : Z) : 0 <= s <= n -> normalizeS (n - s) = normalizeS s.
Proof.
  intros Hs. unfold normalizeS. pose proof halfN_spec.
  destruct (halfN <? s) eqn:E1; destruct (halfN <? n - s) eqn:E2;
    try apply Z.ltb_lt in E1; try apply Z.ltb_ge in E1;
    try apply Z.ltb_lt in E2; try apply Z.ltb_ge in E2; lia.
Qed.

(** X7. The signature returned depends on the numbers r and s only, not on
    how they are spelled (case, leading zeros) nor on [v] and [pubKey]; and
    for s between 0 and n, s and n - s give the same signature. *)
Theorem createDERSignature_same_numbers (sig1 sig2 : FireblocksSignature.t)
  (t rv sv : Z) :
  BigInt.ofHex (FireblocksSignature.r sig1) = Ok rv ->
  BigInt.ofHex (FireblocksSignature.r sig2) = Ok rv ->
  BigInt.ofHex (FireblocksSignature.s sig1) = Ok sv ->
  BigInt.ofHex (FireblocksSignature.s sig2) = Ok sv \/
  (sv <= n /\ BigInt.ofHex (FireblocksSignature.s sig2) = Ok (n - sv)) ->
  createDERSignature sig1 t = createDERSignature sig2 t.
Proof.
  intros Hr1 Hr2 Hs1 [Hs2|[Hle Hs2]].
  - rewrite (createDERSignature_unfold sig1 t Hr1 Hs1).
    rewrite (createDERSignature_unfold sig2 t Hr2 Hs2). reflexivity.
  - rewrite (createDERSignature_unfold sig1 t Hr1 Hs1).
    rewrite (createDERSignature_unfold sig2 t Hr2 Hs2).
    rewrite normalizeS_mirror; [reflexivity|].
    pose proof (ofHex_nonneg _ Hs1). lia.
Qed.

Lemma createDERSignature_same_numbers_witness :
  createDERSignature (FireblocksSignature.mk "0a" "02" 0 "") 65
  = createDERSignature
      (FireblocksSignature.mk "A"
         "fffffffffffffffffffffffffffffffebaaedce6af48a03bbfd25e8cd036413f" 1 "pk") 65.
Proof.
  apply (@createDERSignature_same_numbers _ _ 65 10 2); try (vm_compute; reflexivity).
  right. split; vm_compute; [discriminate | reflexivity].
Defined.

(** *** Decoding and encoding again *)



(** *** Size *)

Lemma componentOk_length (x : list byte) :
  componentOk x = true -> (1 <= List.length x <= 33)%nat.
Proof.
  unfold componentOk. rewrite !andb_true_iff, negb_true_iff, Nat.leb_le, Nat.eqb_neq.
  intros (((H1 & H2) & _) & _). lia.
Qed.

(** X9. A signature returned for a sighash byte is the hexadecimal print of
    9 to 73 bytes: the DER encoding, of 8 to 72 bytes, and the scope byte. *)
Theorem createDERSignature_size (sig : FireblocksSignature.t) (t : Z) (out : string) :
  0 <= t < 256 ->
  createDERSignature sig t = Ok out ->
  out = toHex (fromHex out) /\
  String.length out = (2 * List.length (fromHex out))%nat /\
  (9 <= List.length (fromHex out) <= 73)%nat /\
  last (fromHex out) x00 = byteOfZ t.
Proof.
  intros Ht Hout.
  destruct (createDERSignature_inv _ _ Hout) as (rv & sv & _ & _ & HokR & HokS & ->).
  rewrite (scope_hex Ht), <- toHex_app, fromHex_toHex, toHex_length.
  split; [reflexivity|]. split; [reflexivity|].
  apply componentOk_length in HokR. apply componentOk_length in HokS.
  split.
  - unfold encoded. repeat (rewrite length_app || cbn [List.length]). lia.
  - now rewrite last_last.
Qed.

Lemma createDERSignature_size_witness :
  exists out,
    createDERSignature Samples.zero_sample 65 = Ok out /\
    List.length (fromHex out) = 9%nat /\
    last (fromHex out) x00 = byteOfZ 65.
Proof.
  eassert (createDERSignature Samples.zero_sample 65 = Ok _) as E
    by (vm_compute; reflexivity).
  eexists. split; [exact E|].
  destruct (@createDERSignature_size Samples.zero_sample 65 _ ltac:(lia) E)
    as (_ & _ & _ & Hl).
  split; [vm_compute; reflexivity | exact Hl].
Defined.

End SignatureMore.

(** ** The digest and what is handed to the signer *)

Module DigestMore.

Import Buffer Vocabulary BufferFacts HexFacts SigningFacts.
Import FireblocksService TransactionService.

Lemma round_length (st : list Z) (kw : Z * Z) :
  List.length (SHA256.round st kw) = List.length st.
Proof.
  unfold SHA256.round.
  do 8 (destruct st as [|? st]; [reflexivity|]).
  destruct st; reflexivity.
Qed.

Lemma rounds_length (kws : list (Z * Z)) (st : list Z) :
  List.length (fold_left SHA256.round kws st) = List.length st.
Proof.
  revert st. induction kws as [|kw t IH]; intros st; [reflexivity|].
  cbn [fold_left]. now rewrite IH, round_length.
Qed.

Lemma compress_length (hash block : list Z) :
  List.length (SHA256.compress hash block) = List.length hash.
Proof.
  unfold SHA256.compress.
  rewrite length_map, length_combine, rounds_length. apply Nat.min_id.
Qed.

Lemma blocks_length (k : nat) (ws hash : list Z) :
  List.length (SHA256.blocks k ws hash) = List.length hash.
Proof.
  revert ws hash. induction k as [|k IH]; intros ws hash; [reflexivity|].
  cbn [SHA256.blocks]. now rewrite IH, compress_length.
Qed.

Lemma flat_bytes_length (l : list Z) :
  List.length (flat_map (bytesBE 4) l) = (4 * List.length l)%nat.
Proof.
  induction l as [|x t IH]; [reflexivity|].
  cbn [flat_map]. rewrite length_app, bytesBE_length, IH. cbn [List.length]. lia.
Qed.

Lemma sha256_length (msg : list byte) : List.length (SHA256.sha256 msg) = 32%nat.
Proof.
  unfold SHA256.sha256. rewrite flat_bytes_length, blocks_length. reflexivity.
Qed.

(** X10. The digest has 32 bytes whatever the message, so the signature hash
    of an input and the content submitted to the signer for it are 64
    hexadecimal digits each, and the content read back as bytes is the digest
    of the hash. *)
Theorem digests_have_32_bytes (W : World) (tx : Transaction.t)
  (h : HashWithIndex.t) (i : Z) (lockingScript : string) (satoshis scope : Z) :
  List.length (CryptoUtils.doubleHash (HashWithIndex.hash h)) = 32%nat /\
  String.length (RawMessage.content (message h)) = 64%nat /\
  fromHex (RawMessage.content (message h)) = SHA256.sha256 (HashWithIndex.hash h) /\
  (forall sigHash,
     createSignatureHash W tx i lockingScript satoshis scope = Ok sigHash ->
     String.length sigHash = 64%nat /\ List.length (fromHex sigHash) = 32%nat).
Proof.
  split; [apply sha256_length|].
  split; [cbn [message RawMessage.content]; unfold CryptoUtils.doubleHash;
          now rewrite toHex_length, sha256_length|].
  split; [cbn [message RawMessage.content]; unfold CryptoUtils.doubleHash;
          apply fromHex_toHex|].
  intros sigHash. unfold createSignatureHash.
  destruct (nthZ (Transaction.inputs tx) i); [|discriminate].
  intros [= <-]. rewrite fromHex_toHex, toHex_length, sha256_length. auto.
Qed.

End DigestMore.

(** ** More on [signMultipleHashes] *)

Module SigningMore.

Import Buffer Vocabulary VocabularyMore EffectFacts SigningFacts.
Import FireblocksService.

(** X11. However many hashes there are, they are submitted in one signing
    job, with one message per hash in the order of the hashes; the only
    request that follows is the wait for that job, made when the job was
    accepted.  The cached configurations are left as they were. *)
Theorem signMultipleHashes_one_job (W : World) (hashes : list HashWithIndex.t)
  (amount : Z) (destination vault : string) (st : State) :
  isEmpty vault = false ->
  let req := SigningRequest.mk vault amount destination (map message hashes) in
  let out := signMultipleHashes W hashes amount destination vault st in
  trace (snd out)
  = (trace st ++ CreateTransaction req
       :: match createTransaction W req with
          | Ok id => [PollTransaction id]
          | Throw _ => []
          end)%list /\
  tokenConfig (snd out) = tokenConfig st /\
  cosignerConfig (snd out) = cosignerConfig st /\
  List.length (SigningRequest.messages req) = List.length hashes /\
  map RawMessage.content (SigningRequest.messages req) = map contentOf hashes /\
  (forall e, createTransaction W req = Throw e -> fst out = Throw e).
Proof.
  intros Hv req out. subst out. unfold signMultipleHashes. rewrite Hv.
  fold req. unfold mbind, request. cbn [trace tokenConfig cosignerConfig].
  split; [|split; [|split; [|split; [|split]]]].
  - destruct (createTransaction W req) as [id|e]; [|reflexivity].
    destruct (pollTransaction W id) as [[[[[|m ms]|]]|]|e];
      cbn [snd trace lift throw]; now rewrite <- app_assoc.
  - destruct (createTransaction W req) as [id|e]; [|reflexivity].
    destruct (pollTransaction W id) as [[[[[|m ms]|]]|]|e]; reflexivity.
  - destruct (createTransaction W req) as [id|e]; [|reflexivity].
    destruct (pollTransaction W id) as [[[[[|m ms]|]]|]|e]; reflexivity.
  - unfold req. cbn. apply length_map.
  - unfold req. cbn. rewrite map_map. reflexivity.
  - intros e He. rewrite He. reflexivity.
Qed.

Lemma signMultipleHashes_one_job_witness :
  isEmpty "vault" = false /\
  trace (snd (signMultipleHashes Samples.world [Samples.abc; Samples.other]
                0 "dest" "vault" Samples.fresh))
  = [CreateTransaction
       (SigningRequest.mk "vault" 0 "dest"
          (map message [Samples.abc; Samples.other]));
     PollTransaction "job"].
Proof.
  split; [reflexivity|].
  exact (proj1 (@signMultipleHashes_one_job Samples.world [Samples.abc; Samples.other]
                  0 "dest" "vault" Samples.fresh eq_refl)).
Defined.

Lemma mapResult_map {A B : Type} (f : A -> result B) (l : list A) :
  (forall a, In a l -> exists b, f a = Ok b) ->
  exists bs, mapResult f l = Ok bs /\ Forall2 (fun a b => f a = Ok b) l bs.
Proof.
  induction l as [|a t IH]; intros H.
  - exists []. split; [reflexivity|constructor].
  - destruct (H a (in_eq _ _)) as (b & Hb).
    destruct IH as (bs & Hbs & Hall); [intros x Hx; apply H; now right|].
    exists (b :: bs). cbn [mapResult]. rewrite Hb, Hbs. split; [reflexivity|].
    now constructor.
Qed.

Lemma matchSignature_present (resp : list SignedMessage.t) (h : HashWithIndex.t) :
  (exists m, In m resp /\ SignedMessage.content m = contentOf h) ->
  exists m, In m resp /\ SignedMessage.content m = contentOf h /\
            matchSignature resp h = Ok (HashWithIndex.inputIndex h, signatureOf m).
Proof.
  intros (m0 & Hin & Hc). unfold matchSignature. fold (contentOf h).
  destruct (find _ resp) as [m|] eqn:E.
  - apply find_some in E. destruct E as [Hm He]. apply String.eqb_eq in He.
    exists m. auto.
  - eapply find_none in E; [|exact Hin]. cbn beta in E.
    apply String.eqb_neq in E. contradiction.
Qed.

(** X12. When the answer holds a message for the content of every hash,
    [signMultipleHashes] returns one signature per hash, in the order of the
    hashes and with their input indices, each taken from a message of the
    content of its hash, whatever the order of the answer. *)
Theorem signMultipleHashes_one_signature_per_input (W : World)
  (hashes : list HashWithIndex.t) (amount : Z) (destination vault id : string)
  (st : State) (resp : list SignedMessage.t) :
  isEmpty vault = false ->
  createTransaction W (SigningRequest.mk vault amount destination (map message hashes))
  = Ok id ->
  pollTransaction W id = Ok (Some (TransactionResponse.mk (Some resp))) ->
  resp <> [] ->
  (forall h, In h hashes ->
             exists m, In m resp /\ SignedMessage.content m = contentOf h) ->
  exists results,
    fst (signMultipleHashes W hashes amount destination vault st) = Ok results /\
    map fst results = map HashWithIndex.inputIndex hashes /\
    Forall2 (fun h r =>
               exists m, In m resp /\ SignedMessage.content m = contentOf h /\
                         snd r = signatureOf m) hashes results.
Proof.
  intros Hv Hc Hp Hne Hall.
  rewrite (@signMultipleHashes_answered W hashes amount destination vault id st resp
             Hv Hc Hp Hne).
  destruct (@mapResult_map _ _ (matchSignature resp) hashes) as (results & Hres & Hf).
  { intros h Hh. destruct (matchSignature_present resp h (Hall h Hh)) as (m & _ & _ & Hm).
    eauto. }
  exists results. split; [exact Hres|].
  clear Hres Hall Hc. induction Hf as [|h r hs rs Hr _ IH]; [split; constructor|].
  destruct IH as [IH1 IH2].
  destruct (@matchSignature_found resp h (fst r) (snd r)) as (Hi & m & Hin & Hcont & _ & Hs).
  { rewrite Hr. now destruct r. }
  split.
  - cbn [map]. now rewrite Hi, IH1.
  - constructor; [|exact IH2]. exists m. auto.
Qed.

Lemma signMultipleHashes_one_signature_per_input_witness :
  isEmpty "vault" = false /\
  fst (signMultipleHashes
         (Samples.worldSigning [Samples.signedBy "01" "02"] []) [Samples.abc]
         0 "dest" "vault" Samples.fresh)
  = Ok [(0, FireblocksSignature.mk "01" "02" 0 "pk")].
Proof.
  split; [reflexivity|].
  destruct (@signMultipleHashes_one_signature_per_input
              (Samples.worldSigning [Samples.signedBy "01" "02"] [])
              [Samples.abc] 0 "dest" "vault" "job" Samples.fresh
              [Samples.signedBy "01" "02"] eq_refl eq_refl eq_refl
              ltac:(discriminate)) as (results & Hres & _).
  { intros h [<-|[]]. exists (Samples.signedBy "01" "02").
    split; [left; reflexivity|]. vm_compute. reflexivity. }
  rewrite Hres. vm_compute in Hres. injection Hres as <-. reflexivity.
Defined.




End SigningMore.

(** ** Signature requests and their application *)

Module TransactionFacts.

Import Vocabulary VocabularyMore EffectFacts.
Import TransactionService.

Lemma prepareRequestsFrom_inv (index : nat) (inputs : list TxInput.t)
  (addresses : list string) (indexes : option (list Z))
  (requests : list SignatureRequest.t) :
  prepareRequestsFrom index inputs addresses indexes = Ok requests ->
  map SignatureRequest.inputIndex requests
  = map Z.of_nat (seq index (List.length inputs)) /\
  Forall2 (fun input r =>
             SignatureRequest.prevTxid r = TxInput.sourceTXID input /\
             SignatureRequest.outputIndex r = TxInput.sourceOutputIndex input /\
             SignatureRequest.sigHashType r = 193 /\
             exists out,
               spentOutput input = Some out /\
               SignatureRequest.script r = SourceOutput.lockingScript out /\
               SignatureRequest.satoshis r
               = (if SourceOutput.satoshis out =? 0 then 1
                  else SourceOutput.satoshis out))
          inputs requests.
Proof.
  revert index requests.
  induction inputs as [|input rest IH]; intros index requests H.
  - cbn in H. injection H as <-. split; constructor.
  - cbn [prepareRequestsFrom] in H. unfold spentOutput.
    destruct (TxInput.sourceTransaction input) as [src|] eqn:Es; [|discriminate].
    destruct (isEmpty (TxInput.sourceTXID input)); [discriminate|].
    destruct (nthZ src (TxInput.sourceOutputIndex input)) as [out|] eqn:Eo;
      [|discriminate].
    destruct (prepareRequestsFrom (S index) rest addresses indexes) as [rs|e] eqn:Er;
      [|discriminate].
    cbn [bind] in H. injection H as <-.
    destruct (IH _ _ Er) as [IH1 IH2].
    split.
    + cbn [map List.length seq SignatureRequest.inputIndex]. now rewrite IH1.
    + constructor; [|exact IH2].
      cbn [SignatureRequest.prevTxid SignatureRequest.outputIndex
           SignatureRequest.sigHashType SignatureRequest.script
           SignatureRequest.satoshis].
      repeat split. exists out. rewrite Es. auto.
Qed.

Lemma prepareRequestsFrom_returns (index : nat) (inputs : list TxInput.t)
  (addresses : list string) (indexes : option (list Z)) :
  (exists requests, prepareRequestsFrom index inputs addresses indexes = Ok requests)
  <-> forallb signable inputs = true.
Proof.
  revert index. induction inputs as [|input rest IH]; intros index.
  - cbn. split; eauto.
  - cbn [prepareRequestsFrom forallb]. unfold signable.
    destruct (TxInput.sourceTransaction input) as [src|].
    2:{ split; [intros (? & ?); discriminate | discriminate]. }
    destruct (isEmpty (TxInput.sourceTXID input)).
    { split; [intros (? & ?); discriminate | discriminate]. }
    destruct (nthZ src (TxInput.sourceOutputIndex input)) as [out|].
    2:{ split; [intros (? & ?); discriminate | discriminate]. }
    cbn [negb andb]. rewrite <- (IH (S index)).
    destruct (prepareRequestsFrom (S index) rest addresses indexes) as [rs|e];
      cbn [bind].
    + split; eauto.
    + split; intros (? & ?); discriminate.
Qed.




Lemma unlockedBy_twice (input : TxInput.t) (a b : Script) :
  unlockedBy (unlockedBy input a) b = unlockedBy input b.
Proof. reflexivity. Qed.



Lemma mapResult_inv {A B : Type} (f : A -> result B) (l : list A) (bs : list B) :
  mapResult f l = Ok bs -> Forall2 (fun a b => f a = Ok b) l bs.
Proof.
  revert bs. induction l as [|a t IH]; intros bs H.
  - cbn in H. injection H as <-. constructor.
  - cbn [mapResult] in H. destruct (f a) as [b|e] eqn:Ea; [|discriminate].
    cbn [bind] in H. destruct (mapResult f t) as [bs'|e]; [|discriminate].
    cbn [bind] in H. injection H as <-. constructor; auto.
Qed.

Lemma hashWithIndex_inputIndex (W : World) (tx : Transaction.t)
  (req : SignatureRequest.t) (h : HashWithIndex.t) :
  hashWithIndex W tx req = Ok h ->
  HashWithIndex.inputIndex h = SignatureRequest.inputIndex req /\
  HashWithIndex.bip44AddressIndex h = SignatureRequest.bip44AddressIndex req.
Proof.
  unfold hashWithIndex.
  destruct (createSignatureHash W tx _ _ _ _) as [sigHash|e]; [|discriminate].
  cbn [bind]. intros [= <-]. split; reflexivity.
Qed.


(** What a run of [signMultipleHashes] that returns has done. *)
Lemma signMultipleHashes_ok_inv (W : World) (hashes : list HashWithIndex.t)
  (amount : Z) (destination vault : string) (st st' : State)
  (signed : list (Z * FireblocksSignature.t)) :
  FireblocksService.signMultipleHashes W hashes amount destination vault st
  = (Ok signed, st') ->
  let req := SigningRequest.mk vault amount destination
               (map FireblocksService.message hashes) in
  isEmpty vault = false /\
  exists id resp,
    createTransaction W req = Ok id /\
    pollTransaction W id = Ok (Some (TransactionResponse.mk (Some resp))) /\
    resp <> [] /\
    mapResult (FireblocksService.matchSignature resp) hashes = Ok signed /\
    st' = mkState (tokenConfig st) (cosignerConfig st)
            (trace st ++ [CreateTransaction req; PollTransaction id]).
Proof.
  intros H req. unfold FireblocksService.signMultipleHashes in H.
  destruct (isEmpty vault); [discriminate|]. split; [reflexivity|].
  fold req in H. unfold mbind, request in H.
  destruct (createTransaction W req) as [id|e] eqn:Ec; [|discriminate].
  cbn [trace tokenConfig cosignerConfig] in H.
  destruct (pollTransaction W id) as [[[[[|m ms]|]]|]|e] eqn:Ep;
    try discriminate.
  unfold lift in H. injection H as H1 H2.
  exists id, (m :: ms). rewrite <- app_assoc in H2.
  repeat split; auto; discriminate.
Qed.



Lemma prepareRequestsFrom_indexes (index : nat) (inputs : list TxInput.t)
  (addresses : list string) (indexes : option (list Z))
  (requests : list SignatureRequest.t) :
  prepareRequestsFrom index inputs addresses indexes = Ok requests ->
  forall i r, nth_error requests i = Some r ->
    SignatureRequest.address r = nth_error addresses (index + i) /\
    SignatureRequest.bip44AddressIndex r
    = Some (orDefault (match indexes with
                       | Some l => nth_error l (index + i)
                       | None => None
                       end) 0).
Proof.
  revert index requests.
  induction inputs as [|input rest IH]; intros index requests H i r Hr.
  - cbn in H. injection H as <-. destruct i; discriminate.
  - cbn [prepareRequestsFrom] in H.
    destruct (TxInput.sourceTransaction input) as [src|]; [|discriminate].
    destruct (isEmpty (TxInput.sourceTXID input)); [discriminate|].
    destruct (nthZ src (TxInput.sourceOutputIndex input)) as [out|]; [|discriminate].
    destruct (prepareRequestsFrom (S index) rest addresses indexes) as [rs|e] eqn:Er;
      [|discriminate].
    cbn [bind] in H. injection H as <-.
    destruct i as [|i].
    + cbn in Hr. injection Hr as <-. rewrite Nat.add_0_r. split; reflexivity.
    + cbn [nth_error] in Hr. destruct (IH _ _ Er i r Hr) as [Ha Hb].
      rewrite Nat.add_succ_r. cbn [Nat.add] in Ha, Hb. auto.
Qed.

Lemma getSignatures_job (W : World) (tx : Transaction.t)
  (sigRequests : list SignatureRequest.t) (destination vault : string)
  (amount : option Z) (st st' : State) (results : list SignatureResult) :
  getSignatures W tx sigRequests destination vault amount st = (Ok results, st') ->
  exists messages id,
    st' = mkState (tokenConfig st) (cosignerConfig st)
            (trace st ++ [CreateTransaction
                            (SigningRequest.mk vault (orDefault amount 0) destination
                               messages);
                          PollTransaction id]) /\
    map RawMessage.bip44addressIndex messages
    = map (fun r => match SignatureRequest.bip44AddressIndex r with
                    | Some i => i
                    | None => 0
                    end) sigRequests /\
    Forall (fun m => RawMessage.bip44change m = 0) messages.
Proof.
  intros H. unfold getSignatures in H.
  apply mbind_ok_inv in H. destruct H as (hashes & st1 & H1 & H).
  apply lift_ok_inv in H1. destruct H1 as [Hh ->].
  apply mbind_ok_inv in H. destruct H as (signed & st2 & H2 & H).
  apply lift_ok_inv in H. destruct H as [_ ->].
  apply signMultipleHashes_ok_inv in H2.
  destruct H2 as (_ & id & resp & _ & _ & _ & _ & Hst).
  exists (map FireblocksService.message hashes), id.
  split; [exact Hst|].
  apply mapResult_inv in Hh. clear - Hh.
  induction Hh as [|r h rs hs Hrh _ [IH1 IH2]]; [split; constructor|].
  apply hashWithIndex_inputIndex in Hrh. destruct Hrh as [_ Hb].
  split.
  - cbn [map]. rewrite IH1. f_equal.
    unfold FireblocksService.message. cbn [RawMessage.bip44addressIndex].
    now rewrite Hb.
  - constructor; [reflexivity|exact IH2].
Qed.

End TransactionFacts.

Module TransactionMore.

Import Vocabulary VocabularyMore TransactionFacts.
Import TransactionService.

(** X14. [prepareSignatureRequests] returns exactly when every input has a
    source transaction, a transaction id and the output it spends; it then
    returns one request per input, in input order, numbered 0, 1, 2, ..., each
    with the outpoint of its input, the locking script and the amount of the
    output spent (1 when that amount is 0) and the sighash type 0xC1. *)
Theorem prepareSignatureRequests_one_per_input (tx : Transaction.t)
  (signingAddresses : list string) (bip44AddressIndexes : option (list Z)) :
  ((exists requests,
      prepareSignatureRequests tx signingAddresses bip44AddressIndexes = Ok requests)
   <-> forallb signable (Transaction.inputs tx) = true) /\
  (forall requests,
     prepareSignatureRequests tx signingAddresses bip44AddressIndexes = Ok requests ->
     map SignatureRequest.inputIndex requests
     = map Z.of_nat (seq 0 (List.length (Transaction.inputs tx))) /\
     Forall2 (fun input r =>
                SignatureRequest.prevTxid r = TxInput.sourceTXID input /\
                SignatureRequest.outputIndex r = TxInput.sourceOutputIndex input /\
                SignatureRequest.sigHashType r = 193 /\
                exists out,
                  spentOutput input = Some out /\
                  SignatureRequest.script r = SourceOutput.lockingScript out /\
                  SignatureRequest.satoshis r
                  = (if SourceOutput.satoshis out =? 0 then 1
                     else SourceOutput.satoshis out))
             (Transaction.inputs tx) requests).
Proof.
  split.
  - apply prepareRequestsFrom_returns.
  - intros requests H. exact (prepareRequestsFrom_inv _ _ _ _ H).
Qed.




End TransactionMore.

(** ** Transfers: the requests made and the transaction submitted *)

Module TransferRuns.

Import Vocabulary VocabularyMore EffectFacts AccountingFacts TransferFacts
  TransactionFacts.
Import TransactionService MNEEFireblocksSDK.

Lemma after_nil (st : State) : after st [] = st.
Proof. destruct st. unfold after. cbn. now rewrite app_nil_r. Qed.

Lemma after_after (st : State) (a b : list Call) :
  after (after st a) b = after st (a ++ b).
Proof. unfold after. cbn. now rewrite app_assoc. Qed.

Lemma mbind_run {A B : Type} (m : M A) (k : A -> M B) (st st1 : State) (r : result A) :
  m st = (r, st1) ->
  mbind m k st = match r with
                 | Ok a => k a st1
                 | Throw e => (Throw e, st1)
                 end.
Proof. unfold mbind. now intros ->. Qed.

Lemma request_run {A : Type} (c : Call) (answer : result A) (st : State) :
  request c answer st = (answer, after st [c]).
Proof. reflexivity. Qed.

(** The source transactions are fetched in the order of the UTXOs, up to the
    first fetch that fails. *)
Lemma mapM_addInput_run (W : World) (l : list UTXO) (st : State) :
  exists k r,
    mapM (addInput W) l st = (r, after st (map GetTx (firstn k (map txid l)))) /\
    forall inputs, r = Ok inputs ->
      (List.length l <= k)%nat /\
      Forall2 (fun u input =>
                 exists src,
                   getTx W (txid u) = Ok src /\
                   input = TxInput.mk (txid u) (vout u) (Some src) None None)
              l inputs.
Proof.
  revert st. induction l as [|u t IH]; intros st.
  - exists 0%nat, (Ok []). cbn [mapM map firstn]. unfold ret.
    rewrite after_nil. split; [reflexivity|].
    intros inputs [= <-]. split; [cbn; lia|constructor].
  - cbn [mapM]. unfold addInput at 1.
    unfold CosignerService.fetchTransaction.
    destruct (getTx W (txid u)) as [src|e] eqn:Eg.
    + destruct (IH (after st [GetTx (txid u)])) as (k & r & Hrun & Hok).
      exists (S k).
      exists (match r with Ok bs => Ok (TxInput.mk (txid u) (vout u) (Some src) None None :: bs)
                      | Throw e => Throw e end).
      split.
      * unfold mbind at 1. unfold mbind at 1. rewrite request_run.
        unfold ret at 1. unfold mbind at 1. rewrite Hrun.
        rewrite after_after. cbn [map firstn app].
        destruct r; reflexivity.
      * intros inputs Hr. destruct r as [bs|e]; [|discriminate].
        injection Hr as <-. destruct (Hok bs eq_refl) as [Hk Hf].
        split; [cbn; lia|]. constructor; [eauto|exact Hf].
    + exists 1%nat, (Throw e). split.
      * unfold mbind at 1. unfold mbind at 1. rewrite request_run.
        reflexivity.
      * intros inputs H. discriminate.
Qed.

Lemma buildTransaction_run (W : World) (config : MNEEConfig.t)
  (recipient sender : string) (a : Accounting) (utxos : list UTXO) (st : State) :
  exists ids r,
    buildTransaction W config recipient sender a utxos st
    = (r, after st (map GetTx ids)) /\
    forall tx sel, r = Ok (tx, sel) ->
      selectUtxos utxos (amountNeeded a) = Ok sel /\
      ids = map txid (selectedUtxos sel) /\
      Transaction.version tx = 1 /\
      Transaction.lockTime tx = 0 /\
      Transaction.outputs tx
      = buildOutputs config recipient sender a (tokensIn sel) /\
      Forall2 (fun u input =>
                 exists src,
                   getTx W (txid u) = Ok src /\
                   input = TxInput.mk (txid u) (vout u) (Some src) None None)
              (selectedUtxos sel) (Transaction.inputs tx).
Proof.
  unfold buildTransaction.
  destruct (selectUtxos utxos (amountNeeded a)) as [sel|e] eqn:Es.
  - destruct (mapM_addInput_run W (selectedUtxos sel) st) as (k & r & Hrun & Hok).
    exists (firstn k (map txid (selectedUtxos sel))).
    exists (match r with
            | Ok inputs =>
                Ok (Transaction.mk 1 inputs
                      (buildOutputs config recipient sender a (tokensIn sel)) 0, sel)
            | Throw e => Throw e
            end).
    split.
    + unfold mbind at 1. unfold lift at 1. unfold mbind at 1. rewrite Hrun.
      destruct r; reflexivity.
    + intros tx sel' Hr. destruct r as [inputs|e]; [|discriminate].
      injection Hr as <- <-. destruct (Hok inputs eq_refl) as [Hk Hf].
      split; [reflexivity|]. split.
      { apply firstn_all2. now rewrite length_map. }
      repeat split. exact Hf.
  - exists [], (Throw e). split.
    + unfold mbind at 1. unfold lift at 1. cbn [map]. now rewrite after_nil.
    + intros tx sel H. discriminate.
Qed.

Lemma signMultipleHashes_run (W : World) (hashes : list HashWithIndex.t)
  (amount : Z) (destination vault : string) (st : State) :
  exists job r,
    FireblocksService.signMultipleHashes W hashes amount destination vault st
    = (r, after st job) /\
    signThenSubmit job = true /\
    (forall tx, ~ In (PostTransfer tx) job) /\
    (forall signed, r = Ok signed -> List.length job = 2%nat).
Proof.
  unfold FireblocksService.signMultipleHashes.
  destruct (isEmpty vault).
  { exists [], (Throw VaultAccountIdRequiredForSigning). unfold throw.
    rewrite after_nil. repeat split; auto. discriminate. }
  set (req := SigningRequest.mk vault amount destination
                (map FireblocksService.message hashes)).
  unfold mbind at 1. rewrite request_run.
  destruct (createTransaction W req) as [id|e].
  2:{ exists [CreateTransaction req], (Throw e). repeat split; auto.
      - intros tx [H|[]]; discriminate.
      - discriminate. }
  unfold mbind at 1. rewrite request_run, after_after. cbn [app].
  exists [CreateTransaction req; PollTransaction id].
  destruct (pollTransaction W id) as [[[[[|m ms]|]]|]|e];
    eexists; (split; [reflexivity|]); repeat split; auto;
    intros tx [H|[H|[]]]; discriminate.
Qed.

Lemma getSignatures_run (W : World) (tx : Transaction.t)
  (sigRequests : list SignatureRequest.t) (destination vault : string)
  (amount : option Z) (st : State) :
  exists job r,
    getSignatures W tx sigRequests destination vault amount st = (r, after st job) /\
    signThenSubmit job = true /\
    (forall t, ~ In (PostTransfer t) job) /\
    (forall results, r = Ok results -> List.length job = 2%nat).
Proof.
  unfold getSignatures.
  destruct (mapResult (hashWithIndex W tx) sigRequests) as [hashes|e].
  2:{ exists [], (Throw e). unfold mbind, lift. rewrite after_nil.
      repeat split; auto. discriminate. }
  destruct (signMultipleHashes_run W hashes (orDefault amount 0) destination vault st)
    as (job & r & Hrun & Hjob & Hno & Hlen).
  exists job.
  exists (match r with
          | Ok signed => mapResult (derResult sigRequests) signed
          | Throw e => Throw e
          end).
  split.
  - unfold mbind at 1. unfold lift at 1. unfold mbind at 1. rewrite Hrun.
    destruct r; reflexivity.
  - split; [exact Hjob|]. split; [exact Hno|].
    intros results Hr. destruct r as [signed|e]; [|discriminate]. eauto.
Qed.

Lemma skipGetTx_ids (ids : list string) (rest : list Call) :
  skipGetTx (map GetTx ids ++ rest)%list = skipGetTx rest.
Proof. induction ids as [|i t IH]; [reflexivity|exact IH]. Qed.

Lemma signThenSubmit_skip (job : list Call) :
  signThenSubmit job = true -> skipGetTx job = job.
Proof.
  destruct job as [|[] job]; try discriminate; reflexivity.
Qed.

Lemma signThenSubmit_submit (job : list Call) (tx : Transaction.t) :
  signThenSubmit job = true -> List.length job = 2%nat ->
  signThenSubmit (job ++ [PostTransfer tx])%list = true /\
  skipGetTx (job ++ [PostTransfer tx])%list = (job ++ [PostTransfer tx])%list.
Proof.
  destruct job as [|[] [|[] [|? ?]]]; try discriminate; intros _ _; split; reflexivity.
Qed.

Lemma transferTokens_unfold (W : World) (recipient : string) (amount : Z)
  (walletObject : WalletObject.t) (options : TransferOptions.t) :
  transferTokens W recipient amount walletObject options
  = if isEmpty (WalletObject.vaultAccountId walletObject)
    then throw VaultAccountIdRequiredForTransfers else
    (config <- ensureTokenConfig W ;;
     if amount <=? 0 then throw InvalidAmount else
     utxos <- CosignerService.fetchUtxos W [WalletObject.ordAddress walletObject] ;;
     spend W config recipient amount walletObject options utxos)%effect.
Proof. reflexivity. Qed.

(** The requests of [spend]: source transactions, then the signing job and
    the wait for it, then the submission, which comes last and only once. *)
Lemma spend_run (W : World) (config : MNEEConfig.t) (recipient : string)
  (amount : Z) (walletObject : WalletObject.t) (options : TransferOptions.t)
  (utxos : list UTXO) (st : State) :
  exists ids tail r,
    spend W config recipient amount walletObject options utxos st
    = (r, after st (map GetTx ids ++ tail)%list) /\
    signThenSubmit tail = true /\
    (forall h, r = Ok h -> exists job tx, tail = (job ++ [PostTransfer tx])%list).
Proof.
  unfold spend.
  destruct (accounting config options amount _) as [a|e].
  2:{ exists [], [], (Throw e). unfold mbind, lift. cbn [map app].
      rewrite after_nil. repeat split; auto. discriminate. }
  unfold mbind at 1. unfold lift at 1.
  destruct (buildTransaction_run W config recipient
              (WalletObject.ordAddress walletObject) a utxos st)
    as (ids & rb & Hb & _).
  exists ids. unfold mbind at 1. rewrite Hb.
  destruct rb as [[tx sel]|e].
  2:{ exists [], (Throw e). rewrite app_nil_r. repeat split; auto. discriminate. }
  destruct (prepareSignatureRequests tx (signingAddresses sel) _) as [reqs|e].
  2:{ exists [], (Throw e). unfold mbind, lift. rewrite app_nil_r.
      repeat split; auto. discriminate. }
  unfold mbind at 1. unfold lift at 1.
  destruct (getSignatures_run W tx reqs recipient
              (WalletObject.vaultAccountId walletObject) (Some (tokenSatAmt a))
              (after st (map GetTx ids)))
    as (job & rs & Hs & Hjob & _ & Hlen).
  unfold mbind at 1. rewrite Hs, after_after.
  destruct rs as [[|s ss]|e].
  - exists job, (Throw FailedToGetSignatures). unfold throw.
    repeat split; auto. discriminate.
  - destruct (applySignatures tx (s :: ss)) as [signed|e].
    + unfold mbind at 1. unfold lift at 1. unfold mbind at 1.
      unfold CosignerService.submitTransaction. rewrite request_run, after_after.
      rewrite <- app_assoc.
      exists (job ++ [PostTransfer signed])%list.
      destruct (@signThenSubmit_submit job signed Hjob (Hlen _ eq_refl)) as [Hok _].
      destruct (postTransfer W signed) as [response|e].
      * eexists. unfold ret. split; [reflexivity|]. split; [exact Hok|]. eauto.
      * exists (Throw e). split; [reflexivity|]. split; [exact Hok|]. discriminate.
    + exists job, (Throw e). unfold mbind, lift.
      repeat split; auto. discriminate.
  - exists job, (Throw e). repeat split; auto. discriminate.
Qed.

Lemma transferOrder_cached (sender : string) (ids : list string) (tail : list Call) :
  signThenSubmit tail = true ->
  transferOrder sender (PostUtxos [sender] :: map GetTx ids ++ tail)%list = true /\
  existsb isGetConfig (PostUtxos [sender] :: map GetTx ids ++ tail)%list = false.
Proof.
  intros H. split.
  - cbn [transferOrder utxosThenInputs]. rewrite String.eqb_refl, skipGetTx_ids.
    now rewrite (@signThenSubmit_skip _ H).
  - cbn [existsb isGetConfig orb]. rewrite existsb_app.
    replace (existsb isGetConfig (map GetTx ids)) with false
      by (induction ids; auto).
    destruct tail as [|[] [|[] [|[] [|? ?]]]]; try discriminate; reflexivity.
Qed.

(** Every run of [transferTokens]. *)
Lemma transferTokens_run (W : World) (recipient : string) (amount : Z)
  (walletObject : WalletObject.t) (options : TransferOptions.t) (st : State) :
  exists cfg calls r st',
    transferTokens W recipient amount walletObject options st = (r, st') /\
    trace st' = (trace st ++ cfg ++ calls)%list /\
    (cfg = [] \/ (cfg = [GetConfig] /\ tokenConfig st = None /\ cosignerConfig st = None)) /\
    transferOrder (WalletObject.ordAddress walletObject) calls = true /\
    existsb isGetConfig calls = false /\
    (forall h, r = Ok h -> exists pre tx, calls = (pre ++ [PostTransfer tx])%list).
Proof.
  rewrite transferTokens_unfold.
  destruct (isEmpty (WalletObject.vaultAccountId walletObject)).
  { exists [], []. unfold throw. do 2 eexists. split; [reflexivity|].
    cbn [app]. rewrite app_nil_r. repeat split; auto. discriminate. }
  pose proof (ensureTokenConfig_spec W st) as (_ & Hcached & Hfresh & _).
  destruct (ensureTokenConfig_cases W st) as (st1 & Hrun & Ht).
  rewrite Hrun in Hcached, Hfresh. cbn [snd] in Hcached, Hfresh.
  assert (exists cfg, trace st1 = (trace st ++ cfg)%list /\
            (cfg = [] \/ (cfg = [GetConfig] /\ tokenConfig st = None /\
                          cosignerConfig st = None))) as (cfg & Hcfg & Hshape).
  { destruct (tokenConfig st) eqn:E1.
    - exists []. rewrite app_nil_r. split; [apply Hcached; left; discriminate|auto].
    - destruct (cosignerConfig st) eqn:E2.
      + exists []. rewrite app_nil_r. split; [apply Hcached; right; discriminate|auto].
      + exists [GetConfig]. split; [now apply Hfresh|auto]. }
  exists cfg. rewrite (@mbind_run _ _ _ _ _ _ _ Hrun).
  destruct (resolvedConfig W st) as [config|e].
  2:{ exists []. do 2 eexists. split; [reflexivity|]. rewrite app_nil_r.
      repeat split; auto. discriminate. }
  destruct (amount <=? 0).
  { exists []. unfold throw. do 2 eexists. split; [reflexivity|]. rewrite app_nil_r.
    repeat split; auto. discriminate. }
  unfold mbind at 1. unfold CosignerService.fetchUtxos. rewrite request_run.
  destruct (postUtxos W [WalletObject.ordAddress walletObject]) as [utxos|e].
  2:{ exists [PostUtxos [WalletObject.ordAddress walletObject]].
      do 2 eexists. split; [reflexivity|].
      cbn [after trace]. rewrite Hcfg, <- app_assoc.
      split; [reflexivity|]. split; [exact Hshape|].
      split; [cbn; now rewrite String.eqb_refl|]. split; [reflexivity|discriminate]. }
  destruct (spend_run W config recipient amount walletObject options utxos
              (after st1 [PostUtxos [WalletObject.ordAddress walletObject]]))
    as (ids & tail & r & Hs & Htail & Hok).
  rewrite Hs.
  exists (PostUtxos [WalletObject.ordAddress walletObject] :: map GetTx ids ++ tail)%list.
  destruct (@transferOrder_cached (WalletObject.ordAddress walletObject) ids tail Htail)
    as [Horder Hnone].
  do 2 eexists. split; [reflexivity|].
  split.
  { unfold after. cbn [trace]. rewrite Hcfg, <- !app_assoc. reflexivity. }
  split; [exact Hshape|]. split; [exact Horder|]. split; [exact Hnone|].
  intros h Hr. destruct (Hok h Hr) as (job & tx & ->).
  exists (PostUtxos [WalletObject.ordAddress walletObject] :: map GetTx ids ++ job)%list, tx.
  cbn [app]. now rewrite <- app_assoc.
Qed.




(** The signing job of a run of [spend] that returns. *)
Lemma spend_ok_job (W : World) (config : MNEEConfig.t) (recipient : string)
  (amount : Z) (walletObject : WalletObject.t) (options : TransferOptions.t)
  (utxos : list UTXO) (st st' : State) (h : string) :
  spend W config recipient amount walletObject options utxos st = (Ok h, st') ->
  exists a sel messages id signed,
    accounting config options amount
      (fold_left (fun sum utxo => sum + amt utxo) utxos 0) = Ok a /\
    selectUtxos utxos (amountNeeded a) = Ok sel /\
    st' = after st
            (map GetTx (map txid (selectedUtxos sel))
             ++ [CreateTransaction
                   (SigningRequest.mk (WalletObject.vaultAccountId walletObject)
                      (tokenSatAmt a) recipient messages);
                 PollTransaction id; PostTransfer signed])%list /\
    List.length messages = List.length (selectedUtxos sel) /\
    Forall (fun m =>
              RawMessage.bip44addressIndex m
              = orDefault (WalletObject.bip44AddressIndex walletObject) 0 /\
              RawMessage.bip44change m = 0) messages.
Proof.
  unfold spend. intros H.
  apply mbind_ok_inv in H. destruct H as (a & st0 & Ha & H).
  apply lift_ok_inv in Ha. destruct Ha as [Ha ->].
  apply mbind_ok_inv in H. destruct H as ([tx sel] & st1 & Hb & H).
  apply mbind_ok_inv in H. destruct H as (reqs & st2 & Hp & H).
  apply lift_ok_inv in Hp. destruct Hp as [Hp ->].
  apply mbind_ok_inv in H. destruct H as (results & st3 & Hg & H).
  destruct results as [|s0 ss]; [discriminate|].
  apply mbind_ok_inv in H. destruct H as (signed & st4 & Hs & H).
  apply lift_ok_inv in Hs. destruct Hs as [_ ->].
  apply mbind_ok_inv in H. destruct H as (response & st5 & Hr & H).
  apply ret_inv in H. destruct H as [_ ->].
  unfold CosignerService.submitTransaction in Hr. rewrite request_run in Hr.
  injection Hr as _ <-.
  destruct (buildTransaction_run W config recipient
              (WalletObject.ordAddress walletObject) a utxos st)
    as (ids & rb & Hb' & Hbok).
  rewrite Hb in Hb'. injection Hb' as <- ->.
  destruct (Hbok tx sel eq_refl) as (Hsel & -> & _ & _ & _ & Hin).
  destruct (getSignatures_job _ _ _ _ _ _ _ Hg) as (messages & id & -> & Hidx & Hchg).
  exists a, sel, messages, id, signed.
  split; [exact Ha|]. split; [exact Hsel|].
  assert (orDefault (Some (tokenSatAmt a)) 0 = tokenSatAmt a) as ->
    by (unfold orDefault; destruct (Z.eqb_spec (tokenSatAmt a) 0); congruence).
  split.
  { unfold after. cbn [trace tokenConfig cosignerConfig].
    rewrite <- !app_assoc. reflexivity. }
  destruct (prepareRequestsFrom_inv _ _ _ _ Hp) as [_ Hreqs].
  pose proof (prepareRequestsFrom_indexes _ _ _ _ Hp) as Hix.
  assert (List.length reqs = List.length (selectedUtxos sel)) as Hlen.
  { apply Forall2_length in Hreqs. apply Forall2_length in Hin. lia. }
  assert (List.length messages = List.length reqs) as Hlm.
  { rewrite <- (length_map RawMessage.bip44addressIndex), Hidx. apply length_map. }
  split; [lia|].
  assert (signingAddresses sel = map owners (selectedUtxos sel)) as Hsa.
  { destruct (SelectionTheorems.selectUtxos_cases utxos (amountNeeded a))
      as [(sel' & Hs' & _ & _ & Hsa & _) | (have & Hs' & _)];
      rewrite Hsel in Hs'; [|discriminate].
    now injection Hs' as <-. }
  apply Forall_forall. intros m Hm.
  rewrite Forall_forall in Hchg. split; [|now apply Hchg].
  apply In_nth_error in Hm. destruct Hm as (i & Hi).
  assert (nth_error (map RawMessage.bip44addressIndex messages) i
          = Some (RawMessage.bip44addressIndex m)) as Hmi
    by (now apply map_nth_error).
  rewrite Hidx in Hmi.
  destruct (nth_error reqs i) as [r|] eqn:Hri.
  2:{ rewrite nth_error_map, Hri in Hmi. discriminate. }
  rewrite nth_error_map, Hri in Hmi. cbn [option_map] in Hmi. injection Hmi as <-.
  destruct (Hix i r Hri) as [_ Hb44]. rewrite Hb44. cbn [Nat.add].
  assert (i < List.length (selectedUtxos sel))%nat as Hlt.
  { rewrite <- Hlen. apply nth_error_Some. rewrite Hri. discriminate. }
  rewrite nth_error_map.
  destruct (nth_error (signingAddresses sel) i) eqn:Hsi.
  2:{ apply nth_error_None in Hsi. rewrite Hsa, length_map in Hsi. lia. }
  cbn [option_map]. unfold orDefault.
  destruct (WalletObject.bip44AddressIndex walletObject) as [w|]; [|reflexivity].
  destruct (Z.eqb_spec w 0) as [->|Hne]; [reflexivity|].
  destruct (Z.eqb_spec w 0); [contradiction|reflexivity].
Qed.

Lemma transferOrder_config (sender : string) (calls : list Call) :
  transferOrder sender calls = true -> existsb isGetConfig calls = false ->
  transferOrder sender (GetConfig :: calls) = true.
Proof.
  intros H Hn. cbn [transferOrder].
  destruct calls as [|c rest]; [exact H|].
  destruct c; try exact H. cbn in Hn. discriminate.
Qed.

End TransferRuns.

Module TransferMore.

Import Vocabulary VocabularyMore EffectFacts AccountingFacts TransferFacts
  TransactionFacts TransferRuns.
Import TransactionService MNEEFireblocksSDK.

(** X17. The requests of any run of [transferTokens], whatever its outcome,
    come in one order: the cosigner's configuration at most once and first,
    and never when a cache holds it; then the UTXOs of the sender's address
    alone; then source transactions; then one signing job, one wait for it and
    one submission, each only after the one before.  A run that returns a
    transaction hash has ended with the submission. *)
Theorem transferTokens_request_order (W : World) (recipient : string) (amount : Z)
  (walletObject : WalletObject.t) (options : TransferOptions.t) (st : State) :
  let out := transferTokens W recipient amount walletObject options st in
  exists calls,
    trace (snd out) = (trace st ++ calls)%list /\
    transferOrder (WalletObject.ordAddress walletObject) calls = true /\
    (tokenConfig st <> None \/ cosignerConfig st <> None ->
     existsb isGetConfig calls = false) /\
    (forall h, fst out = Ok h -> exists pre tx, calls = (pre ++ [PostTransfer tx])%list).
Proof.
  intros out. subst out.
  destruct (transferTokens_run W recipient amount walletObject options st)
    as (cfg & calls & r & st' & -> & Htrace & Hcfg & Horder & Hnone & Hok).
  cbn [fst snd].
  exists (cfg ++ calls)%list. split; [exact Htrace|].
  destruct Hcfg as [->|(-> & Ht & Hc)]; cbn [app].
  - split; [exact Horder|]. split; [intros _; exact Hnone|exact Hok].
  - split; [now apply transferOrder_config|]. split.
    + intros [H|H]; congruence.
    + intros h Hh. destruct (Hok h Hh) as (pre & tx & ->).
      exists (GetConfig :: pre), tx. reflexivity.
Qed.



(** X19. When [transferTokens] returns, the signing job it created was for
    the vault of the wallet, with a note naming the recipient and the amount
    the recipient receives (the amount less the fee in gross mode), and held
    one message per selected UTXO, every one with the BIP44 address index of
    the wallet (0 when the wallet gives none) and change 0; the job and the
    wait for it come after the fetches of the source transactions of the
    selected UTXOs, in selection order, and right before the submission. *)
Theorem transferTokens_signs_for_the_wallet (W : World) (recipient : string)
  (amount : Z) (walletObject : WalletObject.t) (options : TransferOptions.t)
  (st st' : State) (h : string) :
  transferTokens W recipient amount walletObject options st = (Ok h, st') ->
  exists config utxos a sel messages id signed cfg,
    resolvedConfig W st = Ok config /\
    postUtxos W [WalletObject.ordAddress walletObject] = Ok utxos /\
    accounting config options amount
      (fold_left (fun sum utxo => sum + amt utxo) utxos 0) = Ok a /\
    selectUtxos utxos (amountNeeded a) = Ok sel /\
    trace st'
    = (trace st ++ cfg
         ++ PostUtxos [WalletObject.ordAddress walletObject]
         :: map GetTx (map txid (selectedUtxos sel))
         ++ [CreateTransaction
               (SigningRequest.mk (WalletObject.vaultAccountId walletObject)
                  (tokenSatAmt a) recipient messages);
             PollTransaction id; PostTransfer signed])%list /\
    (cfg = [] \/ cfg = [GetConfig]) /\
    List.length messages = List.length (selectedUtxos sel) /\
    Forall (fun m =>
              RawMessage.bip44addressIndex m
              = orDefault (WalletObject.bip44AddressIndex walletObject) 0 /\
              RawMessage.bip44change m = 0) messages.
Proof.
  rewrite transferTokens_unfold. intros H.
  destruct (isEmpty (WalletObject.vaultAccountId walletObject)); [discriminate|].
  apply mbind_ok_inv in H. destruct H as (config & st1 & Hc & H).
  destruct (ensureTokenConfig_cases W st) as (st1' & Hrun & Ht).
  rewrite Hrun in Hc. injection Hc as Hconfig <-.
  destruct (amount <=? 0); [discriminate|].
  apply mbind_ok_inv in H. destruct H as (utxos & st2 & Hu & H).
  unfold CosignerService.fetchUtxos in Hu. rewrite request_run in Hu.
  injection Hu as Hutxos <-.
  apply spend_ok_job in H.
  destruct H as (a & sel & messages & id & signed & Ha & Hsel & -> & Hlen & Hall).
  exists config, utxos, a, sel, messages, id, signed.
  exists (match tokenConfig st, cosignerConfig st with
          | None, None => [GetConfig]
          | _, _ => []
          end).
  split; [exact Hconfig|]. split; [exact Hutxos|]. split; [exact Ha|].
  split; [exact Hsel|]. split.
  - pose proof (ensureTokenConfig_spec W st) as (_ & Hcached & Hfresh & _).
    rewrite Hrun in Hcached, Hfresh. cbn [snd] in Hcached, Hfresh.
    unfold after. cbn [trace]. rewrite <- !app_assoc. cbn [app].
    destruct (tokenConfig st) eqn:E1.
    + rewrite Hcached by (left; discriminate). reflexivity.
    + destruct (cosignerConfig st) eqn:E2.
      * rewrite Hcached by (right; discriminate). reflexivity.
      * rewrite Hfresh by reflexivity. now rewrite <- app_assoc.
  - split; [destruct (tokenConfig st), (cosignerConfig st); auto|].
    split; [exact Hlen|exact Hall].
Qed.

Lemma transferTokens_signs_for_the_wallet_witness :
  exists h st' messages,
    transferTokens SamplesMore.worldSpending "dest" 50 Samples.wallet
      Samples.noOptions Samples.fresh = (Ok h, st') /\
    In (CreateTransaction (SigningRequest.mk "vault" 50 "dest" messages)) (trace st') /\
    List.length messages = 1%nat.
Proof.
  eassert (transferTokens SamplesMore.worldSpending "dest" 50 Samples.wallet
             Samples.noOptions Samples.fresh = (Ok _, _)) as E
    by (vm_compute; reflexivity).
  destruct (@transferTokens_signs_for_the_wallet _ _ _ _ _ _ _ _ E)
    as (config & utxos & a & sel & messages & id & signed & cfg & Hc & Hu & Ha & Hs
        & Htrace & Hcfg & Hlen & _).
  vm_compute in Hc. injection Hc as <-.
  vm_compute in Hu. injection Hu as <-.
  vm_compute in Ha. injection Ha as <-.
  vm_compute in Hs. injection Hs as <-.
  do 2 eexists. exists messages. split; [exact E|].
  split; [|exact Hlen].
  rewrite Htrace. apply in_or_app. right. apply in_or_app. right. right.
  apply in_or_app. right. left. reflexivity.
Defined.

End TransferMore.

(** ** Transfers: what stops them *)

Module FundsFacts.

Import Vocabulary VocabularyMore EffectFacts AccountingFacts TransferFacts
  TransferRuns SelectionFacts.
Import TransactionService MNEEFireblocksSDK.









End FundsFacts.

Module FundsMore.

Import Vocabulary VocabularyMore EffectFacts AccountingFacts TransferFacts
  TransferRuns FundsFacts.
Import TransactionService MNEEFireblocksSDK.










End FundsMore.

(** ** Waiting for a signature *)

Module WaitFacts.

Import FireblocksUtils WaitVocabulary.

Lemma isFinal_not_refused (s : TransactionStateEnum) :
  isFinal s = true -> isRefused s = false.
Proof. destruct s; cbn; congruence. Qed.

Lemma pollLoop_firstDecisive (answers : nat -> result TransactionData) (fuel : nat) :
  forall k r,
    answers k = Ok r ->
    ((1 <= k)%nat -> isRefused (status r) = false) ->
    pollLoop answers fuel (S k) r = firstDecisive answers fuel k.
Proof.
  induction fuel as [|fuel IH]; intros k r Hk Hr.
  - cbn [pollLoop firstDecisive]. rewrite Hk. unfold decisive.
    destruct (isFinal (status r)) eqn:Ef.
    + rewrite (isFinal_not_refused _ Ef), andb_false_r. reflexivity.
    + destruct k as [|k]; [reflexivity|]. now rewrite Hr by lia.
  - cbn [pollLoop firstDecisive]. rewrite Hk. unfold decisive at 1.
    destruct (isFinal (status r)) eqn:Ef.
    + rewrite (isFinal_not_refused _ Ef), andb_false_r. reflexivity.
    + replace ((1 <=? k)%nat && isRefused (status r)) with false
        by (destruct k; [reflexivity|now rewrite Hr by lia]).
      destruct (answers (S k)) as [next|e] eqn:En.
      * destruct (isRefused (status next)) eqn:Er.
        -- destruct fuel; cbn [firstDecisive]; rewrite En; unfold decisive;
             cbn [Nat.leb andb]; rewrite Er; reflexivity.
        -- apply IH; auto.
      * destruct fuel; cbn [firstDecisive]; rewrite En; reflexivity.
Qed.

Lemma waitForSignature_firstDecisive (answers : nat -> result TransactionData)
  (fuel : nat) :
  waitForSignature answers fuel = firstDecisive answers fuel 0.
Proof.
  unfold waitForSignature. destruct (answers 0%nat) as [r|e] eqn:E0.
  - apply pollLoop_firstDecisive; [exact E0|lia].
  - destruct fuel; cbn [firstDecisive]; rewrite E0; reflexivity.
Qed.

Lemma firstDecisive_some (answers : nat -> result TransactionData) (fuel : nat) :
  forall k o c,
    firstDecisive answers fuel k = Some (o, c) <->
    exists n, c = S n /\ (k <= n <= k + fuel)%nat /\
              (forall j, (k <= j < n)%nat -> decisive j (answers j) = None) /\
              decisive n (answers n) = Some o.
Proof.
  induction fuel as [|fuel IH]; intros k o c; cbn [firstDecisive].
  - destruct (decisive k (answers k)) as [o'|] eqn:E.
    + split.
      * intros [= <- <-]. exists k. repeat split; auto; try lia; intros j Hj; lia.
      * intros (n & -> & Hn & _ & Ho). assert (n = k) as -> by lia.
        congruence.
    + split; [discriminate|].
      intros (n & -> & Hn & _ & Ho). assert (n = k) as -> by lia. congruence.
  - destruct (decisive k (answers k)) as [o'|] eqn:E.
    + split.
      * intros [= <- <-]. exists k. repeat split; auto; try lia; intros j Hj; lia.
      * intros (n & -> & Hn & Hbefore & Ho).
        destruct (Nat.eq_dec n k) as [->|Hne]; [congruence|].
        rewrite Hbefore in E by lia. discriminate.
    + rewrite IH. split.
      * intros (n & -> & Hn & Hbefore & Ho). exists n. repeat split; auto; try lia.
        intros j Hj. destruct (Nat.eq_dec j k) as [->|Hne]; [exact E|].
        apply Hbefore. lia.
      * intros (n & -> & Hn & Hbefore & Ho).
        assert (n <> k) by (intros ->; congruence).
        exists n. repeat split; auto; try lia. intros j Hj. apply Hbefore. lia.
Qed.

Lemma firstDecisive_none (answers : nat -> result TransactionData) (fuel : nat) :
  forall k,
    firstDecisive answers fuel k = None <->
    forall j, (k <= j <= k + fuel)%nat -> decisive j (answers j) = None.
Proof.
  induction fuel as [|fuel IH]; intros k; cbn [firstDecisive].
  - destruct (decisive k (answers k)) as [o'|] eqn:E.
    + split; [discriminate|]. intros H. rewrite H in E by lia. discriminate.
    + split; [|reflexivity]. intros _ j Hj. assert (j = k) as -> by lia. exact E.
  - destruct (decisive k (answers k)) as [o'|] eqn:E.
    + split; [discriminate|]. intros H. rewrite H in E by lia. discriminate.
    + rewrite IH. split.
      * intros H j Hj. destruct (Nat.eq_dec j k) as [->|Hne]; [exact E|].
        apply H. lia.
      * intros H j Hj. apply H. lia.
Qed.

End WaitFacts.

Module WaitMore.

Import FireblocksUtils WaitVocabulary WaitFacts.

(** X25. [waitForSignature] ends at the first decisive answer: it makes
    [n + 1] requests and ends with outcome [o] exactly when answer [n] is the
    first that fails, carries a final status (COMPLETED or BROADCASTING) or,
    not being the first answer, carries a refused status (BLOCKED, CANCELLED,
    FAILED, REJECTED), and [o] is the outcome that answer decides.  So the
    data returned always has a final status and is the last answer
    received. *)
Theorem waitForSignature_first_decisive_answer
  (answers : nat -> result TransactionData) (fuel : nat) (o : Outcome) (c : nat) :
  (waitForSignature answers fuel = Some (o, c) <->
   exists n, c = S n /\ (n <= fuel)%nat /\
             (forall j, (j < n)%nat -> decisive j (answers j) = None) /\
             decisive n (answers n) = Some o) /\
  (forall d, waitForSignature answers fuel = Some (Returned d, c) ->
             isFinal (status d) = true /\ answers (pred c) = Ok d).
Proof.
  rewrite waitForSignature_firstDecisive.
  assert (firstDecisive answers fuel 0 = Some (o, c) <->
          exists n, c = S n /\ (n <= fuel)%nat /\
                    (forall j, (j < n)%nat -> decisive j (answers j) = None) /\
                    decisive n (answers n) = Some o) as Hiff.
  { rewrite firstDecisive_some. split; intros (n & -> & Hn & Hb & Ho); exists n;
      repeat split; auto; try lia; intros j Hj; apply Hb; lia. }
  split; [exact Hiff|].
  intros d Hd. apply firstDecisive_some in Hd.
  destruct Hd as (n & -> & _ & _ & Hd). cbn [pred].
  unfold decisive in Hd. destruct (answers n) as [r|e]; [|discriminate].
  destruct ((1 <=? n)%nat && isRefused (status r)); [discriminate|].
  destruct (isFinal (status r)) eqn:Ef; [|discriminate].
  injection Hd as <-. auto.
Qed.

(** X26. A refused status in the first answer is not looked at: when the
    first answer carries one, the call asks again, and returns normally if
    the second answer carries a final status.  The signing-request-failed
    error is thrown after two requests at least. *)
Theorem waitForSignature_ignores_first_refusal
  (answers : nat -> result TransactionData) (fuel : nat)
  (first second : TransactionData) :
  answers 0%nat = Ok first ->
  isRefused (status first) = true ->
  answers 1%nat = Ok second ->
  isFinal (status second) = true ->
  waitForSignature answers (S fuel) = Some (Returned second, 2%nat) /\
  (forall i s sub c,
     waitForSignature answers (S fuel) <> Some (SigningRequestFailed i s sub, c)) /\
  (forall other n i s sub c,
     waitForSignature other n = Some (SigningRequestFailed i s sub, c) ->
     (2 <= c)%nat).
Proof.
  intros H0 Hr H1 Hf.
  assert (waitForSignature answers (S fuel) = Some (Returned second, 2%nat)) as E.
  { rewrite waitForSignature_firstDecisive. apply firstDecisive_some.
    exists 1%nat. repeat split; try lia.
    - intros j Hj. assert (j = 0)%nat as -> by lia. rewrite H0. unfold decisive.
      cbn [Nat.leb andb].
      destruct (isFinal (status first)) eqn:E; [|reflexivity].
      apply isFinal_not_refused in E. congruence.
    - rewrite H1. unfold decisive. rewrite (isFinal_not_refused _ Hf), andb_false_r.
      now rewrite Hf. }
  split; [exact E|]. split.
  - intros i s sub c. rewrite E. discriminate.
  - intros other n i s sub c H. rewrite waitForSignature_firstDecisive in H.
    apply firstDecisive_some in H. destruct H as (m & -> & _ & _ & Hd).
    destruct m as [|m]; [|lia].
    unfold decisive in Hd. destruct (other 0%nat) as [r|e]; [|discriminate].
    cbn [Nat.leb andb] in Hd. destruct (isFinal (status r)); discriminate.
Qed.

Lemma waitForSignature_ignores_first_refusal_witness :
  waitForSignature
    (fun k => match k with
              | O => Ok (mkTransactionData "job" Failed "" None)
              | _ => Ok (mkTransactionData "job" Completed "" (Some []))
              end) 1
  = Some (Returned (mkTransactionData "job" Completed "" (Some [])), 2%nat).
Proof.
  exact (proj1 (@waitForSignature_ignores_first_refusal
                  (fun k => match k with
                            | O => Ok (mkTransactionData "job" Failed "" None)
                            | _ => Ok (mkTransactionData "job" Completed "" (Some []))
                            end) 0 _ _ eq_refl eq_refl eq_refl eq_refl)).
Defined.

(** X27. There is no timeout: as long as the answers carry a status that is
    neither final nor refused (a refused status in the first answer counts as
    neither), [waitForSignature] keeps asking; with [fuel + 1] such answers it
    has not ended after [fuel + 1] requests. *)
Theorem waitForSignature_has_no_timeout
  (answers : nat -> result TransactionData) (fuel : nat) :
  (forall k, (k <= fuel)%nat ->
     exists r, answers k = Ok r /\ isFinal (status r) = false /\
               ((1 <= k)%nat -> isRefused (status r) = false)) ->
  waitForSignature answers fuel = None.
Proof.
  intros H. rewrite waitForSignature_firstDecisive. apply firstDecisive_none.
  intros j Hj. destruct (H j) as (r & -> & Hf & Hr); [lia|].
  unfold decisive. rewrite Hf.
  destruct j as [|j]; [reflexivity|]. now rewrite Hr by lia.
Qed.

Lemma waitForSignature_has_no_timeout_witness :
  waitForSignature
    (fun _ => Ok (mkTransactionData "job" (OtherState "PENDING_SIGNATURE") "" None)) 100
  = None.
Proof.
  apply waitForSignature_has_no_timeout.
  intros k _. eexists. split; [reflexivity|]. split; [reflexivity|]. reflexivity.
Defined.

End WaitMore.

(** ** The pages of addresses of a vault *)

Module PagesFacts.

Import VaultAddresses.

Lemma fetchPages_chain (getPage : option string -> result Page)
  (cursor : option string) (pages : list Page) :
  Chain getPage cursor pages ->
  forall fuel all requested,
    (List.length pages <= fuel)%nat ->
    fetchPages getPage fuel cursor all requested
    = Some (Ok (all ++ flat_map pageAddressesWithIndexes pages)%list,
            (requested ++ cursorsOf cursor pages)%list).
Proof.
  induction 1 as [cursor page Hp Hn | cursor page next pages Hp Hn Hc IH];
    intros fuel all requested Hfuel.
  - destruct fuel as [|fuel]; [cbn in Hfuel; lia|].
    cbn [fetchPages]. rewrite Hp, Hn. cbn [flat_map cursorsOf removelast map].
    now rewrite app_nil_r.
  - destruct fuel as [|fuel]; [cbn in Hfuel; lia|].
    cbn [fetchPages]. rewrite Hp, Hn. rewrite IH by (cbn in Hfuel; lia).
    cbn [flat_map]. rewrite <- !app_assoc. f_equal. f_equal. f_equal.
    unfold cursorsOf. cbn [app].
    destruct pages as [|q qs]; [inversion Hc|].
    cbn [removelast map]. now rewrite Hn.
Qed.

Lemma fetchPages_ok (getPage : option string -> result Page) (fuel : nat) :
  forall cursor all requested found cursors,
    fetchPages getPage fuel cursor all requested = Some (Ok found, cursors) ->
    exists pages,
      Chain getPage cursor pages /\ (List.length pages <= fuel)%nat /\
      found = (all ++ flat_map pageAddressesWithIndexes pages)%list.
Proof.
  induction fuel as [|fuel IH]; intros cursor all requested found cursors H;
    [discriminate|].
  cbn [fetchPages] in H.
  destruct (getPage cursor) as [page|e] eqn:Hp; [|discriminate].
  destruct (nextCursor page) as [next|] eqn:Hn.
  - apply IH in H. destruct H as (pages & Hc & Hl & ->).
    exists (page :: pages). split; [eapply chain_next; eassumption|].
    split; [cbn; lia|]. cbn [flat_map]. now rewrite app_assoc.
  - injection H as <- _. exists [page]. split; [now apply chain_last|].
    split; [cbn; lia|]. cbn [flat_map]. now rewrite app_nil_r.
Qed.

Lemma fetchPages_endless (getPage : option string -> result Page) :
  (forall cursor, exists page next,
      getPage cursor = Ok page /\ nextCursor page = Some next) ->
  forall fuel cursor all requested,
    fetchPages getPage fuel cursor all requested = None.
Proof.
  intros H. induction fuel as [|fuel IH]; intros cursor all requested; [reflexivity|].
  cbn [fetchPages]. destruct (H cursor) as (page & next & -> & ->). apply IH.
Qed.

End PagesFacts.

Module PagesMore.

Import VaultAddresses PagesFacts.

(** X28. [getVaultAddressesWithIndexes] returns the addresses of all the
    pages and of those only: it returns a list exactly when following the
    [after] cursors from the first page leads, within the fuel, to a page
    without a next cursor (none, or the empty string), and the list is then
    the addresses of these pages in order, each with its index, 0 when the
    index is missing; one request is made per page, with the cursor given by
    the page before. *)
Theorem getVaultAddressesWithIndexes_all_pages
  (getPage : option string -> result Page) (fuel : nat) (vault : string)
  (found : list AddressWithIndex.t) :
  isEmpty vault = false ->
  ((exists cursors,
      getVaultAddressesWithIndexes getPage fuel vault = Some (Ok found, cursors))
   <-> exists pages,
         Chain getPage None pages /\ (List.length pages <= fuel)%nat /\
         found = flat_map pageAddressesWithIndexes pages) /\
  (forall pages,
     Chain getPage None pages -> (List.length pages <= fuel)%nat ->
     getVaultAddressesWithIndexes getPage fuel vault
     = Some (Ok (flat_map pageAddressesWithIndexes pages), cursorsOf None pages)).
Proof.
  intros Hv. unfold getVaultAddressesWithIndexes. rewrite Hv.
  assert (forall pages,
            Chain getPage None pages -> (List.length pages <= fuel)%nat ->
            fetchPages getPage fuel None [] []
            = Some (Ok (flat_map pageAddressesWithIndexes pages), cursorsOf None pages))
    as Hchain.
  { intros pages Hc Hl.
    exact (@fetchPages_chain getPage None pages Hc fuel [] [] Hl). }
  split; [|exact Hchain].
  split.
  - intros (cursors & H). apply fetchPages_ok in H.
    destruct H as (pages & Hc & Hl & ->). exists pages. auto.
  - intros (pages & Hc & Hl & ->). eexists. apply Hchain; assumption.
Qed.

Lemma getVaultAddressesWithIndexes_all_pages_witness :
  getVaultAddressesWithIndexes
    (fun cursor =>
       match cursor with
       | None => Ok (mkPage (Some [mkAddressEntry "a" None]) (Some "next"))
       | Some _ => Ok (mkPage (Some [mkAddressEntry "b" (Some 7)]) (Some ""))
       end) 2 "vault"
  = Some (Ok [AddressWithIndex.mk "a" 0; AddressWithIndex.mk "b" 7],
          [None; Some "next"]).
Proof.
  refine (proj2 (@getVaultAddressesWithIndexes_all_pages _ 2 "vault" [] eq_refl)
            [mkPage (Some [mkAddressEntry "a" None]) (Some "next");
             mkPage (Some [mkAddressEntry "b" (Some 7)]) (Some "")] _ _).
  - eapply chain_next; [reflexivity|reflexivity|]. apply chain_last; reflexivity.
  - cbn. lia.
Defined.

(** X29. The loop ends only on a page without a next cursor: when every page
    names a next one (a cursor that leads back to its own page, for
    instance), [getVaultAddressesWithIndexes] does not return, whatever the
    fuel. *)
Theorem getVaultAddressesWithIndexes_endless_cursors
  (getPage : option string -> result Page) (vault : string) :
  isEmpty vault = false ->
  (forall cursor, exists page next,
      getPage cursor = Ok page /\ after page = Some next /\ isEmpty next = false) ->
  forall fuel, getVaultAddressesWithIndexes getPage fuel vault = None.
Proof.
  intros Hv H fuel. unfold getVaultAddressesWithIndexes. rewrite Hv.
  apply fetchPages_endless. intros cursor.
  destruct (H cursor) as (page & next & Hp & Ha & He).
  exists page, next. split; [exact Hp|]. unfold nextCursor. now rewrite Ha, He.
Qed.

Lemma getVaultAddressesWithIndexes_endless_cursors_witness :
  getVaultAddressesWithIndexes
    (fun _ => Ok (mkPage (Some [mkAddressEntry "a" None]) (Some "again"))) 50 "vault"
  = None.
Proof.
  apply getVaultAddressesWithIndexes_endless_cursors; [reflexivity|].
  intros cursor. do 2 eexists. split; [reflexivity|]. split; reflexivity.
Defined.

End PagesMore.

(** ** The errors of a submission *)

Module SubmitMore.

Import CosignerSubmit.

Lemma prefix_occurs (sub s : string) :
  String.prefix sub s = true <-> exists rest, s = (sub ++ rest)%string.
Proof.
  revert s. induction sub as [|c sub IH]; intros s.
  - cbn. split; [intros _; exists s; reflexivity | now destruct s].
  - destruct s as [|d s]; cbn [String.prefix].
    + split; [discriminate | intros (rest & H); discriminate].
    + destruct (Ascii.ascii_dec c d) as [->|Hne].
      * rewrite IH. split; intros (rest & H); exists rest.
        -- cbn. now rewrite H.
        -- cbn in H. now injection H.
      * split; [discriminate|]. intros (rest & H). cbn in H. injection H as H _.
        congruence.
Qed.

Lemma includes_occurs (s sub : string) :
  includes s sub = true <-> occursIn sub s.
Proof.
  unfold occursIn. induction s as [|c s IH]; cbn [includes].
  - destruct (String.prefix sub "") eqn:E.
    + split; [intros _|reflexivity]. apply prefix_occurs in E.
      destruct E as (rest & E). exists "", rest. exact E.
    + split; [discriminate|]. intros (before & rest & H).
      destruct before; [|discriminate].
      assert (String.prefix sub "" = true) as E'
        by (apply prefix_occurs; exists rest; exact H).
      congruence.
  - destruct (String.prefix sub (String c s)) eqn:E.
    + split; [intros _|reflexivity]. apply prefix_occurs in E.
      destruct E as (rest & E). exists "", rest. exact E.
    + rewrite IH. split.
      * intros (before & rest & ->). exists (String c before), rest. reflexivity.
      * intros (before & rest & H). destruct before as [|d before].
        -- assert (String.prefix sub (String c s) = true) as E'
             by (apply prefix_occurs; exists rest; exact H).
           congruence.
        -- cbn in H. injection H as _ ->. eauto.
Qed.

(** X30. The error [submitTransaction] throws for a failed POST.  For the
    status 423 the message says that the address is frozen exactly when the
    cosigner's message contains "frozen", that the recipient is blacklisted
    exactly when it contains "blacklisted" and not "frozen", and that the
    transaction is blocked otherwise; for 503 it says that transfers are
    paused exactly when the cosigner's message contains "cosigner is paused",
    and that the service is unavailable otherwise; for any other status the
    message is the cosigner's when there is one that is not empty, and that
    the transaction was rejected otherwise; an error that is not an axios
    error is thrown again as it is. *)
Theorem submitTransaction_error_messages (status : option Z) (message : string) :
  (submitError (AxiosError (Some 423) (Some message))
   = NewError "Your address is currently frozen and cannot send tokens"
   <-> occursIn "frozen" message) /\
  (submitError (AxiosError (Some 423) (Some message))
   = NewError "The recipient address is blacklisted and cannot receive tokens"
   <-> occursIn "blacklisted" message /\ ~ occursIn "frozen" message) /\
  (submitError (AxiosError (Some 423) (Some message))
   = NewError "Transaction blocked by cosigner"
   <-> ~ occursIn "blacklisted" message /\ ~ occursIn "frozen" message) /\
  (submitError (AxiosError (Some 503) (Some message))
   = NewError "Token transfers are currently paused by the administrator"
   <-> occursIn "cosigner is paused" message) /\
  (submitError (AxiosError (Some 503) (Some message))
   = NewError "Cosigning service temporarily unavailable"
   <-> ~ occursIn "cosigner is paused" message) /\
  (status <> Some 423 -> status <> Some 503 ->
   (message <> EmptyString ->
    submitError (AxiosError status (Some message)) = NewError message) /\
   submitError (AxiosError status (Some EmptyString))
   = NewError "Transaction rejected by cosigner" /\
   submitError (AxiosError status None)
   = NewError "Transaction rejected by cosigner") /\
  (forall e, submitError (NotAxios e) = Same e).
Proof.
  pose proof (includes_occurs message "frozen") as Hf.
  pose proof (includes_occurs message "blacklisted") as Hb.
  pose proof (includes_occurs message "cosigner is paused") as Hp.
  split; [|split; [|split; [|split; [|split; [|split]]]]].
  - cbn [submitError messageIncludes]. destruct (includes message "frozen").
    + split; [intros _; now apply Hf|reflexivity].
    + split; [|intros H; apply Hf in H; discriminate].
      destruct (includes message "blacklisted"); discriminate.
  - cbn [submitError messageIncludes]. destruct (includes message "frozen").
    + split; [discriminate|]. intros [_ H]. exfalso. apply H. now apply Hf.
    + destruct (includes message "blacklisted").
      * split; [|reflexivity]. intros _. split; [now apply Hb|].
        intros H. apply Hf in H. discriminate.
      * split; [discriminate|]. intros [H _]. apply Hb in H. discriminate.
  - cbn [submitError messageIncludes]. destruct (includes message "frozen").
    + split; [discriminate|]. intros [_ H]. exfalso. apply H. now apply Hf.
    + destruct (includes message "blacklisted").
      * split; [discriminate|]. intros [H _]. exfalso. apply H. now apply Hb.
      * split; [|reflexivity]. intros _.
        split; intros H; [apply Hb in H|apply Hf in H]; discriminate.
  - cbn [submitError messageIncludes]. destruct (includes message "cosigner is paused").
    + split; [intros _; now apply Hp|reflexivity].
    + split; [discriminate|]. intros H. apply Hp in H. discriminate.
  - cbn [submitError messageIncludes]. destruct (includes message "cosigner is paused").
    + split; [discriminate|]. intros H. exfalso. apply H. now apply Hp.
    + split; [|reflexivity]. intros _ H. apply Hp in H. discriminate.
  - intros H1 H2.
    assert (forall m, submitError (AxiosError status m)
                      = NewError (match m with
                                  | Some m => if isEmpty m
                                              then "Transaction rejected by cosigner"
                                              else m
                                  | None => "Transaction rejected by cosigner"
                                  end)) as Hother.
    { intros m. destruct status as [z|]; [|reflexivity].
      destruct (Z.eq_dec z 423) as [->|N1]; [congruence|].
      destruct (Z.eq_dec z 503) as [->|N2]; [congruence|].
      destruct z as [|p|p]; try reflexivity.
      do 9 (destruct p as [p|p|]; try reflexivity); congruence. }
    rewrite !Hother. split; [|split; reflexivity].
    intros Hm. destruct message; [congruence|reflexivity].
  - reflexivity.
Qed.

End SubmitMore.
